(* ===== verification/_CoqProject ===== *)
-Q . S2P
Prelude.v
Config.v
Stage.v
Timers.v
Dom.v
Anim.v
Sound.v
GiftBox.v
GiftBoxMesh.v
Overlay.v
Scene.v
MiniatureWorld.v
HeartShape.v
CharacterMesh.v
Particles.v
App.v
AppFacts.v
AppInv.v
Audio.v
Sequencer.v
Liveness.v
Background.v
