(* ===== verification/Prelude.v ===== *)
(** * A verification development of the VD "virtual gift" web application

    The program (src/) is a React/three.js page.  Its only logic is a
    stage sequencer: the experience moves through the stages of
    [ExperienceStage] (src/types.ts) START, GIFT_BOX, OPENING, WORLD, FINAL
    and CELEBRATION, driven by clicks and by timers armed in React effects.
    Around it sit presentation components that read the stage, own a little
    state of their own and fire sounds through a singleton SoundController.

    ** How the parts interact

    - [App] (src/App.tsx) owns the [stage] and [hasStarted] hooks, the
      start button ([startExperience]), the functional update [nextStage],
      and an effect on [stage] that arms a 3500 ms timeout in OPENING and a
      6000 ms timeout in WORLD and clears it in its cleanup.
    - [UIOverlay] (src/components/UIOverlay.tsx) owns [msgIndex], cycles it
      with a 3500 ms interval while the stage is WORLD, and holds the "Yes"
      button whose handler sets the stage to CELEBRATION and plays sounds.
    - [Scene] (src/components/Scene.tsx) mounts a clickable [GiftBox] in
      GIFT_BOX, an opened [GiftBox] in OPENING and [MiniatureWorld] in WORLD
      and FINAL; [Particles] is always mounted.
    - [GiftBox] (src/components/GiftBox.tsx) owns [hovered] and guards its
      click handler with [onClick && !isOpen]; it plays sounds before it
      calls [onClick].
    - [SoundController] (src/services/SoundController.ts) lazily creates an
      AudioContext and schedules tones, timeouts and never-cleared intervals.

    ** Files, in dependency order

    - [Prelude] (this file): the JS effect monad [JS] (state passing with
      exceptions that keep the state reached before the throw), its
      notation scope [js_scope], [js_preserves] (invariants of
      computations) and [js_rel] (frames: relations between the state
      before and after), the hint database [vd], the tactics
      [js_preserve] and [js_rel_tac], and list lemmas.
    - [Config]: src/vite.config.ts: the deployment base path ([base], from
      [GITHUB_REPOSITORY_NAME]), the whole config object [vite_config],
      and JSON.stringify / a JSON string reader for its [define] table.
    - [Stage]: the enumeration of src/types.ts with its string values and
      decidable equality, the rank that orders the stages, and
      [App.nextStage]'s switch.
    - [Timers]: the browser timer queue (setTimeout, setInterval,
      clearTimeout, firing in due order) shared by all components, with
      its well-formedness invariant and the interface [TimerHost].  It
      models the platform, not code of src/, and is not in the map.
    - [Dom]: class lists, pointer-events inheritance and opacity, which
      decide which handlers a click can reach (platform, not in the map).
    - [Anim]: three.js's [lerp] on rationals, [Math.PI] as the double it
      is, and the lemmas of the per-frame animations.
    - [Sound]: SoundController over the interface [SoundHost] (a lens to
      the audio state plus the timer queue), with the tone log as output;
      its envelope invariant and its audio-context invariant [ctx_ok].
    - [GiftBox], [Overlay], [Scene]: the components, their handlers written
      against the setter callbacks React gives them, their renders, and
      the lid's and the scene's [useFrame] callbacks.
    - [GiftBoxMesh]: the gift box's box meshes (body, ribbons, lid and lid
      ribbons) as corner sets, compared by a boolean check with its
      soundness lemma.
    - [HeartShape]: MiniatureWorld's [HeartShape] path, the cubic Bezier
      curves [THREE.Path] builds from it and three.js's interpolation.
    - [CharacterMesh]: a character's head, eyes (balls) and body (a
      capsule), with the lemma that a ball whose centre is close enough to
      another's lies inside it (Cauchy-Schwarz from Lagrange's identity).
    - [MiniatureWorld], [Particles]: the two animated components, each a
      record of animated values and its [useFrame] callback; Particles
      keeps its flat [Float32Array] and is proved equal to a per-point
      reference.
    - [App]: the whole page as one state [World]: the event dispatcher, the
      React commit (effect cleanup and setup when [stage] changes), timer
      firing and the step function on inputs.
    - [AppFacts]: frames of every operation (what each touches); [AppInv]:
      the page invariant [page_inv] (timers, effects and hooks agree with
      the stage) and its preservation by every step.
    - [Audio]: the audio context along a run, and the gift box click with
      and without an AudioContext constructor.
    - [Sequencer]: reachable pages, the spec's abstract stage machine (spec
      section 4.1), the refinement of it by the page with the divergence
      the code has, and the sequencer's and the audio theorems.
    - [Liveness]: the stage timeouts fire: from OPENING and WORLD the page
      reaches the next stage by timer firings alone.
    - [Background]: SoundController's two background intervals, once
      armed by the start click, stay pending on every later page (the
      frame relation [kept_except]: no step clears a sound timer).

    ** What the theorems show

    - Refinement and safety (Sequencer): every step keeps the stage or
      moves it as the spec's table does, except the "Yes" button, which
      the render leaves clickable (invisible) in every stage after START;
      stages never go back, CELEBRATION is terminal, FINAL waits for
      "Yes", no stage timeout fires stale and each stage has exactly the
      timers its effects armed.
    - Invariant (Background): nothing clears the piano and heartbeat
      intervals; they stay pending for ever (the finding on
      SoundController.ts line 55).
    - Liveness (Liveness): a lexicographic measure (time to the timeout,
      timers due now) shows the timeouts always fire.
    - Errors (Sequencer, Audio): without an AudioContext constructor the
      gift box click throws before [onClick], so the page never opens.
    - Bounds, termination and equivalence (GiftBox, MiniatureWorld,
      Particles): animations stay in range when the per-frame factor is at
      most 1 and overshoot when it is not (lid scale below 0, characters
      crossing); the particle shower keeps every point in a box, resets
      every point within 251 frames, and the index loop equals the
      per-point reference; n equal lid frames have a closed form.
    - Geometry (HeartShape, GiftBoxMesh, MiniatureWorld): the heart
      outline is closed and fills the box [-6, 16] x [0, 19] but is not
      symmetric; the box's two body ribbons are the same solid; the
      decorative hearts and both characters stand on the ground disc; the
      characters' eyes are buried inside their heads.
    - Types and round trips (Stage, Config): stage values round-trip
      through their strings; the deployment base always starts and ends
      with "/"; the [define] table's JSON text reads back as the build's
      GEMINI_API_KEY under both names.

    ** Bounds and fuel

    No definition uses fuel: loops over the particle array are structural
    on the number of points left, and [eventually] is inductive, so the
    liveness theorem states that the next stage is reached after finitely
    many firings.  The claims about frames assume a per-frame factor
    [delta * k <= 1] where they need one (frames of at most 1/3 s, 2/3 s
    or 1/1.2 s); the overshoot theorems characterise exactly what happens
    above it (the lid's scale turns negative iff [delta * 3 > 1]; the
    characters cross on their first frame iff [delta * 1.5 * (2 -
    targetDist) > 2]).  The particle reset theorem bounds the number of
    shower frames by 251: a point at most 25 above the threshold falls 0.1
    per frame.

    ** Not modelled

    - Materials, lights, the camera and OrbitControls (constant props and
      the library's own zoom clamp; only [enableZoom] and [autoRotate]
      depend on the stage, see [App.orbit_enableZoom]),
      the torus bows, the characters' arms (animated capsules), the extrusion of
      HeartShape and the CSS keyframes: presentation with no state and no
      property beyond its constants.  Box meshes are modelled by their
      corners, with rotations by Math.PI / 2 taken as exact quarter turns
      (the double is off by 6e-17 rad).
    - Vite itself, [loadEnv] and [path.resolve]: the config is modelled
      as the object it returns, with the environment as parameters.
    - Floating-point rounding: numbers are rationals; the single-precision
      writes of the particle array are exact here.

    ** Modelling choices

    - Time is a natural number of milliseconds; a timer fires at its due
      time, earliest first, ties in arming order (the order the HTML timer
      algorithm gives for timers armed in order).
    - JS numbers used as counters are [nat]; audio parameters are [Q]
      (the tones use decimal constants, so [Q] represents them exactly).
    - [Math.random] is an environment function [nat -> Q] read through a
      call counter; theorems that need it assume its values lie in [0,1).
    - An exception thrown by an event handler or a timer callback is
      reported and dropped: the state updates made before the throw stay.
*)

From stdpp Require Export base list list_tactics strings sets.


(** ** Exceptions and results *)

(** The exceptions the modelled code can raise: the browser's [TypeError]s
    (a missing AudioContext constructor, a non-finite audio parameter). *)
Inductive Exn :=
| TypeError (msg : string).

Inductive Res (A : Type) :=
| Ok (a : A)
| Throw (e : Exn).
Arguments Ok {A} a.
Arguments Throw {A} e.

(** ** The JS effect monad

    A computation reads and writes a state [S] and either returns or throws.
    As in JavaScript, the writes done before a throw are kept. *)
Definition JS (S A : Type) : Type := S -> S * Res A.

Definition js_ret {S A} (a : A) : JS S A := fun s => (s, Ok a).

Definition js_bind {S A B} (m : JS S A) (k : A -> JS S B) : JS S B :=
  fun s =>
    match m s with
    | (s', Ok a) => k a s'
    | (s', Throw e) => (s', Throw e)
    end.

Definition js_get {S} : JS S S := fun s => (s, Ok s).
Definition js_modify {S} (f : S -> S) : JS S unit := fun s => (f s, Ok tt).
Definition js_throw {S A} (e : Exn) : JS S A := fun s => (s, Throw e).

(** Run a computation for its final state, whatever its outcome. *)
Definition js_exec {S A} (m : JS S A) (s : S) : S := fst (m s).

Declare Scope js_scope.
Delimit Scope js_scope with js.
Notation "x <- m ;; k" := (js_bind m (fun x => k))
  (at level 100, m at next level, k at level 200, right associativity) : js_scope.
Notation "m ;; k" := (js_bind m (fun _ => k))
  (at level 100, k at level 200, right associativity) : js_scope.

Create HintDb vd.

(** ** Monad laws, pointwise *)

Lemma js_bind_ret_l {S A B} (a : A) (k : A -> JS S B) s :
  js_bind (js_ret a) k s = k a s.
Proof. reflexivity. Qed.

Lemma js_bind_ret_r {S A} (m : JS S A) s : js_bind m js_ret s = m s.
Proof. unfold js_bind, js_ret. by destruct (m s) as [? []]. Qed.

Lemma js_bind_assoc {S A B C} (m : JS S A) (k : A -> JS S B) (h : B -> JS S C) s :
  js_bind (js_bind m k) h s = js_bind m (fun a => js_bind (k a) h) s.
Proof. unfold js_bind. by destruct (m s) as [? []]. Qed.

(** Once a computation has thrown, the rest is skipped. *)
Lemma js_bind_throw {S A B} (m : JS S A) (k : A -> JS S B) s s' e :
  m s = (s', Throw e) -> js_bind m k s = (s', Throw e).
Proof. unfold js_bind. by intros ->. Qed.

Lemma js_bind_ok {S A B} (m : JS S A) (k : A -> JS S B) s s' a :
  m s = (s', Ok a) -> js_bind m k s = k a s'.
Proof. unfold js_bind. by intros ->. Qed.

(** ** Invariants of computations

    [js_preserves P m]: from a state satisfying [P], [m] ends (returning or
    throwing) in a state satisfying [P].  Sequencing preserves it, which is
    how component invariants are lifted through handlers. *)
Definition js_preserves {S A} (P : S -> Prop) (m : JS S A) : Prop :=
  forall s, P s -> P (fst (m s)).

Lemma js_preserves_ret {S A} (P : S -> Prop) (a : A) : js_preserves P (js_ret a).
Proof. by intros s. Qed.

Lemma js_preserves_throw {S A} (P : S -> Prop) e : js_preserves P (@js_throw S A e).
Proof. by intros s. Qed.

Lemma js_preserves_modify {S} (P : S -> Prop) (f : S -> S) :
  (forall s, P s -> P (f s)) -> js_preserves P (js_modify f).
Proof. intros Hf s; apply Hf. Qed.

Lemma js_preserves_bind {S A B} (P : S -> Prop) (m : JS S A) (k : A -> JS S B) :
  js_preserves P m -> (forall a, js_preserves P (k a)) -> js_preserves P (js_bind m k).
Proof.
  intros Hm Hk s Hs. unfold js_bind.
  specialize (Hm s Hs). destruct (m s) as [s' [a|e]]; simpl in *; [by apply Hk | done].
Qed.

Lemma js_preserves_get {S} (P : S -> Prop) : js_preserves P js_get.
Proof. by intros s. Qed.

#[export] Hint Resolve js_preserves_ret js_preserves_throw js_preserves_bind js_preserves_get : vd.

(** [js_preserves] for a computation built from the combinators above:
    close each piece by a lemma of the database, or split the sequence.
    The match is syntactic, so constants are never unfolded behind the
    user's back. *)
Ltac js_preserve :=
  repeat match goal with
  | |- _ => solve [eauto with vd]
  | |- js_preserves _ (js_bind _ _) => apply js_preserves_bind; [|intros]
  | |- js_preserves _ (match _ with _ => _ end) => case_match; simplify_eq/=
  end.

(** ** Generic list lemmas shared by the components *)

Lemma filter_app_singleton_false {A} (P : A -> Prop) `{!forall x, Decision (P x)} (l : list A) x :
  ~ P x -> filter P (l ++ [x]) = filter P l.
Proof. intros Hx. by rewrite filter_app, filter_cons_False, filter_nil, app_nil_r. Qed.

Lemma filter_app_singleton_true {A} (P : A -> Prop) `{!forall x, Decision (P x)} (l : list A) x :
  P x -> filter P (l ++ [x]) = filter P l ++ [x].
Proof. intros Hx. by rewrite filter_app, filter_cons_True, filter_nil. Qed.

Lemma sublist_fmap_mono {A B} (f : A -> B) (l1 l2 : list A) :
  sublist l1 l2 -> sublist (f <$> l1) (f <$> l2).
Proof. induction 1; simpl; by constructor. Qed.

Lemma NoDup_fmap_filter {A B} (f : A -> B) (P : A -> Prop) `{!forall x, Decision (P x)} (l : list A) :
  NoDup (f <$> l) -> NoDup (f <$> filter P l).
Proof. intros Hnd. eapply sublist_NoDup; [exact Hnd|]. apply sublist_fmap_mono, sublist_filter. Qed.

Lemma Forall_filter {A} (Q P : A -> Prop) `{!forall x, Decision (P x)} (l : list A) :
  Forall Q l -> Forall Q (filter P l).
Proof. rewrite !Forall_forall. intros Hq x Hx. apply Hq. by apply list_elem_of_filter in Hx as [_ ?]. Qed.

Lemma filter_comm {A} (P Q : A -> Prop) `{!forall x, Decision (P x)} `{!forall x, Decision (Q x)} (l : list A) :
  filter P (filter Q l) = filter Q (filter P l).
Proof.
  induction l as [|x l IH]; [done|]. rewrite !filter_cons.
  destruct (decide (Q x)), (decide (P x)); rewrite ?filter_cons; repeat case_decide; try done; by rewrite IH.
Qed.

Lemma filter_Forall_id {A} (P : A -> Prop) `{!forall x, Decision (P x)} (l : list A) :
  Forall P l -> filter P l = l.
Proof. induction 1; [done|]. rewrite filter_cons_True by done. by f_equal. Qed.

Lemma NoDup_fmap_eq {A B} (f : A -> B) (l : list A) x y :
  NoDup (f <$> l) -> x ∈ l -> y ∈ l -> f x = f y -> x = y.
Proof.
  induction l as [|z l IH]; simpl; intros Hnd Hx Hy Heq; [by apply not_elem_of_nil in Hx|].
  apply NoDup_cons in Hnd as [Hz Hnd].
  apply elem_of_cons in Hx as [->|Hx]; apply elem_of_cons in Hy as [->|Hy]; try done.
  - exfalso. apply Hz. rewrite Heq. by apply list_elem_of_fmap_2.
  - exfalso. apply Hz. rewrite <- Heq. by apply list_elem_of_fmap_2.
  - by apply IH.
Qed.

(** ** Relations between the state before and after a computation

    [js_rel R m]: whatever [m] does, the state it ends in is related by [R]
    to the state it started from.  With [R] a preorder this composes along
    sequencing; it is how "this handler only touches X" is stated. *)
Definition js_rel {S A} (R : S -> S -> Prop) (m : JS S A) : Prop :=
  forall s, R s (fst (m s)).

Section JsRel.
Context {S : Type} (R : S -> S -> Prop) `{!PreOrder R}.

Lemma js_rel_ret {A} (a : A) : js_rel R (js_ret a).
Proof. intros s. simpl. reflexivity. Qed.

Lemma js_rel_throw {A} e : js_rel R (@js_throw S A e).
Proof. intros s. simpl. reflexivity. Qed.

Lemma js_rel_get {A} (k : S -> JS S A) : (forall s, js_rel R (k s)) -> js_rel R (js_bind js_get k).
Proof. intros Hk s. apply Hk. Qed.

Lemma js_rel_bind {A B} (m : JS S A) (k : A -> JS S B) :
  js_rel R m -> (forall a, js_rel R (k a)) -> js_rel R (js_bind m k).
Proof.
  intros Hm Hk s. unfold js_bind. specialize (Hm s).
  destruct (m s) as [s' [a|e]]; simpl in *; [|done]. etrans; [exact Hm|]. apply Hk.
Qed.
End JsRel.

Lemma js_rel_modify {S} (R : S -> S -> Prop) (f : S -> S) :
  (forall s, R s (f s)) -> js_rel R (js_modify f).
Proof. intros Hf s. apply Hf. Qed.

#[export] Hint Resolve js_rel_ret js_rel_throw : vd.

(** [js_rel] for a computation built from the combinators, splitting
    sequences and the matches of their continuations (syntactically). *)
Ltac js_rel_tac :=
  repeat match goal with
  | |- _ => solve [eauto with vd]
  | |- js_rel _ (js_ret _) => apply js_rel_ret; typeclasses eauto
  | |- js_rel _ (js_throw _) => apply js_rel_throw; typeclasses eauto
  | |- js_rel _ (js_bind js_get _) => apply js_rel_get; intros
  | |- js_rel _ (js_bind _ _) => apply js_rel_bind; [typeclasses eauto| |intros]
  | |- js_rel _ (js_modify _) => apply js_rel_modify; intros
  | |- js_rel _ (match _ with _ => _ end) => case_match; simplify_eq/=
  end.

Lemma filter_filter_sub {A} (P Q : A -> Prop) `{!forall x, Decision (P x)} `{!forall x, Decision (Q x)} (l : list A) :
  (forall x, P x -> Q x) -> filter P (filter Q l) = filter P l.
Proof.
  intros HPQ. induction l as [|x l IH]; [done|]. rewrite !filter_cons.
  destruct (decide (Q x)) as [Hq|Hq]; rewrite ?filter_cons; repeat case_decide; try done; try by f_equal.
  exfalso; eauto.
Qed.

(** Split every conjunction and existential among the hypotheses. *)
Ltac break_hyps :=
  repeat match goal with
  | H : exists _, _ |- _ => destruct H
  | H : _ /\ _ |- _ => destruct H
  end.

Lemma js_rel_mono {S A} (R R' : S -> S -> Prop) (m : JS S A) :
  (forall s s', R s s' -> R' s s') -> js_rel R m -> js_rel R' m.
Proof. intros HR Hm s. apply HR, Hm. Qed.

(** The state a computation ends in, through a [js_rel] fact. *)
Lemma js_rel_at {S A} (R : S -> S -> Prop) (m : JS S A) s s' r :
  js_rel R m -> m s = (s', r) -> R s s'.
Proof. intros Hm Heq. specialize (Hm s). by rewrite Heq in Hm. Qed.
