(* ===== verification/Config.v ===== *)
(** * The deployment base path (src/vite.config.ts)

    The build configuration computes the path under which the page is
    served: [/<name>/] when the environment variable
    [GITHUB_REPOSITORY_NAME] is set to a non-empty string (a GitHub Pages
    project site) and [/] otherwise.  An unset variable ([None]) and an
    empty one are both falsy for the source's conditional.

    [vite_config] is the whole object the config function returns: the
    base, the dev server's port and host, the React plugin, the [define]
    table and the [@] alias.  The [define] table replaces
    [process.env.API_KEY] and [process.env.GEMINI_API_KEY] in the bundle
    by [JSON.stringify(env.GEMINI_API_KEY)]; [json_stringify] is
    ECMAScript's QuoteJSONString on strings of 8-bit code units and
    [json_parse_string] a JSON string-literal reader.  The round trip
    theorem shows the bundle sees exactly the build's environment value
    under both names ([undefined] when it is not set).  [loadEnv] and
    [path.resolve(__dirname, '.')] are parameters. *)

From S2P Require Import Prelude.
From Stdlib Require Import Ascii.

(** [process.env.GITHUB_REPOSITORY_NAME ? `/${...}/` : '/'] *)
Definition vite_base (repo : option string) : string :=
  match repo with
  | Some r => if bool_decide (r = EmptyString) then "/" else "/" +:+ r +:+ "/"
  | None => "/"
  end.

(** ** The rest of the configuration *)

Definition chr (n : nat) : ascii := ascii_of_nat n.
Definition quote_chr : ascii := chr 34.
Definition backslash : ascii := chr 92.
Definition str1 (c : ascii) : string := String c EmptyString.
Definition escaped (c : ascii) : string := String backslash (str1 c).

Definition hex_digit (n : nat) : ascii := chr (if n <? 10 then 48 + n else 87 + n).

(** QuoteJSONString on one code unit: the short escapes, [\u00XX] for the
    other control characters, the unit itself otherwise. *)
Definition json_escape (c : ascii) : string :=
  let n := nat_of_ascii c in
  if n =? 8 then escaped "b"%char
  else if n =? 9 then escaped "t"%char
  else if n =? 10 then escaped "n"%char
  else if n =? 12 then escaped "f"%char
  else if n =? 13 then escaped "r"%char
  else if n =? 34 then escaped quote_chr
  else if n =? 92 then escaped backslash
  else if n <? 32 then
    String backslash (String "u"%char (String "0"%char (String "0"%char
      (String (hex_digit (n / 16)) (str1 (hex_digit (n mod 16)))))))
  else str1 c.

Fixpoint json_escape_all (s : string) : string :=
  match s with EmptyString => EmptyString | String c s' => json_escape c +:+ json_escape_all s' end.

(** [JSON.stringify(s)] for a string [s]. *)
Definition json_stringify (s : string) : string :=
  String quote_chr (json_escape_all s +:+ str1 quote_chr).

Definition hex_val (c : ascii) : option nat :=
  let n := nat_of_ascii c in
  if (48 <=? n) && (n <=? 57) then Some (n - 48)
  else if (97 <=? n) && (n <=? 102) then Some (n - 87)
  else if (65 <=? n) && (n <=? 70) then Some (n - 55)
  else None.

(** The characters of a JSON string literal after its opening quote, up
    to the closing quote, which must end the text. *)
Fixpoint json_chars (s : string) : option string :=
  match s with
  | EmptyString => None
  | String c r =>
      if Ascii.eqb c quote_chr then match r with EmptyString => Some EmptyString | _ => None end
      else if Ascii.eqb c backslash then
        match r with
        | EmptyString => None
        | String e r' =>
            if Ascii.eqb e "b"%char then String (chr 8) <$> json_chars r'
            else if Ascii.eqb e "t"%char then String (chr 9) <$> json_chars r'
            else if Ascii.eqb e "n"%char then String (chr 10) <$> json_chars r'
            else if Ascii.eqb e "f"%char then String (chr 12) <$> json_chars r'
            else if Ascii.eqb e "r"%char then String (chr 13) <$> json_chars r'
            else if Ascii.eqb e quote_chr then String quote_chr <$> json_chars r'
            else if Ascii.eqb e backslash then String backslash <$> json_chars r'
            else if Ascii.eqb e "/"%char then String "/"%char <$> json_chars r'
            else if Ascii.eqb e "u"%char then
              match r' with
              | String h1 (String h2 (String h3 (String h4 r''))) =>
                  match hex_val h1, hex_val h2, hex_val h3, hex_val h4 with
                  | Some a, Some b, Some d, Some e =>
                      let n := ((a * 16 + b) * 16 + d) * 16 + e in
                      if n <? 256 then String (chr n) <$> json_chars r'' else None
                  | _, _, _, _ => None
                  end
              | _ => None
              end
            else None
        end
      else if nat_of_ascii c <? 32 then None
      else String c <$> json_chars r
  end.

(** [JSON.parse] of a text that must be one string literal. *)
Definition json_parse_string (s : string) : option string :=
  match s with
  | String c r => if Ascii.eqb c quote_chr then json_chars r else None
  | EmptyString => None
  end.

(** [JSON.stringify(env.GEMINI_API_KEY)]: [undefined] when it is not set. *)
Definition define_value (gemini : option string) : option string := json_stringify <$> gemini.

Inductive Plugin := react_plugin.

Record ViteConfig := mk_vite_config {
  cfg_base : string;
  cfg_server_port : nat;
  cfg_server_host : string;
  cfg_plugins : list Plugin;
  cfg_define : list (string * option string);
  cfg_alias : list (string * string)
}.

(** The object [defineConfig(({ mode }) => { ... })] returns, for the
    environment's repository name, [env.GEMINI_API_KEY] and the resolved
    project directory. *)
Definition vite_config (repo gemini : option string) (project_dir : string) : ViteConfig :=
  mk_vite_config (vite_base repo) 3000 "0.0.0.0" [react_plugin]
    [("process.env.API_KEY", define_value gemini); ("process.env.GEMINI_API_KEY", define_value gemini)]
    [("@", project_dir)].

Lemma string_app_assoc (a b c : string) : (a +:+ b) +:+ c = a +:+ (b +:+ c).
Proof. induction a as [|x a IH]; [reflexivity|]. exact (f_equal (String x) IH). Qed.

Lemma string_app_nil_r (a : string) : a +:+ EmptyString = a.
Proof. induction a as [|x a IH]; [reflexivity|]. exact (f_equal (String x) IH). Qed.

(** Each code unit's escape reads back as that unit. *)
Lemma json_escape_chars c rest : json_chars (json_escape c +:+ rest) = String c <$> json_chars rest.
Proof. destruct c as [[] [] [] [] [] [] [] []]; reflexivity. Qed.

Lemma json_escape_all_chars s rest :
  json_chars (json_escape_all s +:+ rest) = (fun t => s +:+ t) <$> json_chars rest.
Proof.
  induction s as [|c s IH].
  - change (json_chars rest = (fun t => EmptyString +:+ t) <$> json_chars rest).
    by destruct (json_chars rest).
  - change (json_chars ((json_escape c +:+ json_escape_all s) +:+ rest) =
            (fun t => String c s +:+ t) <$> json_chars rest).
    rewrite string_app_assoc, json_escape_chars, IH. by destruct (json_chars rest).
Qed.

Lemma app_slash_inj (r1 r2 : string) : r1 +:+ "/" = r2 +:+ "/" -> r1 = r2.
Proof.
  revert r2. induction r1 as [|a r1 IH]; intros [|b r2]; simpl; try done.
  - intros [= _ H]. by destruct r2.
  - intros [= _ H]. by destruct r1.
  - intros [= -> H]. f_equal. by apply IH.
Qed.

(** C29: the base Vite receives is well formed whatever the environment:
    it is ["/"], or ["/" ++ r ++ "/"] for the non-empty repository name
    [r], so it starts and ends with a slash; and two different non-empty
    names give two different bases. *)
Theorem vite_base_well_formed repo :
  ((vite_base repo = "/" /\ (repo = None \/ repo = Some EmptyString)) \/
   (exists r, repo = Some r /\ r <> EmptyString /\ vite_base repo = "/" +:+ r +:+ "/")) /\
  (forall r1 r2, r1 <> EmptyString -> r2 <> EmptyString ->
     vite_base (Some r1) = vite_base (Some r2) -> r1 = r2).
Proof.
  split.
  - destruct repo as [r|]; [|left; split; [done|by left]].
    destruct (decide (r = EmptyString)) as [->|Hne]; [left; split; [done|by right]|].
    right. exists r. split_and!; [done|done|]. simpl. by rewrite bool_decide_false.
  - intros r1 r2 H1 H2. simpl. rewrite !bool_decide_false by done.
    intros [= H]. by apply app_slash_inj.
Qed.

(** C37: the [define] table of the build replaces exactly
    [process.env.API_KEY] and [process.env.GEMINI_API_KEY], and the text
    it puts in the bundle for each reads back, as a JSON string literal,
    as the build environment's [GEMINI_API_KEY] (any string of 8-bit
    code units, quotes, backslashes and control characters included), or
    is [undefined] when that variable is not set. *)
Theorem vite_define_roundtrip repo gemini dir :
  fst <$> cfg_define (vite_config repo gemini dir) = ["process.env.API_KEY"; "process.env.GEMINI_API_KEY"] /\
  Forall (fun kv => kv.2 ≫= json_parse_string = gemini) (cfg_define (vite_config repo gemini dir)).
Proof.
  split; [reflexivity|].
  assert (define_value gemini ≫= json_parse_string = gemini) as H.
  { destruct gemini as [s|]; [|done]. simpl. unfold json_stringify, json_parse_string.
    replace (Ascii.eqb quote_chr quote_chr) with true by reflexivity.
    rewrite json_escape_all_chars. simpl. by rewrite string_app_nil_r. }
  repeat constructor; exact H.
Qed.
