(* ===== verification/Stage.v ===== *)
(** * Stages of the experience (src/types.ts) and the [nextStage] switch

    [ExperienceStage] is the TypeScript string enum of src/types.ts; its
    constructors keep the source's names and [stage_value] gives the string
    each one carries.  [next_stage] is the state updater that [nextStage]
    passes to [setStage] in src/App.tsx.  [stage_rank] orders the stages
    along the path of the spec; it is not code, only the measure the
    monotonicity theorems use. *)

From S2P Require Import Prelude.
From stdpp Require Import finite.

Inductive ExperienceStage :=
| START
| GIFT_BOX
| OPENING
| WORLD
| FINAL
| CELEBRATION.

#[export] Instance ExperienceStage_eq_dec : EqDecision ExperienceStage.
Proof. solve_decision. Defined.

#[export] Program Instance ExperienceStage_finite : Finite ExperienceStage :=
  {| enum := [START; GIFT_BOX; OPENING; WORLD; FINAL; CELEBRATION] |}.
Next Obligation. apply (bool_decide_unpack _). by vm_compute. Qed.
Next Obligation. intros []; apply list_elem_of_In; simpl; tauto. Qed.

(** The string each enum member holds at run time ([START = 'START'], ...). *)
Definition stage_value (s : ExperienceStage) : string :=
  match s with
  | START => "START"
  | GIFT_BOX => "GIFT_BOX"
  | OPENING => "OPENING"
  | WORLD => "WORLD"
  | FINAL => "FINAL"
  | CELEBRATION => "CELEBRATION"
  end.

(** Reading an enum member back from its string (what a comparison
    [x === ExperienceStage.WORLD] on a string amounts to). *)
Definition stage_of_value (v : string) : option ExperienceStage :=
  head (filter (fun s => stage_value s = v) (enum ExperienceStage)).

(** The updater of [nextStage]: [switch (prev)] with its [default]. *)
Definition next_stage (prev : ExperienceStage) : ExperienceStage :=
  match prev with
  | GIFT_BOX => OPENING
  | OPENING => WORLD
  | WORLD => FINAL
  | _ => prev
  end.

(** Position of a stage along the forward path START .. CELEBRATION. *)
Definition stage_rank (s : ExperienceStage) : nat :=
  match s with
  | START => 0
  | GIFT_BOX => 1
  | OPENING => 2
  | WORLD => 3
  | FINAL => 4
  | CELEBRATION => 5
  end.

Lemma stage_rank_inj s t : stage_rank s = stage_rank t -> s = t.
Proof. destruct s, t; simpl; congruence. Qed.

Lemma next_stage_rank s : stage_rank s <= stage_rank (next_stage s).
Proof. destruct s; simpl; lia. Qed.

#[export] Hint Resolve next_stage_rank : vd.

(** Reduce the stage comparisons [decide (s = t)] between constructors. *)
Ltac decide_stages :=
  repeat match goal with
  | |- context [decide (?a = ?b)] =>
      first [rewrite (decide_True (P := a = b)) by reflexivity
            | rewrite (decide_False (P := a = b)) by discriminate]
  end.

(** C28: the enum's string values read back: [stage_of_value v] finds [s]
    exactly when [s]'s value is [v], so the six values are distinct. *)
Theorem stage_value_roundtrip s v : stage_of_value v = Some s <-> stage_value s = v.
Proof.
  split.
  - unfold stage_of_value. destruct (filter _ _) as [|s' l] eqn:E; simpl; [done|].
    intros [= ->]. assert (s ∈ filter (fun s => stage_value s = v) (enum ExperienceStage)) as Hin
      by (rewrite E; left).
    by apply list_elem_of_filter in Hin as [? _].
  - intros <-. by destruct s.
Qed.
