(* ===== verification/Timers.v ===== *)
(** * The browser timer queue

    The page's timers (setTimeout, setInterval, clearTimeout, clearInterval)
    live in one queue owned by the browser's event loop.  This file models
    that queue, generically in the type [A] of the callbacks, so that the
    components' timers (the App's stage timeouts, the overlay's interval,
    the SoundController's tones) share one queue and interleave in due
    order.  It models the platform, not code of src/.

    - A timer has an id, a due time in ms, an optional period (an
      interval) and its callback.
    - [sched_add] arms a timer [delay] ms after [sc_now] and returns its id.
    - [sched_cancel] removes the timer with that id (a no-op when absent, as
      clearTimeout is).
    - [earliest] picks the timer due first, the earliest armed on ties.
    - [sched_pop] removes that timer, re-arms it one period later when it is
      an interval, and advances the clock to its due time.
    - [sched_wait] lets time pass, but never beyond the next due time.

    [sched_wf] is the queue's invariant: ids are below [sc_next] and
    distinct, and no pending timer is overdue. *)

From S2P Require Import Prelude.

Section Timers.
Context {A : Type}.

Record timer := mk_timer {
  tm_id : nat;
  tm_due : nat;
  tm_period : option nat;
  tm_task : A
}.

Record sched := mk_sched {
  sc_now : nat;
  sc_next : nat;
  sc_pending : list timer
}.

Definition sched_init : sched := mk_sched 0 1 [].

Definition sched_add (delay : nat) (period : option nat) (a : A) (q : sched) : sched * nat :=
  let id := sc_next q in
  (mk_sched (sc_now q) (S id) (sc_pending q ++ [mk_timer id (sc_now q + delay) period a]), id).

Definition sched_cancel (id : nat) (q : sched) : sched :=
  mk_sched (sc_now q) (sc_next q) (filter (fun t => tm_id t <> id) (sc_pending q)).

(** The timer due first; on equal due times the one armed first. *)
Fixpoint earliest (l : list timer) : option timer :=
  match l with
  | [] => None
  | t :: l' =>
      match earliest l' with
      | Some u => if tm_due u <? tm_due t then Some u else Some t
      | None => Some t
      end
  end.

Definition next_due (q : sched) : option nat := tm_due <$> earliest (sc_pending q).

Definition rearm (t : timer) : list timer :=
  match tm_period t with
  | Some p => [mk_timer (tm_id t) (tm_due t + p) (Some p) (tm_task t)]
  | None => []
  end.

Definition sched_pop (q : sched) : option (timer * sched) :=
  match earliest (sc_pending q) with
  | None => None
  | Some t =>
      Some (t, mk_sched (tm_due t) (sc_next q)
                 (filter (fun u => tm_id u <> tm_id t) (sc_pending q) ++ rearm t))
  end.

Definition sched_wait (d : nat) (q : sched) : sched :=
  let target := sc_now q + d in
  let t' := match next_due q with Some due => Nat.min target due | None => target end in
  mk_sched t' (sc_next q) (sc_pending q).

(** ** The queue invariant *)

Definition sched_wf (q : sched) : Prop :=
  NoDup (tm_id <$> sc_pending q) /\
  Forall (fun t => tm_id t < sc_next q /\ sc_now q <= tm_due t) (sc_pending q).

(** ** [earliest] selects a minimal timer of the list *)

Lemma earliest_None l : earliest l = None <-> l = [].
Proof.
  destruct l as [|t l]; simpl; [done|].
  split; [|done]. destruct (earliest l); [case_match|]; done.
Qed.

Lemma earliest_spec l t :
  earliest l = Some t -> t ∈ l /\ Forall (fun u => tm_due t <= tm_due u) l.
Proof.
  revert t. induction l as [|x l IH]; intros t; simpl; [done|].
  destruct (earliest l) as [u|] eqn:Hu.
  - destruct (IH u eq_refl) as [Hin Hmin].
    destruct (Nat.ltb_spec (tm_due u) (tm_due x)); intros [= <-].
    + split; [by right|]. constructor; [lia|done].
    + split; [by left|]. constructor; [done|].
      eapply Forall_impl; [exact Hmin|]. simpl; lia.
  - apply earliest_None in Hu as ->. intros [= <-].
    split; [by left|]. repeat constructor.
Qed.

(** ** Operations preserve the invariant *)

Lemma sched_add_wf delay period a q :
  sched_wf q -> sched_wf (sched_add delay period a q).1.
Proof.
  intros [Hnd Hall]. split; simpl.
  - rewrite fmap_app. apply NoDup_app. split_and!; [done| |by apply NoDup_singleton].
    intros i Hi Hs. simpl in Hs. apply list_elem_of_singleton in Hs as ->.
    apply list_elem_of_fmap in Hi as (t & Heq & Ht).
    eapply Forall_forall in Hall; [|exact Ht]. simpl in Hall. lia.
  - apply Forall_app. split; [|repeat constructor; simpl; lia].
    eapply Forall_impl; [exact Hall|]. simpl; lia.
Qed.

Lemma sched_cancel_wf id q : sched_wf q -> sched_wf (sched_cancel id q).
Proof.
  intros [Hnd Hall]. split; simpl.
  - by apply NoDup_fmap_filter.
  - by apply Forall_filter.
Qed.

Lemma sched_pop_wf q t q' :
  sched_wf q -> sched_pop q = Some (t, q') -> sched_wf q'.
Proof.
  unfold sched_pop. intros [Hnd Hall] Hpop.
  destruct (earliest (sc_pending q)) as [t0|] eqn:He; [|done].
  injection Hpop as -> <-. apply earliest_spec in He as [Hin Hmin].
  pose proof (proj1 (Forall_forall _ _) Hall t Hin) as [Hid _].
  split; simpl.
  - rewrite fmap_app. apply NoDup_app. split_and!.
    + by apply NoDup_fmap_filter.
    + intros i (u & -> & Hu)%list_elem_of_fmap Hr.
      apply list_elem_of_filter in Hu as [Hne _].
      unfold rearm in Hr. destruct (tm_period t); simpl in Hr; [|set_solver].
      apply list_elem_of_singleton in Hr. done.
    + unfold rearm. destruct (tm_period t); simpl; [apply NoDup_singleton|constructor].
  - apply Forall_app. split.
    + apply Forall_filter. eapply Forall_impl; [apply Forall_and; split; [exact Hall|exact Hmin]|].
      simpl. lia.
    + unfold rearm. destruct (tm_period t); repeat constructor; simpl; lia.
Qed.

Lemma sched_wait_wf d q : sched_wf q -> sched_wf (sched_wait d q).
Proof.
  intros [Hnd Hall]. split; [done|]. simpl.
  unfold next_due. destruct (earliest (sc_pending q)) as [t|] eqn:He; simpl;
    [|by apply earliest_None in He as ->].
  apply earliest_spec in He as [_ Hmin].
  eapply Forall_impl; [apply Forall_and; split; [exact Hall|exact Hmin]|]. simpl. lia.
Qed.

Lemma sched_init_wf : sched_wf sched_init.
Proof. split; constructor. Qed.

End Timers.

Arguments timer : clear implicits.
Arguments sched : clear implicits.

#[export] Hint Resolve sched_add_wf sched_cancel_wf sched_wait_wf sched_init_wf : vd.

(** ** The interface components use to arm and clear timers

    A component with callbacks of type [T] sees the page's queue through
    [TimerHost St T]: [setTimeout] and [setInterval] return the new id,
    [clearTimeout] and [clearInterval] (the same operation) remove one. *)
Class TimerHost (St T : Type) := {
  setTimeout : nat -> T -> JS St nat;
  setInterval : nat -> T -> JS St nat;
  clearTimer : nat -> JS St unit
}.

(** ** The timers of one kind

    [timers_with P q]: the pending timers whose callback satisfies [P], in
    arming order.  Components reason about their own timers through it:
    arming or firing a timer of another kind leaves it unchanged. *)
Section TimerKinds.
Context {A : Type} (P : A -> Prop) `{!forall a, Decision (P a)}.

Definition timers_with (q : sched A) : list (timer A) :=
  filter (fun t => P (tm_task t)) (sc_pending q).

Lemma timers_with_add_other d p a q :
  ~ P a -> timers_with (sched_add d p a q).1 = timers_with q.
Proof. intros Ha. unfold timers_with; simpl. by apply filter_app_singleton_false. Qed.

Lemma timers_with_add_same d p a q :
  P a -> timers_with (sched_add d p a q).1 = timers_with q ++ [mk_timer (sc_next q) (sc_now q + d) p a].
Proof. intros Ha. unfold timers_with; simpl. by apply filter_app_singleton_true. Qed.

Lemma timers_with_cancel id q :
  timers_with (sched_cancel id q) = filter (fun t : timer A => tm_id t <> id) (timers_with q).
Proof. unfold timers_with; simpl. apply filter_comm. Qed.

Lemma timers_with_wait d q : timers_with (sched_wait d q) = timers_with q.
Proof. done. Qed.

Lemma sched_pop_spec q t q' :
  sched_pop q = Some (t, q') ->
  t ∈ sc_pending q /\ Forall (fun u => tm_due t <= tm_due u) (sc_pending q) /\
  sc_now q' = tm_due t /\ sc_next q' = sc_next q /\
  sc_pending q' = filter (fun u : timer A => tm_id u <> tm_id t) (sc_pending q) ++ rearm t.
Proof.
  unfold sched_pop. destruct (earliest (sc_pending q)) as [t0|] eqn:He; [|done].
  intros [= -> <-]. apply earliest_spec in He as [??]. by split_and!.
Qed.

Lemma timers_with_pop_other q t q' :
  sched_wf q -> sched_pop q = Some (t, q') -> ~ P (tm_task t) -> timers_with q' = timers_with q.
Proof.
  intros [Hnd _] Hpop Ht. destruct (sched_pop_spec q t q' Hpop) as (Hin & _ & _ & _ & Hq').
  unfold timers_with. rewrite Hq', filter_app.
  assert (filter (fun t0 : timer A => P (tm_task t0)) (rearm t) = []) as ->.
  { unfold rearm. destruct (tm_period t); simpl; [by rewrite filter_cons_False|done]. }
  rewrite app_nil_r, filter_comm. apply filter_Forall_id, Forall_forall.
  intros u (Hu & Hin')%list_elem_of_filter Heq. apply Ht.
  assert (u = t) as -> by (eapply NoDup_fmap_eq; eauto). done.
Qed.

Lemma timers_with_pop_same q t q' :
  sched_pop q = Some (t, q') -> P (tm_task t) ->
  timers_with q' = filter (fun u : timer A => tm_id u <> tm_id t) (timers_with q) ++ rearm t.
Proof.
  intros Hpop Ht. destruct (sched_pop_spec q t q' Hpop) as (_ & _ & _ & _ & Hq').
  unfold timers_with. rewrite Hq', filter_app, filter_comm. f_equal.
  unfold rearm. destruct (tm_period t); simpl; [by rewrite filter_cons_True|done].
Qed.

Lemma timers_with_elem q t : t ∈ sc_pending q -> P (tm_task t) -> t ∈ timers_with q.
Proof. intros Hin Ht. by apply list_elem_of_filter. Qed.

End TimerKinds.
