(* ===== verification/Dom.v ===== *)
(** * Rendered DOM and which click handlers the user can reach

    The overlays of App.tsx and UIOverlay.tsx are DOM trees styled with
    Tailwind classes.  Whether a click reaches a button's [onClick] is a
    matter of CSS, not of React: [pointer-events] is inherited, set by the
    classes [pointer-events-none] and [pointer-events-auto], and [opacity]
    does not affect hit testing.  This file models that part of the
    platform: a tree of elements with class lists and an optional click
    handler, [reachable_handlers] (the handlers whose element receives
    pointer events) and [visible_handlers] (the reachable ones with no
    ancestor at [opacity-0]).  The trees themselves are the components'
    render functions, in Overlay.v and App.v. *)

From S2P Require Import Prelude.

#[local] Set Warnings "-register-all".

Inductive Node (H : Type) :=
| Text (s : string)
| Elem (classes : list string) (onClick : option H) (children : list (Node H)).
Arguments Text {H} s.
Arguments Elem {H} classes onClick children.

Section Dom.
Context {H : Type}.

(** The [pointer-events] value of an element, from its classes and the
    value it inherits. *)
Definition pointer_events (inherited : bool) (classes : list string) : bool :=
  if decide ("pointer-events-none" ∈ classes) then false
  else if decide ("pointer-events-auto" ∈ classes) then true
  else inherited.

Definition handler_list (h : option H) : list H :=
  match h with Some x => [x] | None => [] end.

Fixpoint reachable_handlers (pe : bool) (n : Node H) : list H :=
  match n with
  | Text _ => []
  | Elem cls h ch =>
      let pe' := pointer_events pe cls in
      (if pe' then handler_list h else []) ++
      (fix go (l : list (Node H)) : list H :=
         match l with [] => [] | c :: l' => reachable_handlers pe' c ++ go l' end) ch
  end.

Fixpoint visible_handlers (pe : bool) (n : Node H) : list H :=
  match n with
  | Text _ => []
  | Elem cls h ch =>
      if decide ("opacity-0" ∈ cls) then [] else
      let pe' := pointer_events pe cls in
      (if pe' then handler_list h else []) ++
      (fix go (l : list (Node H)) : list H :=
         match l with [] => [] | c :: l' => visible_handlers pe' c ++ go l' end) ch
  end.

End Dom.
