(* ===== verification/Anim.v ===== *)
(** * Per-frame animation arithmetic

    The 3D components animate with [useFrame] callbacks that run once per
    rendered frame with the seconds elapsed since the previous one
    ([delta]) and the clock's time ([t]).  They move a value towards a
    target with [THREE.MathUtils.lerp(x, y, delta * k)], and read
    [Math.sin] and [Math.PI].  This file holds what those callbacks share:

    - [lerp], three.js's [(1 - t) * x + t * y], on rationals;
    - [math_PI], the double [Math.PI] as the exact rational it is;
    - [sin_ok]: what the proofs assume of [Math.sin] (its values lie in
      [-1, 1]); the function itself is a parameter of each frame;
    - the lemmas on [lerp]: the distance to the target shrinks by the
      factor [1 - t], a factor in [0, 1] never overshoots, one above 1
      does, and [n] frames with the same factor have a closed form.

    Numbers are JavaScript doubles in the source; they are rationals here,
    so rounding is not modelled (the arithmetic of the frames is a handful
    of operations on values of moderate size). *)

From S2P Require Import Prelude.
From Stdlib Require Import QArith Qabs Lqa.
Local Open Scope Q_scope.

(** [THREE.MathUtils.lerp(x, y, t)]. *)
Definition lerp (x y t : Q) : Q := (1 - t) * x + t * y.

(** [Math.PI] is the double closest to pi: 884279719003555 / 2^48. *)
Definition math_PI : Q := 884279719003555 # 281474976710656.

(** What the proofs use of [Math.sin]. *)
Definition sin_ok (sin : Q -> Q) : Prop := forall x, -1 <= sin x <= 1.

(** [n] successive frames with the same factor. *)
Fixpoint lerp_iter (n : nat) (x y t : Q) : Q :=
  match n with O => x | S n' => lerp_iter n' (lerp x y t) y t end.

Fixpoint qpow (q : Q) (n : nat) : Q :=
  match n with O => 1 | S n' => q * qpow q n' end.

Create HintDb anim.

#[export] Instance lerp_proper : Proper (Qeq ==> Qeq ==> Qeq ==> Qeq) lerp.
Proof. intros x x' Hx y y' Hy t t' Ht. unfold lerp. rewrite Hx, Hy, Ht. reflexivity. Qed.

Lemma qpow_eq q q' n : q == q' -> qpow q n == qpow q' n.
Proof.
  intros Hq. induction n as [|n IH]; cbn [qpow]; [reflexivity|].
  rewrite IH. apply Qmult_comp; [exact Hq|reflexivity].
Qed.

#[export] Instance qpow_proper : Proper (Qeq ==> eq ==> Qeq) qpow.
Proof. intros q q' Hq n ? <-. by apply qpow_eq. Qed.

Lemma lerp_sub x y t : lerp x y t - y == (1 - t) * (x - y).
Proof. unfold lerp. ring. Qed.

Lemma lerp_target y t : lerp y y t == y.
Proof. unfold lerp. ring. Qed.

(** A factor in [0, 1] keeps the value between where it was and the
    target. *)
Lemma lerp_between_up x y t : 0 <= t <= 1 -> x <= y -> x <= lerp x y t <= y.
Proof. unfold lerp. intros [H0 H1] Hxy. split; nra. Qed.

Lemma lerp_between_down x y t : 0 <= t <= 1 -> y <= x -> y <= lerp x y t <= x.
Proof. unfold lerp. intros [H0 H1] Hxy. split; nra. Qed.

(** A factor above 1 carries the value past its target. *)
Lemma lerp_overshoot_down x y t : 1 < t -> y < x -> lerp x y t < y.
Proof. unfold lerp. intros Ht Hxy. nra. Qed.

Lemma lerp_overshoot_up x y t : 1 < t -> x < y -> y < lerp x y t.
Proof. unfold lerp. intros Ht Hxy. nra. Qed.

(** Set of values between [lo] and [hi] is closed under any [lerp] towards
    a target inside it. *)
Lemma lerp_interval lo hi x y t :
  0 <= t <= 1 -> lo <= x <= hi -> lo <= y <= hi -> lo <= lerp x y t <= hi.
Proof. unfold lerp. intros [H0 H1] [Hx1 Hx2] [Hy1 Hy2]. split; nra. Qed.

Lemma lerp_iter_closed n x y t : lerp_iter n x y t == y + qpow (1 - t) n * (x - y).
Proof.
  revert x. induction n as [|n IH]; intros x; cbn [lerp_iter qpow]; [ring|].
  rewrite IH. unfold lerp. ring.
Qed.

Lemma sin_ok_abs sin x : sin_ok sin -> 0 <= Qabs (sin x) <= 1.
Proof.
  intros Hs. specialize (Hs x). split; [apply Qabs_nonneg|].
  apply Qabs_Qle_condition. lra.
Qed.

#[export] Hint Resolve lerp_interval : anim.
