(* ===== verification/Sound.v ===== *)
(** * SoundController (src/services/SoundController.ts)

    The singleton keeps one field, [audioContext], created on first use by
    [init] (and resumed when the browser created it suspended).  Every
    public method plays tones through [playTone] or schedules timers whose
    callbacks play them later.  The model keeps:

    - [SoundSt]: the [audioContext] field, the log of tones started on the
      audio graph (the program's audible output), and the number of
      [Math.random] calls made so far;
    - [AudioEnv]: what the browser provides: whether an AudioContext
      constructor exists, whether a new context starts suspended (the
      autoplay policy), and the values [Math.random] returns;
    - [SoundTask]: the callbacks SoundController passes to setTimeout and
      setInterval.

    The operations are written against the interface [SoundHost]: a lens to
    [SoundSt] inside the page state, the environment, the clock and the
    shared timer queue.  [SoundHostLaws] states what the page promises
    (the lens laws, and that arming a timer leaves the audio state alone);
    the theorems of this file are proved from those laws only, and App.v
    discharges them for the whole page.

    Tone times are page-clock milliseconds; the audio clock
    ([currentTime]) only shifts them by a constant and is not modelled. *)

From S2P Require Import Prelude.
From Stdlib Require Import QArith Qround Lqa.
Local Close Scope Q_scope.
Local Open Scope js_scope.

(** ** Data *)

(** The DOM's [OscillatorType]. *)
Inductive OscillatorType := sine | square | sawtooth | triangle | custom.

(** The DOM's [AudioContextState]. *)
Inductive AudioContextState := suspended | running | closed.

#[export] Instance AudioContextState_eq_dec : EqDecision AudioContextState.
Proof. solve_decision. Defined.

Record AudioContext := mk_ctx { ctx_state : AudioContextState }.

(** One [playTone] call that reached [osc.start()]: frequency, waveform,
    duration and peak volume, and the page time it started. *)
Record Tone := mk_tone {
  tone_freq : Q;
  tone_type : OscillatorType;
  tone_duration : Q;
  tone_volume : Q;
  tone_at : nat
}.

Record SoundSt := mk_sound {
  audioContext : option AudioContext;
  tones : list Tone;
  random_calls : nat
}.

Definition sound_init : SoundSt := mk_sound None [] 0.

Record AudioEnv := mk_env {
  has_AudioContext : bool;
  starts_suspended : bool;
  math_random : nat -> Q
}.

(** The callbacks SoundController arms. *)
Inductive SoundTask :=
| SparkleTone (freq : Q)   (* playSparkle: () => this.playTone(t, 'sine', 0.5, 0.02) *)
| PianoNote                (* playBackground: the 2000 ms piano interval *)
| Heartbeat                (* playBackground: the 3000 ms heartbeat interval *)
| HeartbeatEcho.           (* the 150 ms second beat the heartbeat arms *)

(** ** The interface the page provides to SoundController *)

Class SoundHost (S : Type) := {
  sound_of : S -> SoundSt;
  set_sound : SoundSt -> S -> S;
  audio_env : S -> AudioEnv;
  host_now : S -> nat;
  host_set_timer : nat -> option nat -> SoundTask -> S -> S
}.

Class SoundHostLaws (S : Type) `{SoundHost S} := {
  sound_of_set x s : sound_of (set_sound x s) = x;
  set_sound_set_sound x y s : set_sound x (set_sound y s) = set_sound x s;
  audio_env_set x s : audio_env (set_sound x s) = audio_env s;
  host_now_set x s : host_now (set_sound x s) = host_now s;
  sound_of_timer d p t s : sound_of (host_set_timer d p t s) = sound_of s;
  audio_env_timer d p t s : audio_env (host_set_timer d p t s) = audio_env s
}.

Section SoundController.
Context {St : Type} `{SoundHost St}.

Definition update_sound (f : SoundSt -> SoundSt) : JS St unit :=
  js_modify (fun s => set_sound (f (sound_of s)) s).

Definition set_audioContext (c : option AudioContext) (st : SoundSt) : SoundSt :=
  mk_sound c (tones st) (random_calls st).

(** [new (window.AudioContext || window.webkitAudioContext)()]: throws a
    TypeError when neither constructor exists. *)
Definition new_AudioContext : JS St AudioContext :=
  fun s =>
    let env := audio_env s in
    if has_AudioContext env
    then (s, Ok (mk_ctx (if starts_suspended env then suspended else running)))
    else (s, Throw (TypeError "window.AudioContext is not a constructor")).

(** [private init()] *)
Definition init : JS St unit :=
  (s <- js_get ;;
   match audioContext (sound_of s) with
   | Some _ => js_ret tt
   | None => c <- new_AudioContext ;; update_sound (set_audioContext (Some c))
   end) ;;
  s <- js_get ;;
  match audioContext (sound_of s) with
  | Some c =>
      if decide (ctx_state c = suspended)
      then update_sound (set_audioContext (Some (mk_ctx running)))   (* resume() *)
      else js_ret tt
  | None => js_throw (TypeError "Cannot read properties of null (reading 'state')")
  end.

Definition log_tone (t : Tone) (st : SoundSt) : SoundSt :=
  mk_sound (audioContext st) (tones st ++ [t]) (random_calls st).

(** [private playTone(freq, type, duration, volume)].  [freq] is a JS
    number or [undefined] ([None]); [setValueAtTime] throws a TypeError
    on a non-finite value. *)
Definition playTone (freq : option Q) (type : OscillatorType) (duration volume : Q) : JS St unit :=
  init ;;
  s <- js_get ;;
  match audioContext (sound_of s) with
  | None => js_ret tt
  | Some _ =>
      match freq with
      | None => js_throw (TypeError "AudioParam.setValueAtTime: value is not finite")
      | Some f => update_sound (log_tone (mk_tone f type duration volume (host_now s)))
      end
  end.

Definition playPop : JS St unit :=
  playTone (Some 400%Q) sine (2#10) (1#10) ;;
  playTone (Some 600%Q) sine (1#10) (5#100).

Definition playBoop : JS St unit :=
  playTone (Some 880%Q) sine (15#100) (5#100).

Definition sparkle_tones : list Q := [1200%Q; 1500%Q; 1800%Q; 2200%Q].

Definition set_timer (delay : nat) (period : option nat) (t : SoundTask) : JS St unit :=
  js_modify (host_set_timer delay period t).

(** [tones.forEach((t, i) => setTimeout(..., i * 100))] *)
Fixpoint schedule_sparkles (i : nat) (ts : list Q) : JS St unit :=
  match ts with
  | [] => js_ret tt
  | t :: ts' => set_timer (i * 100) None (SparkleTone t) ;; schedule_sparkles (S i) ts'
  end.

Definition playSparkle : JS St unit := schedule_sparkles 0 sparkle_tones.

(** [public playBackground()]: two intervals that nothing ever clears. *)
Definition playBackground : JS St unit :=
  init ;;
  set_timer 2000 (Some 2000) PianoNote ;;
  set_timer 3000 (Some 3000) Heartbeat.

Definition pianoNotes : list Q := [(26163#100)%Q; (32963#100)%Q; 392%Q; (49388#100)%Q].

(** [Math.random()]: the next value of the environment's sequence. *)
Definition math_random_call : JS St Q :=
  fun s =>
    let st := sound_of s in
    (set_sound (mk_sound (audioContext st) (tones st) (S (random_calls st))) s,
     Ok (math_random (audio_env s) (random_calls st))).

(** Reading [arr[i]] for an integer [i]: [undefined] out of range. *)
Definition array_get (l : list Q) (i : Z) : option Q :=
  if decide (0 <= i)%Z then l !! Z.to_nat i else None.

Definition piano_index (r : Q) : Z := Qfloor (r * inject_Z (Z.of_nat (length pianoNotes))).

(** The callbacks of the timers SoundController arms. *)
Definition run_sound_task (t : SoundTask) : JS St unit :=
  match t with
  | SparkleTone f => playTone (Some f) sine (1#2) (2#100)
  | PianoNote =>
      r <- math_random_call ;;
      playTone (array_get pianoNotes (piano_index r)) sine 3%Q (2#100)
  | Heartbeat =>
      playTone (Some 60%Q) sine (1#10) (3#100) ;;
      set_timer 150 None HeartbeatEcho
  | HeartbeatEcho => playTone (Some 50%Q) sine (1#10) (2#100)
  end.

End SoundController.

(** ** Properties, from the host laws only *)

(** A tone's gain envelope is well formed when the linear attack (to the
    peak at +0.05 s) ends before the exponential decay (to 0.001 at
    +duration), and the decay really goes down: the peak exceeds 0.001. *)
Definition tone_envelope_ok (t : Tone) : Prop :=
  (5#100 < tone_duration t)%Q /\ (1#1000 < tone_volume t)%Q.

Definition tones_ok (st : SoundSt) : Prop := Forall tone_envelope_ok (tones st).

Section SoundProofs.
Context {St : Type} `{SoundHostLaws St}.

Definition sound_inv (s : St) : Prop := tones_ok (sound_of s).

Lemma update_sound_preserves (f : SoundSt -> SoundSt) :
  (forall st, tones_ok st -> tones_ok (f st)) -> js_preserves sound_inv (update_sound f).
Proof. intros Hf s Hs. unfold sound_inv; simpl. rewrite sound_of_set. by apply Hf. Qed.

Lemma set_audioContext_ok c : forall st, tones_ok st -> tones_ok (set_audioContext c st).
Proof. done. Qed.

Lemma set_timer_preserves d p t : js_preserves sound_inv (set_timer d p t).
Proof. intros s Hs. unfold sound_inv; simpl. by rewrite sound_of_timer. Qed.

Lemma js_get_preserves {A} (P : St -> Prop) (k : St -> JS St A) :
  (forall s, P s -> js_preserves P (k s)) -> js_preserves P (js_bind js_get k).
Proof. intros Hk s Hs. by apply Hk. Qed.

Lemma init_preserves : js_preserves sound_inv init.
Proof.
  unfold init. apply js_preserves_bind.
  - apply js_get_preserves; intros s _. destruct (audioContext (sound_of s)).
    + apply js_preserves_ret.
    + apply js_preserves_bind; [intros s' Hs'; unfold new_AudioContext; by case_match|].
      intros c; apply update_sound_preserves, set_audioContext_ok.
  - intros _; apply js_get_preserves; intros s _. destruct (audioContext (sound_of s)).
    + case_decide; [apply update_sound_preserves, set_audioContext_ok | apply js_preserves_ret].
    + apply js_preserves_throw.
Qed.

Lemma playTone_preserves f ty d v :
  tone_envelope_ok (mk_tone 0 ty d v 0) -> js_preserves sound_inv (playTone f ty d v).
Proof.
  intros [Hd Hv]. unfold playTone. apply js_preserves_bind; [apply init_preserves|intros _].
  apply js_get_preserves; intros s _. destruct (audioContext (sound_of s)); [|apply js_preserves_ret].
  destruct f as [f|]; [|apply js_preserves_throw].
  apply update_sound_preserves. intros st Hst. apply Forall_app. split; [done|].
  repeat constructor; done.
Qed.

Lemma schedule_sparkles_preserves i ts : js_preserves sound_inv (schedule_sparkles i ts).
Proof.
  revert i. induction ts as [|t ts IH]; intros i; simpl; [apply js_preserves_ret|].
  apply js_preserves_bind; [apply set_timer_preserves|intros _; apply IH].
Qed.

Lemma math_random_call_preserves : js_preserves sound_inv math_random_call.
Proof. intros s Hs. unfold sound_inv; simpl. by rewrite sound_of_set. Qed.

End SoundProofs.

#[export] Hint Resolve update_sound_preserves set_timer_preserves init_preserves
  schedule_sparkles_preserves math_random_call_preserves : vd.

(** Proves [tone_envelope_ok] of a tone with constant parameters. *)
Ltac envelope_const := split; simpl; lra.

#[export] Hint Extern 2 (js_preserves sound_inv (playTone _ _ _ _)) =>
  apply playTone_preserves; envelope_const : vd.

Section SoundSpecs.
Context {St : Type} `{SoundHostLaws St}.

(** [init] can run: a context exists and is not closed, or none exists
    and the browser has the constructor. *)
Definition init_can_run (s : St) : Prop :=
  match audioContext (sound_of s) with
  | Some c => ctx_state c <> closed
  | None => has_AudioContext (audio_env s) = true
  end.

Definition sound_with_ctx (c : AudioContext) (s : St) : St :=
  set_sound (set_audioContext (Some c) (sound_of s)) s.

Lemma init_result s :
  init_can_run s ->
  init s = (sound_with_ctx (mk_ctx running) s, Ok tt) \/
  (audioContext (sound_of s) = Some (mk_ctx running) /\ init s = (s, Ok tt)).
Proof.
  unfold init_can_run, init, js_bind, js_get, js_ret, update_sound, js_modify,
    new_AudioContext, sound_with_ctx.
  destruct (audioContext (sound_of s)) as [[[]]|] eqn:Hc; intros Hrun; cbn.
  - rewrite Hc. cbn. by left.
  - rewrite Hc. cbn. by right.
  - done.
  - rewrite Hrun. cbn. rewrite sound_of_set. cbn.
    destruct (starts_suspended (audio_env s)); cbn; left; case_decide; try done.
    cbn. by rewrite sound_of_set, set_sound_set_sound.
Qed.

Lemma init_can_run_after s :
  init_can_run s -> audioContext (sound_of (fst (init s))) = Some (mk_ctx running) /\
                    tones (sound_of (fst (init s))) = tones (sound_of s) /\
                    host_now (fst (init s)) = host_now s /\ snd (init s) = Ok tt.
Proof.
  intros Hrun. unfold sound_with_ctx in *.
  destruct (init_result s Hrun) as [-> | [Hc ->]]; unfold sound_with_ctx; cbn;
    rewrite ?sound_of_set, ?host_now_set; cbn; split_and!; done.
Qed.

Lemma playTone_result s f ty d v :
  init_can_run s ->
  snd (playTone (Some f) ty d v s) = Ok tt /\
  tones (sound_of (fst (playTone (Some f) ty d v s))) =
    tones (sound_of s) ++ [mk_tone f ty d v (host_now s)] /\
  audioContext (sound_of (fst (playTone (Some f) ty d v s))) = Some (mk_ctx running).
Proof.
  intros Hrun. destruct (init_can_run_after s Hrun) as (Hc & Ht & Hn & Hok).
  unfold playTone. destruct (init s) as [s1 r1] eqn:Hi. cbn in *. subst r1.
  rewrite (js_bind_ok _ _ _ s1 tt); [|done]. cbn. rewrite Hc. cbn.
  rewrite sound_of_set. cbn. by rewrite Ht, Hn.
Qed.

Lemma init_no_constructor s :
  audioContext (sound_of s) = None -> has_AudioContext (audio_env s) = false ->
  init s = (s, Throw (TypeError "window.AudioContext is not a constructor")).
Proof. intros Hc Ha. unfold init, js_bind, js_get, new_AudioContext. cbn. by rewrite Hc, Ha. Qed.

End SoundSpecs.

(** ** The audio context is never closed, and exists only if the browser
    has the constructor *)

Section SoundCtx.
Context {St : Type} `{SoundHostLaws St}.

Definition ctx_ok (s : St) : Prop :=
  match audioContext (sound_of s) with
  | None => True
  | Some c => has_AudioContext (audio_env s) = true /\ ctx_state c <> closed
  end.

Lemma ctx_ok_init_can_run s :
  ctx_ok s -> has_AudioContext (audio_env s) = true -> init_can_run s.
Proof. unfold ctx_ok, init_can_run. destruct (audioContext (sound_of s)); tauto. Qed.

Lemma update_sound_ctx (f : SoundSt -> SoundSt) :
  (forall st, audioContext (f st) = audioContext st) -> js_preserves ctx_ok (update_sound f).
Proof. intros Hf s. unfold ctx_ok. simpl. by rewrite sound_of_set, audio_env_set, Hf. Qed.

Lemma set_timer_ctx d p t : js_preserves ctx_ok (set_timer d p t).
Proof. intros s. unfold ctx_ok. simpl. by rewrite sound_of_timer, audio_env_timer. Qed.

Lemma math_random_call_ctx : js_preserves ctx_ok math_random_call.
Proof. intros s. unfold ctx_ok. simpl. by rewrite sound_of_set, audio_env_set. Qed.

Lemma init_ctx : js_preserves ctx_ok init.
Proof.
  intros s Hs. destruct (has_AudioContext (audio_env s)) eqn:Ha.
  - destruct (init_result s (ctx_ok_init_can_run s Hs Ha)) as [-> | [_ ->]]; [|done].
    unfold ctx_ok, sound_with_ctx. simpl. by rewrite sound_of_set, audio_env_set.
  - unfold ctx_ok in Hs. destruct (audioContext (sound_of s)) eqn:Hc; [destruct Hs; congruence|].
    rewrite init_no_constructor by done. unfold ctx_ok. simpl. by rewrite Hc.
Qed.

#[local] Hint Resolve update_sound_ctx set_timer_ctx math_random_call_ctx init_ctx : vd.

Lemma playTone_ctx f ty d v : js_preserves ctx_ok (playTone f ty d v).
Proof. unfold playTone. js_preserve. Qed.

#[local] Hint Resolve playTone_ctx : vd.

Lemma schedule_sparkles_ctx i ts : js_preserves ctx_ok (schedule_sparkles i ts).
Proof. revert i. induction ts; intros i; simpl; js_preserve. Qed.

#[local] Hint Resolve schedule_sparkles_ctx : vd.

(** Every SoundController operation keeps [ctx_ok]. *)
Lemma sound_ops_ctx :
  js_preserves ctx_ok playPop /\ js_preserves ctx_ok playBoop /\
  js_preserves ctx_ok playSparkle /\ js_preserves ctx_ok playBackground /\
  (forall t, js_preserves ctx_ok (run_sound_task t)).
Proof.
  split_and!; [unfold playPop|unfold playBoop|unfold playSparkle|unfold playBackground|
               intros []; unfold run_sound_task]; js_preserve.
Qed.

Lemma playTone_can_run s f ty d v :
  init_can_run s -> exists s', playTone (Some f) ty d v s = (s', Ok tt) /\ init_can_run s'.
Proof.
  intros Hrun. destruct (playTone_result s f ty d v Hrun) as (Hok & _ & Hc).
  exists (fst (playTone (Some f) ty d v s)). split; [by rewrite <- Hok, <- surjective_pairing|].
  unfold init_can_run. by rewrite Hc.
Qed.

Lemma playPop_can_run s : init_can_run s -> exists s', playPop s = (s', Ok tt) /\ init_can_run s'.
Proof.
  intros Hrun. destruct (playTone_can_run s 400 sine (2#10) (1#10) Hrun) as (s1 & E1 & H1).
  unfold playPop. rewrite (js_bind_ok _ _ _ _ _ E1). by apply playTone_can_run.
Qed.

Lemma playTone_no_constructor s f ty d v :
  audioContext (sound_of s) = None -> has_AudioContext (audio_env s) = false ->
  playTone f ty d v s = (s, Throw (TypeError "window.AudioContext is not a constructor")).
Proof. intros Hc Ha. unfold playTone. apply js_bind_throw. by apply init_no_constructor. Qed.

Lemma playPop_no_constructor s :
  audioContext (sound_of s) = None -> has_AudioContext (audio_env s) = false ->
  playPop s = (s, Throw (TypeError "window.AudioContext is not a constructor")).
Proof. intros Hc Ha. unfold playPop. apply js_bind_throw. by apply playTone_no_constructor. Qed.

Lemma schedule_sparkles_ok i ts s : snd (schedule_sparkles i ts s) = Ok tt.
Proof. revert i s. induction ts as [|t ts IH]; intros i s; [done|]. apply IH. Qed.

End SoundCtx.

#[export] Hint Resolve update_sound_ctx set_timer_ctx math_random_call_ctx init_ctx playTone_ctx
  schedule_sparkles_ctx : vd.

Lemma piano_index_bounds r : (0 <= r < 1)%Q -> (0 <= piano_index r < 4)%Z.
Proof.
  intros [H0 H1]. unfold piano_index.
  change (inject_Z (Z.of_nat (length pianoNotes))) with 4%Q.
  pose proof (Qfloor_le (r * 4)) as Hle.
  pose proof (Qlt_floor (r * 4)) as Hlt. rewrite inject_Z_plus in Hlt.
  set (z := Qfloor (r * 4)) in *. change (inject_Z 1) with 1%Q in Hlt.
  assert (inject_Z (-1) < inject_Z z)%Q as Hlo by (change (inject_Z (-1)) with (-1)%Q; lra).
  assert (inject_Z z < inject_Z 4)%Q as Hhi by (change (inject_Z 4) with 4%Q; lra).
  rewrite <- Zlt_Qlt in Hlo, Hhi. lia.
Qed.

Lemma array_get_in_range (l : list Q) (i : Z) :
  (0 <= i < Z.of_nat (length l))%Z -> exists f, array_get l i = Some f /\ f ∈ l.
Proof.
  intros Hi. unfold array_get. rewrite decide_True by lia.
  destruct (lookup_lt_is_Some_2 l (Z.to_nat i)) as [f Hf]; [lia|].
  exists f. split; [done|]. by eapply list_elem_of_lookup_2.
Qed.

Section SoundTheorems.
Context {St : Type} `{SoundHostLaws St}.

(** C23: every public method of SoundController and every callback it
    arms keeps the envelope of every tone started well formed: the
    linear attack ends before the exponential decay, and the decay goes
    down from a peak above its 0.001 floor. *)
Theorem sound_envelopes_preserved :
  js_preserves sound_inv playPop /\ js_preserves sound_inv playBoop /\
  js_preserves sound_inv playSparkle /\ js_preserves sound_inv playBackground /\
  (forall t, js_preserves sound_inv (run_sound_task t)).
Proof.
  split_and!.
  - unfold playPop. js_preserve.
  - unfold playBoop. js_preserve.
  - unfold playSparkle. js_preserve.
  - unfold playBackground. js_preserve.
  - intros []; unfold run_sound_task; js_preserve.
Qed.

Lemma math_random_call_result s :
  math_random_call s =
    (set_sound (mk_sound (audioContext (sound_of s)) (tones (sound_of s)) (S (random_calls (sound_of s)))) s,
     Ok (math_random (audio_env s) (random_calls (sound_of s)))).
Proof. reflexivity. Qed.

(** C24: the piano interval's callback always plays one of the four notes
    when [Math.random()] returns a value in [0,1): the index
    [Math.floor(Math.random() * pianoNotes.length)] is in range, so the
    frequency is never [undefined]. *)
Theorem piano_note_plays s :
  init_can_run s ->
  (0 <= math_random (audio_env s) (random_calls (sound_of s)) < 1)%Q ->
  snd (run_sound_task PianoNote s) = Ok tt /\
  exists f, f ∈ pianoNotes /\
    tones (sound_of (fst (run_sound_task PianoNote s))) =
      tones (sound_of s) ++ [mk_tone f sine 3 (2#100) (host_now s)].
Proof.
  intros Hrun Hr. simpl. rewrite (js_bind_ok _ _ _ _ _ (math_random_call_result s)).
  set (s1 := set_sound _ s).
  destruct (array_get_in_range pianoNotes (piano_index (math_random (audio_env s) (random_calls (sound_of s)))))
    as (f & Hf & Hin); [pose proof (piano_index_bounds _ Hr); simpl; lia|].
  rewrite Hf.
  assert (init_can_run s1) as Hrun1.
  { unfold init_can_run in *. subst s1. by rewrite sound_of_set, audio_env_set. }
  destruct (playTone_result s1 f sine 3%Q (2#100) Hrun1) as (Hok & Ht & _).
  split; [done|]. exists f. split; [done|].
  rewrite Ht. subst s1. by rewrite sound_of_set, host_now_set.
Qed.

End SoundTheorems.
