(* ===== verification/GiftBox.v ===== *)
(** * The gift box component (src/components/GiftBox.tsx)

    A [GiftBox] instance receives the props [onClick] (optional) and
    [isOpen] (default [false]) and owns the hook [hovered].  Its handlers
    are written against the page state through the setter [setHovered]
    that the instance's [useState] provides, and against [SoundHost] for
    the sounds.  The guard of [handleClick] is the source's
    [if (onClick && !isOpen)]: the sounds are played before [onClick()] is
    called, so an exception thrown by the audio code skips [onClick].

    The render-time values the page reads ([scale], the "Click to Open"
    label) are [giftbox_scale] and [giftbox_label_shown].  The lid's
    [useFrame] animation is [lid_frame]: while [isOpen], the lid's height,
    tilt and scale move towards 4, [-Math.PI / 2] and 0 by
    [lerp(..., delta * 3)]. *)

From S2P Require Import Prelude Anim Sound.
From Stdlib Require Import QArith Lqa.
Local Close Scope Q_scope.
Local Open Scope js_scope.

Record GiftBoxProps (St : Type) := mk_giftbox_props {
  onClick : option (JS St unit);
  isOpen : bool
}.
Arguments mk_giftbox_props {St} onClick isOpen.
Arguments onClick {St} _.
Arguments isOpen {St} _.

Section GiftBox.
Context {St : Type} `{SoundHost St}.
Variable setHovered : bool -> JS St unit.

(** [handleClick]: [e.stopPropagation()] has no effect on the model. *)
Definition handleClick (props : GiftBoxProps St) : JS St unit :=
  match onClick props with
  | Some cb =>
      if negb (isOpen props)
      then playPop ;; playSparkle ;; cb
      else js_ret tt
  | None => js_ret tt
  end.

Definition handlePointerOver (props : GiftBoxProps St) : JS St unit :=
  if negb (isOpen props) then setHovered true ;; playBoop else js_ret tt.

Definition handlePointerOut : JS St unit := setHovered false.

End GiftBox.

(** [scale={hovered ? 1.1 : 1}] *)
Definition giftbox_scale (hovered : bool) : Q := if hovered then (11#10)%Q else 1%Q.

(** [{!isOpen && <Text>Click to Open ...</Text>}] *)
Definition giftbox_label_shown {St} (props : GiftBoxProps St) : bool := negb (isOpen props).

(** ** The lid's animation *)

(** The lid group's height, rotation about x and (uniform) scale, as the
    JSX sets them at mount: [position={[0, 1.05, 0]}], no rotation, unit
    scale. *)
Record Lid := mk_lid { lid_y : Q; lid_rot_x : Q; lid_scale : Q }.

Definition lid_init : Lid := mk_lid (105#100) 0 1.

(** The [useFrame] callback; [None] is a lid ref not yet attached. *)
Definition lid_frame (isOpen : bool) (delta : Q) (lid : option Lid) : option Lid :=
  match lid with
  | None => None
  | Some l =>
      Some (if isOpen
            then mk_lid (lerp (lid_y l) 4 (delta * 3)) (lerp (lid_rot_x l) (- math_PI / 2) (delta * 3))
                   (lerp (lid_scale l) 0 (delta * 3))
            else l)
  end.

(** Frames with the given [delta]s, in order. *)
Definition lid_frames (isOpen : bool) (deltas : list Q) (lid : option Lid) : option Lid :=
  fold_left (fun l d => lid_frame isOpen d l) deltas lid.

(** The lid while opening stays between its closed pose and its open
    pose. *)
Definition lid_in_range (l : Lid) : Prop :=
  (105#100 <= lid_y l <= 4)%Q /\ (- math_PI / 2 <= lid_rot_x l <= 0)%Q /\ (0 <= lid_scale l <= 1)%Q.

Lemma lid_frames_cons isOpen d ds l :
  lid_frames isOpen (d :: ds) l = lid_frames isOpen ds (lid_frame isOpen d l).
Proof. reflexivity. Qed.

Lemma lid_frames_none isOpen ds : lid_frames isOpen ds None = None.
Proof. induction ds as [|d ds IH]; [done|]. by rewrite lid_frames_cons. Qed.

Lemma lid_frame_range isOpen d l :
  (0 <= d * 3 <= 1)%Q -> lid_in_range l ->
  exists l', lid_frame isOpen d (Some l) = Some l' /\ lid_in_range l'.
Proof.
  intros Hd (Hy & Hr & Hs). eexists. split; [reflexivity|].
  destruct isOpen; [|done].
  assert (0 < math_PI)%Q by (unfold math_PI; lra).
  unfold lid_in_range; cbn [lid_y lid_rot_x lid_scale].
  refine (conj _ (conj _ _)); apply lerp_interval; (done || lra).
Qed.

(** C20: while the lid opens with frames of at most a third of a second
    ([delta * 3 <= 1]), it stays between its closed and open poses: its
    height in [1.05, 4], its tilt in [-Math.PI / 2, 0], its scale in
    [0, 1]. *)
Theorem lid_stays_in_range isOpen deltas :
  Forall (fun d => 0 <= d * 3 <= 1)%Q deltas ->
  exists l, lid_frames isOpen deltas (Some lid_init) = Some l /\ lid_in_range l.
Proof.
  intros Hds. assert (lid_in_range lid_init) as Hinit.
  { unfold lid_in_range, lid_init, math_PI; cbn [lid_y lid_rot_x lid_scale]. repeat split; apply Qle_bool_imp_le; reflexivity. }
  revert Hinit. generalize lid_init.
  induction Hds as [|d ds Hd Hds IH]; intros l Hl; [by exists l|].
  rewrite lid_frames_cons. destruct (lid_frame_range isOpen d l Hd Hl) as (l' & -> & Hl').
  by apply IH.
Qed.

Lemma lid_stays_in_range_witness :
  exists l, lid_frames true [1#60; 1#60; 1#30]%Q (Some lid_init) = Some l /\ lid_in_range l.
Proof. apply lid_stays_in_range. repeat constructor; apply Qle_bool_imp_le; reflexivity. Defined.

(** C21: the factor [delta * 3] is not clamped: one frame of the opening
    lid turns a lid of positive scale into a mirrored one (negative
    scale) exactly when [delta * 3 > 1], that is for every frame longer
    than a third of a second, from any pose. *)
Theorem lid_negative_scale l d :
  (0 < lid_scale l)%Q ->
  match lid_frame true d (Some l) with
  | Some l' => (lid_scale l' < 0 <-> 1 < d * 3)%Q
  | None => False
  end.
Proof. intros Hs. cbn [lid_frame lid_scale]. unfold lerp. split; intros; nra. Qed.

Lemma lid_negative_scale_witness :
  (0 < lid_scale lid_init)%Q /\
  match lid_frame true (1#2) (Some lid_init) with
  | Some l' => (lid_scale l' < 0 <-> 1 < (1#2) * 3)%Q
  | None => False
  end.
Proof. split; [reflexivity|]. apply lid_negative_scale. reflexivity. Defined.

(** C22: [n] frames of the same length [d] are [n] independent iterations
    of [lerp] on the three components, with the closed form
    [target + (1 - 3 d)^n * (start - target)]. *)
Theorem lid_frames_closed_form n d l :
  lid_frames true (repeat d n) (Some l) =
    Some (mk_lid (lerp_iter n (lid_y l) 4 (d * 3)) (lerp_iter n (lid_rot_x l) (- math_PI / 2) (d * 3))
            (lerp_iter n (lid_scale l) 0 (d * 3))) /\
  (lerp_iter n (lid_scale l) 0 (d * 3) == qpow (1 - d * 3) n * lid_scale l)%Q /\
  (lerp_iter n (lid_y l) 4 (d * 3) == 4 + qpow (1 - d * 3) n * (lid_y l - 4))%Q.
Proof.
  split; [|split; rewrite lerp_iter_closed; ring].
  revert l. induction n as [|n IH]; intros l; [by destruct l|].
  cbn [repeat]. rewrite lid_frames_cons. cbn [lid_frame]. rewrite IH. reflexivity.
Qed.
