(* ===== verification/GiftBoxMesh.v ===== *)
(** * The gift box's meshes (src/components/GiftBox.tsx, lines 49-89)

    The box is a [RoundedBox] body, two "Ribbon Around Box" boxes, and the
    lid group: a [RoundedBox] lid and two "Lid Ribbon" boxes (the two
    torus bows are not boxes and are left out).  Each box mesh is its
    [args] (width, height, depth), its [position] and whether it carries
    [rotation={[0, Math.PI / 2, 0]}]; its solid is the eight corners of
    the box, turned a quarter turn about y when rotated, then moved to its
    position.  A quarter turn is exact here; the double [Math.PI / 2] is
    off by 6e-17 rad, which moves a corner by less than 1e-16.

    The theorem: the second body ribbon is the first one again.  A
    2.05 x 0.3 x 2.05 slab is square in plan, so the quarter turn maps it
    onto itself and both meshes are the same horizontal band; the box has
    no vertical ribbon.  The lid's two ribbons, 2.25 x 0.05 x 0.3, do
    form a cross.  Every ribbon sticks out of what it wraps (no face of a
    ribbon lies in a face of the box or the lid). *)

From S2P Require Import Prelude.
From Stdlib Require Import QArith Qminmax Lqa.
Local Open Scope Q_scope.

Record Vec3 := vec3 { x3 : Q; y3 : Q; z3 : Q }.

(** A [boxGeometry] (or [RoundedBox]) mesh: [args], [position] and a
    quarter turn about y. *)
Record BoxMesh := mk_box { bm_args : Vec3; bm_pos : Vec3; bm_quarter_y : bool }.

(** [<RoundedBox args={[2, 2, 2]} radius={0.1} ...>] *)
Definition box_body : BoxMesh := mk_box (vec3 2 2 2) (vec3 0 0 0) false.

(** The two "Ribbon Around Box" meshes. *)
Definition box_ribbon1 : BoxMesh := mk_box (vec3 (205#100) (3#10) (205#100)) (vec3 0 0 0) false.
Definition box_ribbon2 : BoxMesh := mk_box (vec3 (205#100) (3#10) (205#100)) (vec3 0 0 0) true.

(** The lid, in the lid group's frame (the group sits at y = 1.05). *)
Definition lid_box : BoxMesh := mk_box (vec3 (22#10) (4#10) (22#10)) (vec3 0 0 0) false.
Definition lid_ribbon1 : BoxMesh := mk_box (vec3 (225#100) (5#100) (3#10)) (vec3 0 (21#100) 0) false.
Definition lid_ribbon2 : BoxMesh := mk_box (vec3 (225#100) (5#100) (3#10)) (vec3 0 (21#100) 0) true.

(** The corners of a box of size [a] centred at the origin. *)
Definition corners (a : Vec3) : list Vec3 :=
  let hx := x3 a * (1#2) in let hy := y3 a * (1#2) in let hz := z3 a * (1#2) in
  sx ← [hx; - hx]; sy ← [hy; - hy]; sz ← [hz; - hz]; [vec3 sx sy sz].

(** three.js's rotation by pi/2 about y: (x, y, z) to (z, y, -x). *)
Definition quarter_y (v : Vec3) : Vec3 := vec3 (z3 v) (y3 v) (- x3 v).

Definition translate (p v : Vec3) : Vec3 := vec3 (x3 p + x3 v) (y3 p + y3 v) (z3 p + z3 v).

Definition solid (m : BoxMesh) : list Vec3 :=
  (fun v => translate (bm_pos m) (if bm_quarter_y m then quarter_y v else v)) <$> corners (bm_args m).

Definition veq (u v : Vec3) : Prop := x3 u == x3 v /\ y3 u == y3 v /\ z3 u == z3 v.

Definition veqb (u v : Vec3) : bool := Qeq_bool (x3 u) (x3 v) && Qeq_bool (y3 u) (y3 v) && Qeq_bool (z3 u) (z3 v).

(** [v] is a corner of the solid [l]. *)
Definition on_solid (l : list Vec3) (v : Vec3) : Prop := Exists (veq v) l.

(** Same corners, up to order and to the representation of rationals. *)
Definition same_solid (l1 l2 : list Vec3) : bool :=
  forallb (fun u => existsb (veqb u) l2) l1 && forallb (fun v => existsb (veqb v) l1) l2.

(** The extent of a solid along one axis. *)
Definition lo_hi (f : Vec3 -> Q) (l : list Vec3) : Q * Q :=
  match l with
  | [] => (0, 0)
  | v :: l => foldr (fun u '(lo, hi) => (Qmin lo (f u), Qmax hi (f u))) (f v, f v) l
  end.

(** ** Reflection *)

Lemma veqb_spec u v : veqb u v = true <-> veq u v.
Proof. unfold veqb, veq. rewrite !andb_true_iff, !Qeq_bool_iff. tauto. Qed.

Lemma veq_trans u v w : veq u v -> veq v w -> veq u w.
Proof. intros (?&?&?) (?&?&?). split_and!; etrans; eauto. Qed.

Lemma veq_sym u v : veq u v -> veq v u.
Proof. intros (?&?&?). split_and!; by symmetry. Qed.

Lemma on_solid_b l v : on_solid l v <-> existsb (veqb v) l = true.
Proof.
  unfold on_solid. rewrite existsb_exists, Exists_exists.
  split; intros (u & Hu & Hv); exists u; rewrite ?list_elem_of_In in *; by rewrite ?veqb_spec in *.
Qed.

(** Every corner of [l1] is a corner of [l2]. *)
Lemma corners_included l1 l2 v :
  forallb (fun u => existsb (veqb u) l2) l1 = true -> on_solid l1 v -> on_solid l2 v.
Proof.
  intros Hall Hv. apply Exists_exists in Hv as (u & Hu & Hvu).
  rewrite forallb_forall in Hall. apply list_elem_of_In in Hu.
  specialize (Hall u Hu). apply on_solid_b in Hall. apply Exists_exists in Hall as (u' & Hu' & Huu').
  apply Exists_exists. exists u'. split; [done|]. by eapply veq_trans.
Qed.

Lemma same_solid_spec l1 l2 : same_solid l1 l2 = true -> forall v, on_solid l1 v <-> on_solid l2 v.
Proof.
  unfold same_solid. rewrite andb_true_iff. intros [H12 H21] v. split; by apply corners_included.
Qed.

(** ** The ribbons *)

(** C33: the two "Ribbon Around Box" meshes are one and the same solid:
    the quarter turn maps the square slab onto itself, so the second mesh
    adds nothing and the box shows a single horizontal band.  The lid's
    two ribbons differ (their corner (1.125, 0.235, 0.15) is on the first
    only) and form a cross.  Each ribbon sticks out of what it wraps: the
    body ribbons reach x = +-1.025 over the body's +-1, the lid ribbons
    reach +-1.125 over the lid's +-1.1 and y = 0.235 over its top 0.2. *)
Theorem giftbox_ribbons_coincide :
  (forall v, on_solid (solid box_ribbon1) v <-> on_solid (solid box_ribbon2) v) /\
  on_solid (solid lid_ribbon1) (vec3 (9#8) (47#200) (3#20)) /\
  ~ on_solid (solid lid_ribbon2) (vec3 (9#8) (47#200) (3#20)) /\
  snd (lo_hi x3 (solid box_body)) < snd (lo_hi x3 (solid box_ribbon1)) /\
  snd (lo_hi z3 (solid box_body)) < snd (lo_hi z3 (solid box_ribbon2)) /\
  snd (lo_hi x3 (solid lid_box)) < snd (lo_hi x3 (solid lid_ribbon1)) /\
  snd (lo_hi z3 (solid lid_box)) < snd (lo_hi z3 (solid lid_ribbon2)) /\
  snd (lo_hi y3 (solid lid_box)) < snd (lo_hi y3 (solid lid_ribbon1)).
Proof.
  split_and!;
    [apply same_solid_spec; vm_compute; reflexivity
    |apply on_solid_b; vm_compute; reflexivity
    |rewrite on_solid_b; vm_compute; discriminate
    |vm_compute; reflexivity..].
Qed.
