(* ===== verification/Overlay.v ===== *)
(** * The text overlay (src/components/UIOverlay.tsx)

    [UIOverlay] receives [stage] and the page's [setStage], owns the hook
    [msgIndex], and has:

    - an effect on [stage, messages.length] that arms a 3500 ms interval
      while the stage is WORLD, advancing [msgIndex] modulo the number of
      messages, and clears it in its cleanup ([overlay_effect],
      [overlay_cleanup], [run_overlay_task]);
    - [handleYesClick]: [setStage(CELEBRATION)], then two sounds;
    - its render ([overlay_dom]): nothing in START, otherwise a tree whose
      blocks fade in and out with [opacity-0]/[opacity-100] classes.

    The "Yes" button sits in a wrapper with the class
    [pointer-events-auto] whatever the stage, under a root with
    [pointer-events-none]; opacity does not stop clicks.  [overlay_dom]
    keeps the class lists of the source so that Dom.v decides which
    handlers a click can reach. *)

From S2P Require Import Prelude Stage Timers Dom Sound.
Local Open Scope js_scope.

Inductive OverlayTask := MsgTick.

Inductive OverlayHandler := YesClick.

#[export] Instance OverlayHandler_eq_dec : EqDecision OverlayHandler.
Proof. solve_decision. Defined.

Definition messages : list string :=
  ["You are my safest place";
   "Every future I want has you in it";
   "I’d choose you in every universe";
   "You make my world infinitely brighter"].

(** The updater [(prev) => (prev + 1) % messages.length]. *)
Definition msg_next (prev : nat) : nat := (prev + 1) mod length messages.

(** [{messages[msgIndex]}]: an index out of range renders nothing. *)
Definition message_text (i : nat) : string :=
  match messages !! i with Some m => m | None => EmptyString end.

Section UIOverlay.
Context {St : Type} `{SoundHost St} `{TimerHost St OverlayTask}.
Variable setMsgIndex : (nat -> nat) -> JS St unit.
Variable setStage : ExperienceStage -> JS St unit.

(** The effect body: the id of the armed interval is what its cleanup
    ([() => clearInterval(interval)]) needs. *)
Definition overlay_effect (stage : ExperienceStage) : JS St (option nat) :=
  if decide (stage = WORLD)
  then (id <- setInterval 3500 MsgTick ;; js_ret (Some id))
  else js_ret None.

Definition overlay_cleanup (c : option nat) : JS St unit :=
  match c with Some id => clearTimer id | None => js_ret tt end.

Definition run_overlay_task (t : OverlayTask) : JS St unit :=
  match t with MsgTick => setMsgIndex msg_next end.

Definition handleYesClick : JS St unit :=
  setStage CELEBRATION ;; playSparkle ;; playPop.

End UIOverlay.

(** The effect's dependency list [[stage, messages.length]]. *)
Definition overlay_deps (stage : ExperienceStage) : ExperienceStage * nat :=
  (stage, length messages).

(** The rendered overlay, with the source's class lists; [None] is
    [return null]. *)
Definition overlay_dom (stage : ExperienceStage) (msgIndex : nat) : option (Node OverlayHandler) :=
  if decide (stage = START) then None else Some (
  Elem ["absolute"; "inset-0"; "pointer-events-none"; "flex"; "flex-col"; "items-center";
        "justify-between"; "p-8"; "text-center"] None [
    Elem (["transition-all"; "duration-1000"] ++
          (if decide (stage = WORLD) then ["opacity-100"] else ["opacity-0"]) ++ ["mt-12"]) None [
      Elem ["animate-fade-up"; "text-rose-400"; "italic"; "text-2xl"; "drop-shadow-sm"; "font-light"] None
        [Text ("“" +:+ message_text msgIndex +:+ "”")]];
    Elem (["transition-all"; "duration-2000"; "flex"; "flex-col"; "items-center"; "justify-center"; "flex-1"] ++
          (if decide (stage = FINAL) then ["opacity-100"; "scale-100"; "translate-y-0"]
           else ["opacity-0"; "scale-95"; "translate-y-10"])) None [
      Elem ["mt-[25vh]"; "space-y-6"] None [
        Elem ["text-5xl"; "md:text-7xl"; "font-love"; "text-rose-500"; "drop-shadow-2xl"; "leading-tight"] None
          [Text "Happy Valentines Day,"; Elem [] None []; Text "bb (My little princess)"];
        Elem ["text-rose-400"; "text-2xl"; "font-light"; "italic"; "animate-pulse"] None
          [Text "Will you be my Valentine? Today, Tomorrow, and Forever?"];
        Elem ["pt-10"; "flex"; "gap-6"; "justify-center"; "pointer-events-auto"] None [
          Elem ["px-12"; "py-5"; "bg-rose-500"; "text-white"; "rounded-full"; "text-2xl"; "font-bold";
                "hover:bg-rose-600"; "transition-all"; "shadow-2xl"; "hover:scale-110";
                "active:scale-95"; "shadow-rose-200"] (Some YesClick)
            [Text "Yes, Forever ❤️"]]]];
    Elem (["transition-all"; "duration-1000"; "flex"; "flex-col"; "items-center"; "justify-center";
           "absolute"; "inset-0"] ++
          (if decide (stage = CELEBRATION) then ["opacity-100"; "scale-110"]
           else ["opacity-0"; "scale-50"; "pointer-events-none"])) None [
      Elem ["text-7xl"; "md:text-9xl"; "font-love"; "text-rose-600";
            "drop-shadow-[0_0_25px_rgba(225,29,72,0.5)]"; "animate-pulse"] None [Text "mwaahhh! 💋"];
      Elem ["text-rose-400"; "text-3xl"; "font-love"; "mt-8"] None [Text "I love you so much, Agni"]];
    Elem [] None []]).

(** Handlers a click can reach in the overlay, and those on visible
    elements (the page's root receives pointer events). *)
Definition overlay_reachable (stage : ExperienceStage) (msgIndex : nat) : list OverlayHandler :=
  match overlay_dom stage msgIndex with Some n => reachable_handlers true n | None => [] end.

Definition overlay_visible (stage : ExperienceStage) (msgIndex : nat) : list OverlayHandler :=
  match overlay_dom stage msgIndex with Some n => visible_handlers true n | None => [] end.

Lemma msg_next_lt prev : msg_next prev < length messages.
Proof. unfold msg_next. apply Nat.mod_upper_bound. simpl; lia. Qed.

Lemma overlay_reachable_eq stage i :
  overlay_reachable stage i = if decide (stage = START) then [] else [YesClick].
Proof. destruct stage; vm_compute; reflexivity. Qed.

Lemma overlay_visible_eq stage i :
  overlay_visible stage i = if decide (stage = FINAL) then [YesClick] else [].
Proof. destruct stage; vm_compute; reflexivity. Qed.

(** C3: a click can reach the "Yes" button's handler in every stage in
    which the overlay renders (all but START), although the block holding
    the button is visible only in FINAL: its wrapper has the class
    [pointer-events-auto] in every stage, and [opacity-0] does not stop
    clicks. *)
Theorem yes_button_reachable stage i :
  stage <> START ->
  YesClick ∈ overlay_reachable stage i /\ (YesClick ∈ overlay_visible stage i <-> stage = FINAL).
Proof.
  intros Hs. rewrite overlay_reachable_eq, overlay_visible_eq.
  rewrite decide_False by done. split; [set_solver|].
  case_decide; set_solver.
Qed.

Lemma yes_button_reachable_witness :
  YesClick ∈ overlay_reachable GIFT_BOX 0 /\ (YesClick ∈ overlay_visible GIFT_BOX 0 <-> GIFT_BOX = FINAL).
Proof. apply yes_button_reachable. discriminate. Defined.
