(* ===== verification/Scene.v ===== *)
(** * The 3D scene's children (src/components/Scene.tsx)

    [Scene] receives [stage] and [onBoxClick] and mounts, in this order:
    [Particles] always; a floating [GiftBox] with [onClick = onBoxClick] in
    GIFT_BOX; an opened [GiftBox] ([isOpen = true], no [onClick]) in
    OPENING; [MiniatureWorld] in WORLD and FINAL.  The two gift boxes sit
    in different slots of the tree, so they are different instances, each
    with its own [hovered] hook.  The group's bobbing ([useFrame]) is
    [scene_bob]. *)

From S2P Require Import Prelude Stage Anim GiftBox.
From Stdlib Require Import QArith.

Inductive SceneChild (St : Type) :=
| ParticlesC (stage : ExperienceStage)
| FloatGiftBox (props : GiftBoxProps St)
| OpenGiftBox (props : GiftBoxProps St)
| MiniatureWorldC (stage : ExperienceStage).
Arguments ParticlesC {St} stage.
Arguments FloatGiftBox {St} props.
Arguments OpenGiftBox {St} props.
Arguments MiniatureWorldC {St} stage.

Definition scene_children {St} (stage : ExperienceStage) (onBoxClick : JS St unit) : list (SceneChild St) :=
  [ParticlesC stage] ++
  (if decide (stage = GIFT_BOX) then [FloatGiftBox (mk_giftbox_props (Some onBoxClick) false)] else []) ++
  (if decide (stage = OPENING) then [OpenGiftBox (mk_giftbox_props None true)] else []) ++
  (if decide (stage = WORLD \/ stage = FINAL) then [MiniatureWorldC stage] else []).

(** Which gift-box instance is mounted, if any: the pointer events on the
    box go to it. *)
Inductive BoxSlot := FloatSlot | OpenSlot.

Fixpoint mounted_giftbox {St} (cs : list (SceneChild St)) : option (BoxSlot * GiftBoxProps St) :=
  match cs with
  | [] => None
  | FloatGiftBox p :: _ => Some (FloatSlot, p)
  | OpenGiftBox p :: _ => Some (OpenSlot, p)
  | _ :: cs' => mounted_giftbox cs'
  end.

(** The [useFrame] callback: the group's height is
    [Math.sin(t * 0.5) * 0.1]; [None] is a group ref not yet attached. *)
Definition scene_bob (sin : Q -> Q) (t : Q) (group_y : option Q) : option Q :=
  match group_y with None => None | Some _ => Some (sin (t * (1#2)) * (1#10))%Q end.

Lemma mounted_giftbox_stage {St} stage (cb : JS St unit) :
  mounted_giftbox (scene_children stage cb) =
    match stage with
    | GIFT_BOX => Some (FloatSlot, mk_giftbox_props (Some cb) false)
    | OPENING => Some (OpenSlot, mk_giftbox_props None true)
    | _ => None
    end.
Proof. destruct stage; reflexivity. Qed.

Lemma scene_children_stage {St} stage (cb : JS St unit) :
  scene_children stage cb =
    ParticlesC stage ::
    match stage with
    | GIFT_BOX => [FloatGiftBox (mk_giftbox_props (Some cb) false)]
    | OPENING => [OpenGiftBox (mk_giftbox_props None true)]
    | WORLD | FINAL => [MiniatureWorldC stage]
    | _ => []
    end.
Proof. destruct stage; reflexivity. Qed.

(** C25: [MiniatureWorld] is only ever mounted with the stage WORLD or
    FINAL, so its [isCelebrating] branch (the faster heartbeat bob) and the
    CELEBRATION case of its heart condition can never run: Scene unmounts
    the couple when the stage becomes CELEBRATION. *)
Theorem miniature_world_not_in_celebration {St} stage (cb : JS St unit) s :
  MiniatureWorldC s ∈ scene_children stage cb -> s = stage /\ (s = WORLD \/ s = FINAL).
Proof.
  rewrite scene_children_stage. intros Hin.
  destruct stage; decompose_list_elem_of; simplify_eq; tauto.
Qed.

Lemma miniature_world_not_in_celebration_witness :
  WORLD = WORLD /\ (WORLD = WORLD \/ WORLD = FINAL).
Proof.
  apply (miniature_world_not_in_celebration (St := unit) WORLD (fun s => (s, Ok tt)) WORLD).
  rewrite scene_children_stage. set_solver.
Defined.
