(* ===== verification/MiniatureWorld.v ===== *)
(** * The miniature world (src/components/MiniatureWorld.tsx)

    [MiniatureWorld] receives [stage] and animates, in its [useFrame]
    callback, the world group's scale, the two characters (their distance,
    their bob, their lean and their four arms) and the heart above them.
    Each animated value is a field of [MW]; [mw_frame] is the callback on
    one frame with its [delta] and clock time [t], with the stage-dependent
    constants [isHugging], [scale], [targetDist], [bobFreq] and [bobAmp]
    of the source.  [Math.sin] is the parameter [sin].  The refs of the
    world, the characters and the arms are attached from the first frame
    (they are unconditional in the JSX); the heart's ref exists only while
    the heart is rendered ([heart_mounted]).  The geometry and materials of
    the JSX are not modelled. *)

From S2P Require Import Prelude Stage Anim.
From Stdlib Require Import QArith Qabs Lqa.
Local Open Scope Q_scope.

(** One character group and its two arms: position x and y, rotation z,
    and each arm's rotations x and z. *)
Record Char := mk_char {
  ch_x : Q; ch_y : Q; ch_rz : Q;
  armL_rx : Q; armL_rz : Q; armR_rx : Q; armR_rz : Q
}.

Record MW := mk_mw {
  world_scale : Q;
  char1 : Char;
  char2 : Char;
  heart_scale : Q;
  heart_rot_y : Q;
  heart_y : Q
}.

(** The values the JSX sets at mount: [scale={0}] on the world, the
    characters at x = -2 and x = 2, the heart mesh at scale 0.08. *)
Definition mw_init : MW :=
  mk_mw 0 (mk_char (-2) 0 0 0 0 0 0) (mk_char 2 0 0 0 0 0 0) (8#100) 0 0.

Definition isHugging (s : ExperienceStage) : bool := bool_decide (s = FINAL \/ s = CELEBRATION).
Definition isCelebrating (s : ExperienceStage) : bool := bool_decide (s = CELEBRATION).

Definition mw_scale (s : ExperienceStage) : Q := if isHugging s then 22#10 else 1.
Definition targetDist (s : ExperienceStage) : Q := if isHugging s then 8#100 else 6#10.
Definition bobFreq (s : ExperienceStage) : Q :=
  if isHugging s then (if isCelebrating s then 3 else 3#2) else 5.
Definition bobAmp (s : ExperienceStage) : Q := if isHugging s then 15#1000 else 8#100.

(** The heart group is rendered in FINAL, WORLD and CELEBRATION. *)
Definition heart_mounted (s : ExperienceStage) : bool :=
  bool_decide (s = FINAL \/ s = WORLD \/ s = CELEBRATION).

Section Frame.
Variable sin : Q -> Q.

(** The arms while hugging: each rotation moves towards its hug angle. *)
Definition hug_arms1 (delta : Q) (c : Char) : Char :=
  mk_char (ch_x c) (ch_y c) (ch_rz c)
    (lerp (armL_rx c) (8#10) (delta * 3)) (lerp (armL_rz c) (6#10) (delta * 3))
    (lerp (armR_rx c) (12#10) (delta * 3)) (lerp (armR_rz c) (-15#10) (delta * 3)).

Definition hug_arms2 (delta : Q) (c : Char) : Char :=
  mk_char (ch_x c) (ch_y c) (ch_rz c)
    (lerp (armL_rx c) (12#10) (delta * 3)) (lerp (armL_rz c) (15#10) (delta * 3))
    (lerp (armR_rx c) (8#10) (delta * 3)) (lerp (armR_rz c) (-6#10) (delta * 3)).

(** The arms while walking: they swing with [Math.sin(t * 5 + phase)]. *)
Definition swing_arms (t phase : Q) (c : Char) : Char :=
  mk_char (ch_x c) (ch_y c) (ch_rz c)
    (armL_rx c) ((2#10) + sin (t * 5 + phase) * (1#10))
    (armR_rx c) ((-2#10) - sin (t * 5 + phase) * (1#10)).

(** Distance, bob and lean of one character. *)
Definition move_char (s : ExperienceStage) (delta t x_target phase lean : Q) (c : Char) : Char :=
  mk_char (lerp (ch_x c) x_target (delta * (3#2)))
    (Qabs (sin (t * bobFreq s + phase)) * bobAmp s)
    (if isHugging s then lerp (ch_rz c) lean (delta * 2) else ch_rz c)
    (armL_rx c) (armL_rz c) (armR_rx c) (armR_rz c).

(** The [useFrame] callback of MiniatureWorld.tsx. *)
Definition mw_frame (s : ExperienceStage) (delta t : Q) (m : MW) : MW :=
  let c1 := move_char s delta t (- targetDist s) 0 (2#10) (char1 m) in
  let c2 := move_char s delta t (targetDist s) (1#2) (-2#10) (char2 m) in
  let c1 := if isHugging s then hug_arms1 delta c1 else swing_arms t 0 c1 in
  let c2 := if isHugging s then hug_arms2 delta c2 else swing_arms t (1#2) c2 in
  let heart := heart_mounted s && isHugging s in
  mk_mw (lerp (world_scale m) (mw_scale s) (delta * (12#10))) c1 c2
    (if heart then (12#100) + sin (t * 8) * (4#100) else heart_scale m)
    (if heart then heart_rot_y m + delta * (3#2) else heart_rot_y m)
    (if heart then lerp (heart_y m) (28#10) (delta * 2) else heart_y m).

(** Frames in order, each with its stage, [delta] and time. *)
Definition mw_frames (fs : list (ExperienceStage * Q * Q)) (m : MW) : MW :=
  fold_left (fun m '(s, d, t) => mw_frame s d t m) fs m.

End Frame.

(** The characters' x positions stay on their own side of the world. *)
Definition chars_apart (m : MW) : Prop :=
  -2 <= ch_x (char1 m) <= -8#100 /\ 8#100 <= ch_x (char2 m) <= 2.

(** The ground: [<Sphere args={[2.8, 64, 64]} scale={[1, 0.08, 1]}
    position={[0, -0.2, 0]}>], a flattened sphere whose rim in plan is
    the circle of radius 2.8 around the world's axis. *)
Definition ground_radius : Q := 28#10.

(** The ten decorative hearts: [[...Array(10)].map((_, i) => <group
    position={[Math.cos(i * 0.6) * 2.5, 0.3, Math.sin(i * 0.6) * 2.5]}>)]. *)
Definition decor_positions (cos sin : Q -> Q) : list (Q * Q * Q) :=
  (fun i : nat => let a := inject_Z (Z.of_nat i) * (6#10) in (cos a * (25#10), 3#10, sin a * (25#10)))
    <$> seq 0 10.

(** Each character's body: [<capsuleGeometry args={[0.2, 0.4, 8, 16]} />]
    at the centre of its group. *)
Definition body_radius : Q := 2#10.

(** What the proofs use of [Math.cos] and [Math.sin]. *)
Definition trig_ok (cos sin : Q -> Q) : Prop := forall a, cos a * cos a + sin a * sin a == 1.

Lemma mw_frames_cons sin f fs m :
  mw_frames sin (f :: fs) m = mw_frames sin fs (let '(s, d, t) := f in mw_frame sin s d t m).
Proof. by destruct f as [[s d] t]. Qed.

Lemma targetDist_range s : 8#100 <= targetDist s <= 2.
Proof. unfold targetDist. destruct (isHugging s); split; apply Qle_bool_imp_le; reflexivity. Qed.

Lemma mw_frame_char1_x sin s d t m :
  ch_x (char1 (mw_frame sin s d t m)) = lerp (ch_x (char1 m)) (- targetDist s) (d * (3#2)).
Proof. unfold mw_frame. by destruct (isHugging s). Qed.

Lemma mw_frame_char2_x sin s d t m :
  ch_x (char2 (mw_frame sin s d t m)) = lerp (ch_x (char2 m)) (targetDist s) (d * (3#2)).
Proof. unfold mw_frame. by destruct (isHugging s). Qed.

Lemma mw_frame_apart sin s d t m :
  0 <= d * (3#2) <= 1 -> chars_apart m -> chars_apart (mw_frame sin s d t m).
Proof.
  intros Hd [H1 H2]. pose proof (targetDist_range s) as Ht. unfold chars_apart.
  rewrite mw_frame_char1_x, mw_frame_char2_x.
  split; apply lerp_interval; (done || lra).
Qed.

Lemma bobAmp_range s : 0 <= bobAmp s <= 8#100.
Proof. unfold bobAmp. destruct (isHugging s); split; apply Qle_bool_imp_le; reflexivity. Qed.

Lemma bob_range sin x a : sin_ok sin -> 0 <= a -> 0 <= Qabs (sin x) * a <= a.
Proof. intros Hs Ha. destruct (sin_ok_abs sin x Hs). split; nra. Qed.

Lemma mw_frames_apart sin fs :
  Forall (fun f : ExperienceStage * Q * Q => let '(s, d, t) := f in 0 <= d * (3#2) <= 1) fs ->
  chars_apart (mw_frames sin fs mw_init).
Proof.
  intros Hfs. assert (chars_apart mw_init) as Hinit.
  { unfold chars_apart. simpl. split; split; apply Qle_bool_imp_le; reflexivity. }
  revert Hinit. generalize mw_init.
  induction Hfs as [|[[s d] t] fs Hd Hfs IH]; intros m Hm; [done|].
  rewrite mw_frames_cons. apply IH. by apply mw_frame_apart.
Qed.

(** C18: the two characters never pass through each other: from their
    mount positions, through any frames in any stages whose factor
    [delta * 1.5] is at most 1 (frames of at most 2/3 s), the first stays
    in [-2, -0.08] and the second in [0.08, 2]. *)
Theorem mw_chars_never_cross sin fs :
  Forall (fun f : ExperienceStage * Q * Q => let '(s, d, t) := f in 0 <= d * (3#2) <= 1) fs ->
  chars_apart (mw_frames sin fs mw_init) /\
  ch_x (char1 (mw_frames sin fs mw_init)) < ch_x (char2 (mw_frames sin fs mw_init)).
Proof.
  intros Hfs. pose proof (mw_frames_apart sin fs Hfs) as Ha.
  split; [done|]. destruct Ha as [[_ H1] [H2 _]]. lra.
Qed.

Lemma mw_chars_never_cross_witness :
  let fs := [(WORLD, 1#60, 1); (FINAL, 1#60, 2); (FINAL, 1#30, 3)] in
  chars_apart (mw_frames (fun _ => 0) fs mw_init) /\
  ch_x (char1 (mw_frames (fun _ => 0) fs mw_init)) < ch_x (char2 (mw_frames (fun _ => 0) fs mw_init)).
Proof. apply mw_chars_never_cross. repeat constructor; apply Qle_bool_imp_le; reflexivity. Defined.

(** C19: the factor [delta * 1.5] is not clamped: on a frame from the
    mount positions the two characters swap sides exactly when
    [delta * 1.5 * (2 - targetDist) > 2], in any stage, whatever
    [Math.sin] returns: in FINAL and CELEBRATION ([targetDist] 0.08) for
    any frame longer than 25/36 s, in the other stages (0.6) for any frame
    longer than 20/21 s (a stalled tab). *)
Theorem mw_long_frame_crosses sin s d t :
  let m := mw_frame sin s d t mw_init in
  ch_x (char2 m) < ch_x (char1 m) <-> 2 < d * (3#2) * (2 - targetDist s).
Proof.
  cbn zeta. rewrite mw_frame_char1_x, mw_frame_char2_x. cbn [mw_init char1 char2 ch_x].
  unfold lerp. split; intros; nra.
Qed.

(** C27: the bob of both characters stays between the ground and the
    stage's amplitude, at most 0.08: [Math.abs(Math.sin(...)) * bobAmp]. *)
Theorem mw_bob_bounds sin s d t m :
  sin_ok sin ->
  0 <= ch_y (char1 (mw_frame sin s d t m)) <= bobAmp s /\
  0 <= ch_y (char2 (mw_frame sin s d t m)) <= bobAmp s /\ bobAmp s <= 8#100.
Proof.
  intros Hs. destruct (bobAmp_range s) as [H0 H1].
  unfold mw_frame. destruct (isHugging s); cbn [char1 char2 ch_y hug_arms1 hug_arms2 swing_arms move_char];
    (split; [apply bob_range|split; [apply bob_range|]]); done.
Qed.

Lemma mw_bob_bounds_witness :
  0 <= ch_y (char1 (mw_frame (fun _ => 1) FINAL (1#60) 1 mw_init)) <= bobAmp FINAL /\
  0 <= ch_y (char2 (mw_frame (fun _ => 1) FINAL (1#60) 1 mw_init)) <= bobAmp FINAL /\ bobAmp FINAL <= 8#100.
Proof. apply mw_bob_bounds. intros x. split; apply Qle_bool_imp_le; reflexivity. Defined.

(** C34: everything MiniatureWorld stands is on its ground disc of
    radius 2.8: the ten decorative hearts are on the circle of radius 2.5
    around the axis, and through any frames whose factor [delta * 1.5] is
    at most 1 both characters' bodies (radius 0.2) stay within the rim. *)
Theorem mw_world_on_ground cos sin sin' fs :
  trig_ok cos sin ->
  Forall (fun f : ExperienceStage * Q * Q => let '(s, d, t) := f in 0 <= d * (3#2) <= 1) fs ->
  length (decor_positions cos sin) = 10%nat /\
  Forall (fun p : Q * Q * Q => let '(x, _, z) := p in x * x + z * z == (25#10) * (25#10)) (decor_positions cos sin) /\
  25#10 < ground_radius /\
  - ground_radius <= ch_x (char1 (mw_frames sin' fs mw_init)) - body_radius /\
  ch_x (char2 (mw_frames sin' fs mw_init)) + body_radius <= ground_radius.
Proof.
  intros Htrig Hfs. destruct (mw_frames_apart sin' fs Hfs) as [[H1 _] [_ H2]].
  split_and!; [reflexivity| |vm_compute; reflexivity|unfold ground_radius, body_radius; lra|unfold ground_radius, body_radius; lra].
  apply Forall_fmap, Forall_forall. intros i _. cbn.
  specialize (Htrig (inject_Z (Z.of_nat i) * (6#10))).
  nra.
Qed.

Lemma mw_world_on_ground_witness :
  let c := fun _ : Q => 1 in let s := fun _ : Q => 0 in
  let fs := [(WORLD, 1#60, 1); (FINAL, 1#60, 2)] in
  trig_ok c s /\
  length (decor_positions c s) = 10%nat /\
  Forall (fun p : Q * Q * Q => let '(x, _, z) := p in x * x + z * z == (25#10) * (25#10)) (decor_positions c s) /\
  25#10 < ground_radius /\
  - ground_radius <= ch_x (char1 (mw_frames s fs mw_init)) - body_radius /\
  ch_x (char2 (mw_frames s fs mw_init)) + body_radius <= ground_radius.
Proof.
  intros c s fs. assert (trig_ok c s) as Ht by (intros a; reflexivity).
  split; [exact Ht|]. apply mw_world_on_ground; [exact Ht|].
  repeat constructor; apply Qle_bool_imp_le; reflexivity.
Defined.
