(* ===== verification/HeartShape.v ===== *)
(** * The heart outline of the miniature world (src/components/MiniatureWorld.tsx)

    [HeartShape] (lines 95-106) is a [THREE.Shape] drawn with one
    [moveTo] and six [bezierCurveTo] calls; MiniatureWorld extrudes it for
    the ten decorative hearts and for the glowing heart above the hug.
    Here the path is the list of its commands, [curves] is what
    [THREE.Path] builds from them (each [bezierCurveTo] appends a
    [CubicBezierCurve] from the current point, [moveTo] moves the current
    point), and [getPoint] is three.js's cubic Bezier interpolation.

    The theorems: the outline is one closed curve and lies exactly in the
    box [-6, 16] x [0, 19] (the box is reached on all four sides), shown
    by the convex-hull property of Bezier curves and a boolean check of
    the control points; and the outline is not mirror-symmetric about the
    vertical line through its tip (5, 19) and its dip (5, 5): the control
    point (x - 3, y + 15.4) of the left lobe is not the mirror of the
    right lobe's (x + 12, y + 15.4). *)

From S2P Require Import Prelude.
From Stdlib Require Import QArith Lqa.
Local Open Scope Q_scope.

(** ** The path and its curves *)

Record Vec2 := vec2 { vx : Q; vy : Q }.

(** The [THREE.Path] commands the code issues. *)
Inductive PathCmd :=
| moveTo (p : Vec2)
| bezierCurveTo (c1 c2 p : Vec2).

(** [const HeartShape = useMemo(() => { ... }, [])] *)
Definition HeartShape : list PathCmd :=
  let x := 0 in let y := 0 in
  [moveTo (vec2 (x + 5) (y + 5));
   bezierCurveTo (vec2 (x + 5) (y + 5)) (vec2 (x + 4) y) (vec2 x y);
   bezierCurveTo (vec2 (x - 6) y) (vec2 (x - 6) (y + 7)) (vec2 (x - 6) (y + 7));
   bezierCurveTo (vec2 (x - 6) (y + 11)) (vec2 (x - 3) (y + (154#10))) (vec2 (x + 5) (y + 19));
   bezierCurveTo (vec2 (x + 12) (y + (154#10))) (vec2 (x + 16) (y + 11)) (vec2 (x + 16) (y + 7));
   bezierCurveTo (vec2 (x + 16) (y + 7)) (vec2 (x + 16) y) (vec2 (x + 10) y);
   bezierCurveTo (vec2 (x + 7) y) (vec2 (x + 5) (y + 5)) (vec2 (x + 5) (y + 5))].

(** [THREE.CubicBezierCurve(v0, v1, v2, v3)]. *)
Record Cubic := mk_cubic { v0 : Vec2; v1 : Vec2; v2 : Vec2; v3 : Vec2 }.

(** [THREE.Path]: [moveTo] sets the current point (initially (0, 0));
    [bezierCurveTo] appends a curve from it and moves it to the end. *)
Fixpoint curves_from (cur : Vec2) (cs : list PathCmd) : list Cubic :=
  match cs with
  | [] => []
  | moveTo p :: cs => curves_from p cs
  | bezierCurveTo c1 c2 p :: cs => mk_cubic cur c1 c2 p :: curves_from p cs
  end.

Definition curves (cs : list PathCmd) : list Cubic := curves_from (vec2 0 0) cs.

(** three.js's [CubicBezier(t, p0, p1, p2, p3)] (Interpolations.js). *)
Definition CubicBezier (t p0 p1 p2 p3 : Q) : Q :=
  (1 - t) * (1 - t) * (1 - t) * p0 + 3 * (1 - t) * (1 - t) * t * p1 +
  3 * (1 - t) * t * t * p2 + t * t * t * p3.

(** [CubicBezierCurve.getPoint(t)]. *)
Definition getPoint (c : Cubic) (t : Q) : Vec2 :=
  vec2 (CubicBezier t (vx (v0 c)) (vx (v1 c)) (vx (v2 c)) (vx (v3 c)))
       (CubicBezier t (vy (v0 c)) (vy (v1 c)) (vy (v2 c)) (vy (v3 c))).

(** The points of the outline. *)
Definition on_outline (cs : list PathCmd) (p : Vec2) : Prop :=
  exists c t, c ∈ curves cs /\ 0 <= t <= 1 /\ vx (getPoint c t) == vx p /\ vy (getPoint c t) == vy p.

(** Each curve starts where the previous one ends, and the last ends
    where the first starts. *)
Fixpoint chained (cs : list Cubic) : Prop :=
  match cs with
  | c :: (d :: _) as cs' => v3 c = v0 d /\ chained cs'
  | _ => True
  end.

Definition closed_curve (cs : list Cubic) : Prop :=
  chained cs /\ match cs with [] => True | c :: _ => last (v3 <$> cs) = Some (v0 c) end.

Definition in_box (lo hi p : Vec2) : Prop := vx lo <= vx p <= vx hi /\ vy lo <= vy p <= vy hi.

Definition in_boxb (lo hi p : Vec2) : bool :=
  Qle_bool (vx lo) (vx p) && Qle_bool (vx p) (vx hi) && Qle_bool (vy lo) (vy p) && Qle_bool (vy p) (vy hi).

Definition controls (c : Cubic) : list Vec2 := [v0 c; v1 c; v2 c; v3 c].

(** The mirror image about the vertical line [x = a]. *)
Definition mirror (a : Q) (p : Vec2) : Vec2 := vec2 (2 * a - vx p) (vy p).

(** ** Bezier curves stay in the hull of their control points *)

Lemma CubicBezier_weights t p0 p1 p2 p3 c :
  CubicBezier t p0 p1 p2 p3 - c ==
  (1 - t) * (1 - t) * (1 - t) * (p0 - c) + 3 * (1 - t) * (1 - t) * t * (p1 - c) +
  3 * (1 - t) * t * t * (p2 - c) + t * t * t * (p3 - c).
Proof. unfold CubicBezier. ring. Qed.

Lemma CubicBezier_between lo hi t p0 p1 p2 p3 :
  0 <= t <= 1 -> lo <= p0 <= hi -> lo <= p1 <= hi -> lo <= p2 <= hi -> lo <= p3 <= hi ->
  lo <= CubicBezier t p0 p1 p2 p3 <= hi.
Proof.
  intros [Ht0 Ht1] H0 H1 H2 H3. assert (0 <= 1 - t) by lra.
  pose proof (CubicBezier_weights t p0 p1 p2 p3 lo). pose proof (CubicBezier_weights t p0 p1 p2 p3 hi).
  assert (forall a b, 0 <= a -> 0 <= b -> 0 <= a * b) as M by (intros; by apply Qmult_le_0_compat).
  assert (0 <= (1 - t) * (1 - t) * (1 - t)) by auto.
  assert (0 <= 3 * (1 - t) * (1 - t) * t) by (repeat apply M; lra).
  assert (0 <= 3 * (1 - t) * t * t) by (repeat apply M; lra).
  assert (0 <= t * t * t) by auto.
  split; nra.
Qed.

Lemma in_boxb_spec lo hi p : in_boxb lo hi p = true -> in_box lo hi p.
Proof.
  unfold in_boxb, in_box. rewrite !andb_true_iff, !Qle_bool_iff. tauto.
Qed.

Lemma curve_in_box lo hi c t :
  0 <= t <= 1 -> forallb (in_boxb lo hi) (controls c) = true -> in_box lo hi (getPoint c t).
Proof.
  intros Ht Hc. destruct c as [a b d e]. cbn [controls forallb] in Hc.
  rewrite !andb_true_iff in Hc. destruct Hc as (Ha & Hb & Hd & He & _).
  apply in_boxb_spec in Ha, Hb, Hd, He. unfold in_box in *. cbn [getPoint vx vy v0 v1 v2 v3].
  split; apply CubicBezier_between; tauto.
Qed.

(** Every curve of a list passes the check: the whole outline is in the box. *)
Lemma outline_in_box lo hi cs p :
  forallb (fun c => forallb (in_boxb lo hi) (controls c)) (curves cs) = true ->
  on_outline cs p -> in_box lo hi p.
Proof.
  intros Hall (c & t & Hc & Ht & Hx & Hy).
  rewrite forallb_forall in Hall. apply list_elem_of_In in Hc.
  destruct (curve_in_box lo hi c t Ht (Hall c Hc)) as [Bx By].
  unfold in_box. rewrite <- Hx, <- Hy. tauto.
Qed.

(** An end point of a curve of the outline is on the outline. *)
Lemma end_on_outline cs c : c ∈ curves cs -> on_outline cs (v3 c).
Proof.
  intros Hc. exists c, 1. split_and!; [done|lra|lra| |]; unfold getPoint, CubicBezier; cbn; ring.
Qed.

(** The right lobe's curve crosses the height 13.15 once, at t = 1/2,
    where it is at x = 13.125. *)
Lemma right_lobe_at_height t :
  0 <= t <= 1 ->
  CubicBezier t (0 + 19) (0 + (154#10)) (0 + 11) (0 + 7) == 263#20 ->
  CubicBezier t (0 + 5) (0 + 12) (0 + 16) (0 + 16) == 105#8.
Proof.
  unfold CubicBezier. intros [H0 H1] Hy.
  assert ((12#10) * t * t - (18#10) * t - (117#10) < 0) as Hq by nra.
  assert ((t - (1#2)) * ((12#10) * t * t - (18#10) * t - (117#10)) == 0) as E by nra.
  apply Qmult_integral in E as [E|E]; [|lra].
  assert (t == 1#2) as -> by lra. vm_compute. reflexivity.
Qed.

(** The point of the [i]-th curve at parameter [t] is on the outline. *)
Lemma nth_curve_on_outline cs i t p :
  (i < length (curves cs))%nat -> 0 <= t <= 1 ->
  vx (getPoint (nth i (curves cs) (mk_cubic p p p p)) t) == vx p ->
  vy (getPoint (nth i (curves cs) (mk_cubic p p p p)) t) == vy p ->
  on_outline cs p.
Proof.
  intros Hi Ht Hx Hy. exists (nth i (curves cs) (mk_cubic p p p p)), t.
  refine (conj _ (conj Ht (conj Hx Hy))). by apply list_elem_of_In, nth_In.
Qed.

Ltac on_curve i t :=
  apply (nth_curve_on_outline _ i t); [vm_compute; lia|lra|vm_compute; reflexivity..].

(** Only the right lobe reaches the mirror point (13.5, 13.15). *)
Lemma heart_curves_avoid :
  Forall (fun c => forall t, 0 <= t <= 1 -> ~ (vx (getPoint c t) == 27#2 /\ vy (getPoint c t) == 263#20))
    (curves HeartShape).
Proof.
  unfold curves, HeartShape. cbn [curves_from].
  repeat apply Forall_cons_2; try apply Forall_nil_2; intros t Ht [Hx Hy];
  match type of Hx with
  | context [getPoint ?c _] =>
    first
      [ pose proof (curve_in_box (vec2 (-6) 0) (vec2 16 7) c t Ht eq_refl) as [_ B];
        cbn [vx vy] in B; lra
      | pose proof (curve_in_box (vec2 (-6) 0) (vec2 5 19) c t Ht eq_refl) as [B _];
        cbn [vx vy] in B; lra
      | unfold getPoint in Hx, Hy; cbn [vx vy v0 v1 v2 v3] in Hx, Hy;
        apply right_lobe_at_height in Hy; [|done]; rewrite Hy in Hx; discriminate ]
  end.
Qed.

(** C31: the heart outline is one closed curve of six Bezier segments and
    lies in the box [-6, 16] x [0, 19], which it touches on every side:
    at (-6, 7) and (16, 7) left and right, at the tip (5, 19) and at
    (0, 0) on the line y = 0.  So the glowing heart, at scale 0.08, is
    1.76 wide and 1.52 high, and a decorative heart, at 0.012, 0.264 by
    0.228. *)
Theorem heart_outline_in_box :
  closed_curve (curves HeartShape) /\ length (curves HeartShape) = 6%nat /\
  (forall p, on_outline HeartShape p -> in_box (vec2 (-6) 0) (vec2 16 19) p) /\
  on_outline HeartShape (vec2 (-6) 7) /\ on_outline HeartShape (vec2 16 7) /\
  on_outline HeartShape (vec2 5 19) /\ on_outline HeartShape (vec2 0 0).
Proof.
  split_and!.
  - vm_compute. repeat split.
  - reflexivity.
  - intros p. apply outline_in_box. vm_compute. reflexivity.
  - on_curve 1%nat 1.
  - on_curve 3%nat 1.
  - on_curve 2%nat 1.
  - on_curve 0%nat 1.
Qed.

(** C32: the outline is not symmetric about the vertical line x = 5
    through its dip (5, 5) and its tip (5, 19): the left lobe passes
    through (-3.5, 13.15), and its mirror image (13.5, 13.15) is on no
    curve of the outline (the right lobe is at x = 13.125 at that
    height).  The left lobe's control point (x - 3, y + 15.4) mirrors to
    (x + 13, y + 15.4), not to the right lobe's (x + 12, y + 15.4). *)
Theorem heart_outline_lopsided :
  on_outline HeartShape (vec2 5 5) /\ on_outline HeartShape (vec2 5 19) /\
  on_outline HeartShape (vec2 (-7#2) (263#20)) /\
  ~ on_outline HeartShape (mirror 5 (vec2 (-7#2) (263#20))).
Proof.
  split_and!; [on_curve 5%nat 1|on_curve 2%nat 1|on_curve 2%nat (1#2)|].
  intros (c & t & Hc & Ht & Hx & Hy).
  pose proof heart_curves_avoid as Hav. eapply Forall_forall in Hav; [|exact Hc].
  apply (Hav t Ht). split; [rewrite Hx|rewrite Hy]; vm_compute; reflexivity.
Qed.
