(* ===== verification/CharacterMesh.v ===== *)
(** * The characters' heads, eyes and bodies (src/components/MiniatureWorld.tsx)

    Each character group (lines 128-153 for the first, 156-181 for the
    second, with the same layout) holds a capsule body, two arms, a
    sphere head and two small black sphere eyes, all at fixed positions
    in the group's frame.  Here the head and the eyes are balls (centre
    and [sphereGeometry] radius) and the body is the capsule of
    [capsuleGeometry args={[0.2, 0.4, ...]}]: the points within 0.2 of
    the vertical segment of length 0.4 around its centre.  The arms move
    with the animation and are left out.

    The theorem: both eyes lie strictly inside the head.  An eye's centre
    is 0.2468 from the head's centre and its radius is 0.03, so its
    farthest point is at 0.2768, inside the head's radius 0.28; the opaque
    head hides the eyes from every camera position outside it.  (The
    tessellated head, 32 x 32 segments, still contains every point within
    0.2783 of its centre, so the margin survives the tessellation.)  The
    head does sit on the body: the point (0, 0.85, 0) is in both. *)

From S2P Require Import Prelude MiniatureWorld.
From Stdlib Require Import QArith Lqa.
Local Open Scope Q_scope.

Record Ball := mk_ball { b_x : Q; b_y : Q; b_z : Q; b_r : Q }.

(** [<mesh position={[0, 1.05, 0]}><sphereGeometry args={[0.28, 32, 32]} />] *)
Definition head : Ball := mk_ball 0 (105#100) 0 (28#100).

(** [<mesh position={[0.1, 1.1, 0.22]}><sphereGeometry args={[0.03, 16, 16]} />] *)
Definition eye_right : Ball := mk_ball (1#10) (11#10) (22#100) (3#100).

(** [<mesh position={[-0.1, 1.1, 0.22]}><sphereGeometry args={[0.03, 16, 16]} />] *)
Definition eye_left : Ball := mk_ball (-1#10) (11#10) (22#100) (3#100).

(** [<mesh position={[0, 0.5, 0]}><capsuleGeometry args={[0.2, 0.4, 8, 16]} />]:
    centre height and length of the straight part (the radius is
    [MiniatureWorld.body_radius]). *)
Definition body_y : Q := 5#10.
Definition body_length : Q := 4#10.

Definition dist2 (x y z x' y' z' : Q) : Q := (x - x') * (x - x') + (y - y') * (y - y') + (z - z') * (z - z').

Definition in_ball (x y z : Q) (b : Ball) : Prop := dist2 x y z (b_x b) (b_y b) (b_z b) <= b_r b * b_r b.

Definition strictly_in_ball (x y z : Q) (b : Ball) : Prop := dist2 x y z (b_x b) (b_y b) (b_z b) < b_r b * b_r b.

(** The capsule on the vertical axis: within [body_radius] of
    the segment from [body_y - body_length / 2] to [body_y + body_length / 2]. *)
Definition in_body (x y z : Q) : Prop :=
  exists s, body_y - body_length * (1#2) <= s <= body_y + body_length * (1#2) /\
            dist2 x y z 0 s 0 <= body_radius * body_radius.

(** ** A ball inside another *)

(** Cauchy-Schwarz in three dimensions, from Lagrange's identity. *)
Lemma cauchy_schwarz3 u1 u2 u3 v1 v2 v3 :
  (u1 * v1 + u2 * v2 + u3 * v3) * (u1 * v1 + u2 * v2 + u3 * v3) <=
  (u1 * u1 + u2 * u2 + u3 * u3) * (v1 * v1 + v2 * v2 + v3 * v3).
Proof.
  assert ((u1 * u1 + u2 * u2 + u3 * u3) * (v1 * v1 + v2 * v2 + v3 * v3) -
          (u1 * v1 + u2 * v2 + u3 * v3) * (u1 * v1 + u2 * v2 + u3 * v3) ==
          (u1 * v2 - u2 * v1) * (u1 * v2 - u2 * v1) + (u1 * v3 - u3 * v1) * (u1 * v3 - u3 * v1) +
          (u2 * v3 - u3 * v2) * (u2 * v3 - u3 * v2)) as E by ring.
  assert (forall q, 0 <= q * q) as Sq by (intros q; nra).
  pose proof (Sq (u1 * v2 - u2 * v1)). pose proof (Sq (u1 * v3 - u3 * v1)). pose proof (Sq (u2 * v3 - u3 * v2)).
  generalize dependent ((u1 * u1 + u2 * u2 + u3 * u3) * (v1 * v1 + v2 * v2 + v3 * v3)).
  generalize dependent ((u1 * v1 + u2 * v2 + u3 * v3) * (u1 * v1 + u2 * v2 + u3 * v3)).
  intros. lra.
Qed.

(** A product bounded in square is bounded: [u^2 <= (a d)^2] with
    [a, d >= 0] gives [u <= a d]. *)
Lemma le_of_sq_le u a d : 0 <= a -> 0 <= d -> u * u <= (a * a) * (d * d) -> u <= a * d.
Proof. intros Ha Hd H. assert (0 <= a * d) by nra. nra. Qed.

(** If the centres are at most [D] apart and [r_a + D < r_b], every point
    of the ball [a] is strictly inside the ball [b]. *)
Lemma ball_inside a b D x y z :
  0 <= b_r a -> 0 <= D ->
  dist2 (b_x a) (b_y a) (b_z a) (b_x b) (b_y b) (b_z b) <= D * D -> b_r a + D < b_r b ->
  in_ball x y z a -> strictly_in_ball x y z b.
Proof.
  unfold in_ball, strictly_in_ball, dist2. intros Hra HD Hd Hlt Hp.
  set (u1 := x - b_x a). set (u2 := y - b_y a). set (u3 := z - b_z a).
  set (v1 := b_x a - b_x b). set (v2 := b_y a - b_y b). set (v3 := b_z a - b_z b).
  assert (x - b_x b == u1 + v1) as E1 by (unfold u1, v1; ring).
  assert (y - b_y b == u2 + v2) as E2 by (unfold u2, v2; ring).
  assert (z - b_z b == u3 + v3) as E3 by (unfold u3, v3; ring).
  rewrite E1, E2, E3. fold u1 u2 u3 in Hp. fold v1 v2 v3 in Hd.
  pose proof (cauchy_schwarz3 u1 u2 u3 v1 v2 v3) as CS.
  assert (u1 * v1 + u2 * v2 + u3 * v3 <= b_r a * D) as Hdot.
  { apply le_of_sq_le; [done|done|]. eapply Qle_trans; [exact CS|].
    apply Qmult_le_compat_nonneg; split; (nra || lra). }
  assert (0 <= b_r b) by lra. nra.
Qed.

(** ** The eyes are buried in the head *)

Lemma eye_inside_head e x y z :
  e = eye_left \/ e = eye_right -> in_ball x y z e -> strictly_in_ball x y z head.
Proof.
  intros He. apply (ball_inside e head (247#1000)).
  all: destruct He as [->| ->]; unfold dist2; cbn [b_x b_y b_z b_r head eye_left eye_right];
    apply Qle_bool_imp_le || (vm_compute; reflexivity); reflexivity.
Qed.

(** C36: the characters' eyes cannot be seen: every point of either eye
    (radius 0.03, centre 0.2468 from the head's centre) is strictly inside
    the head (radius 0.28), so the opaque head covers them from any
    viewpoint outside it; the head itself sits on the body, sharing the
    point (0, 0.85, 0) with the capsule. *)
Theorem mw_eyes_inside_head :
  (forall x y z, in_ball x y z eye_left -> strictly_in_ball x y z head) /\
  (forall x y z, in_ball x y z eye_right -> strictly_in_ball x y z head) /\
  in_ball 0 (85#100) 0 head /\ in_body 0 (85#100) 0.
Proof.
  split_and!.
  - intros x y z. apply eye_inside_head. by left.
  - intros x y z. apply eye_inside_head. by right.
  - apply Qle_bool_imp_le. reflexivity.
  - exists (7#10). split_and!; apply Qle_bool_imp_le; reflexivity.
Qed.
