(* ===== verification/Particles.v ===== *)
(** * The particle cloud (src/components/Particles.tsx)

    [Particles] is always mounted by Scene.  It keeps 500 points in a
    [Float32Array] of 1500 coordinates, filled once with
    [(Math.random() - 0.5) * 20] ([useMemo], [init_positions]) and handed
    to the geometry's position attribute: the attribute's array is that
    memoised array itself, so the frame callback mutates it in place and
    the model keeps one array, [p_pos], across frames.

    The [useFrame] callback ([particles_frame]) has two branches: in
    CELEBRATION every point falls by 0.1, sways by [Math.sin(t + i) *
    0.02] and, once below -10, is put back at height 15 with fresh random
    x and z in [-12.5, 12.5) ([shower_loop], the source's index loop over
    the flat array); in any other stage the cloud slowly rotates.  In FINAL
    and CELEBRATION the point size pulses.

    [Math.random] is the stream [rand] with the number of draws made so far
    ([p_rand]); [Math.sin] is the parameter [sin].  Coordinates are
    rationals: the rounding of each write to single precision is not
    modelled.  [shower_ref] is the reference the loop is proved equal to:
    the same update on a list of (x, y, z) points. *)

From S2P Require Import Prelude Stage Anim.
From Stdlib Require Import QArith Qabs Lqa.
Local Open Scope Q_scope.

#[export] Instance Q_inhabited : Inhabited Q := populate 0.

(** [const count = 500] *)
Definition count : nat := 500.

Record PState := mk_pstate {
  p_pos : list Q;        (* the Float32Array, three coordinates per point *)
  p_rot_x : Q;
  p_rot_y : Q;
  p_size : Q;            (* the PointsMaterial's size and opacity *)
  p_opacity : Q;
  p_needs_update : bool;
  p_rand : nat           (* Math.random() draws made so far *)
}.

Definition Qnat (n : nat) : Q := inject_Z (Z.of_nat n).

Section Particles.
Variable rand : nat -> Q.
Variable sin : Q -> Q.

(** The [useMemo] loop: [pos[i*3+k] = (Math.random() - 0.5) * 20] for
    k = 0, 1, 2, in a zero-filled array. *)
Fixpoint init_loop (n i : nat) (pos : list Q) (r : nat) : list Q * nat :=
  match n with
  | O => (pos, r)
  | S n' =>
      let pos := <[(i * 3)%nat := (rand r - (1#2)) * 20]> pos in
      let pos := <[(i * 3 + 1)%nat := (rand (S r) - (1#2)) * 20]> pos in
      let pos := <[(i * 3 + 2)%nat := (rand (S (S r)) - (1#2)) * 20]> pos in
      init_loop n' (S i) pos (S (S (S r)))
  end.

Definition init_positions : list Q * nat := init_loop count 0 (replicate (count * 3)%nat 0) 0.

(** The component at mount: [size={0.2}], [opacity={0.6}], no rotation. *)
Definition particles_init : PState :=
  let '(pos, r) := init_positions in mk_pstate pos 0 0 (2#10) (6#10) false r.

(** The CELEBRATION loop body for point [i], on the flat array. *)
Fixpoint shower_loop (t : Q) (n i : nat) (pos : list Q) (r : nat) : list Q * nat :=
  match n with
  | O => (pos, r)
  | S n' =>
      let pos := <[(i * 3 + 1)%nat := pos !!! ((i * 3 + 1)%nat) - (1#10)]> pos in
      let pos := <[(i * 3)%nat := pos !!! ((i * 3)%nat) + sin (t + Qnat i) * (2#100)]> pos in
      if Qlt_le_dec (pos !!! ((i * 3 + 1)%nat)) (-10)
      then
        let pos := <[(i * 3 + 1)%nat := 15]> pos in
        let pos := <[(i * 3)%nat := (rand r - (1#2)) * 25]> pos in
        let pos := <[(i * 3 + 2)%nat := (rand (S r) - (1#2)) * 25]> pos in
        shower_loop t n' (S i) pos (S (S r))
      else shower_loop t n' (S i) pos r
  end.

(** The [useFrame] callback. *)
Definition particles_frame (s : ExperienceStage) (t : Q) (p : PState) : PState :=
  let p :=
    if decide (s = CELEBRATION) then
      let '(pos, r) := shower_loop t count 0 (p_pos p) (p_rand p) in
      mk_pstate pos (p_rot_x p) (p_rot_y p + (1#100)) (p_size p) (p_opacity p) true r
    else
      mk_pstate (p_pos p) (sin (t * (1#10)) * (1#10)) (t * (5#100)) (p_size p) (p_opacity p)
        (p_needs_update p) (p_rand p) in
  if decide (s = FINAL \/ s = CELEBRATION)
  then mk_pstate (p_pos p) (p_rot_x p) (p_rot_y p) ((4#10) + sin (t * 3) * (15#100)) (8#10)
         (p_needs_update p) (p_rand p)
  else p.

(** Frames in order, each with its stage and time. *)
Definition particles_frames (fs : list (ExperienceStage * Q)) (p : PState) : PState :=
  fold_left (fun p '(s, t) => particles_frame s t p) fs p.

(** ** The reference: the same update on a list of points *)

Definition flatten3 (ps : list (Q * Q * Q)) : list Q := ps ≫= (fun '(x, y, z) => [x; y; z]).

Definition particle_step (t : Q) (i : nat) (p : Q * Q * Q) (r : nat) : (Q * Q * Q) * nat :=
  let '(x, y, z) := p in
  let y1 := y - (1#10) in
  if Qlt_le_dec y1 (-10)
  then (((rand r - (1#2)) * 25, 15, (rand (S r) - (1#2)) * 25), S (S r))
  else ((x + sin (t + Qnat i) * (2#100), y1, z), r).

Fixpoint shower_ref (t : Q) (i : nat) (ps : list (Q * Q * Q)) (r : nat) : list (Q * Q * Q) * nat :=
  match ps with
  | [] => ([], r)
  | p :: ps' =>
      let '(p', r') := particle_step t i p r in
      let '(ps'', r'') := shower_ref t (S i) ps' r' in
      (p' :: ps'', r'')
  end.

(** The reference of the [useMemo] loop: [n] points of three draws each. *)
Fixpoint init_ref (n r : nat) : list (Q * Q * Q) :=
  match n with
  | O => []
  | S n' => ((rand r - (1#2)) * 20, (rand (S r) - (1#2)) * 20, (rand (S (S r)) - (1#2)) * 20)
            :: init_ref n' (S (S (S r)))
  end.

End Particles.

(** What the proofs use of [Math.random]: its values lie in [0, 1). *)
Definition rand_ok (rand : nat -> Q) : Prop := forall n, 0 <= rand n < 1.

(** A point stays in the box the shower needs: its height in [-10, 15],
    its depth in [-12.5, 12.5], and its sideways drift bounded by how far
    it has fallen since its last reset (0.02 per 0.1 of fall). *)
Definition particle_ok (p : Q * Q * Q) : Prop :=
  let '(x, y, z) := p in
  -10 <= y <= 15 /\ - ((25#2) + (15 - y) * (1#5)) <= x <= (25#2) + (15 - y) * (1#5) /\ -(25#2) <= z <= 25#2.

Definition particles_ok (p : PState) : Prop :=
  exists ps, p_pos p = flatten3 ps /\ length ps = count /\ Forall particle_ok ps.

(** The material: the point size stays between the mount value 0.2 and
    the pulse's 0.55, and the opacity is the mount's 0.6 or the pulse's
    0.8. *)
Definition material_ok (p : PState) : Prop :=
  2#10 <= p_size p <= 55#100 /\ (p_opacity p == 6#10 \/ p_opacity p == 8#10).

(** The height of one point after a shower frame: [positions[i * 3 + 1]
    -= 0.1], then back to 15 when it is below -10. *)
Definition fall_y (y : Q) : Q := if Qlt_le_dec (y - (1#10)) (-10) then 15 else y - (1#10).

Fixpoint fall_iter (k : nat) (y : Q) : Q :=
  match k with O => y | S k' => fall_iter k' (fall_y y) end.

(** Frames in CELEBRATION at the times [ts]. *)
Definition shower_frames (ts : list Q) : list (ExperienceStage * Q) := (fun t => (CELEBRATION, t)) <$> ts.

(** ** The flat array as a list of points *)

Lemma flatten3_cons x y z ps : flatten3 ((x, y, z) :: ps) = x :: y :: z :: flatten3 ps.
Proof. reflexivity. Qed.

Lemma flatten3_app ps1 ps2 : flatten3 (ps1 ++ ps2) = flatten3 ps1 ++ flatten3 ps2.
Proof. unfold flatten3. by rewrite bind_app. Qed.

Lemma length_flatten3 ps : length (flatten3 ps) = (length ps * 3)%nat.
Proof. induction ps as [|[[x y] z] ps IH]; simpl; [done|]. rewrite IH. lia. Qed.

(** Reading and writing the three coordinates of point [i]. *)
Section Point.
Context (ps1 : list (Q * Q * Q)) (R : list Q) (x y z : Q).

Lemma point_lookup0 : (flatten3 ps1 ++ x :: y :: z :: R) !!! (length ps1 * 3)%nat = x.
Proof. rewrite lookup_total_app_r; rewrite length_flatten3; [|lia]. by rewrite Nat.sub_diag. Qed.

Lemma point_lookup1 : (flatten3 ps1 ++ x :: y :: z :: R) !!! (length ps1 * 3 + 1)%nat = y.
Proof. rewrite lookup_total_app_r; rewrite length_flatten3; [|lia]. by replace (_ + 1 - _)%nat with 1%nat by lia. Qed.

Lemma point_insert0 a : <[(length ps1 * 3)%nat := a]> (flatten3 ps1 ++ x :: y :: z :: R) =
  flatten3 ps1 ++ a :: y :: z :: R.
Proof. rewrite <- (Nat.add_0_r (length ps1 * 3)), <- length_flatten3. by rewrite insert_app_r. Qed.

Lemma point_insert1 a : <[(length ps1 * 3 + 1)%nat := a]> (flatten3 ps1 ++ x :: y :: z :: R) =
  flatten3 ps1 ++ x :: a :: z :: R.
Proof. rewrite <- length_flatten3. by rewrite insert_app_r. Qed.

Lemma point_insert2 a : <[(length ps1 * 3 + 2)%nat := a]> (flatten3 ps1 ++ x :: y :: z :: R) =
  flatten3 ps1 ++ x :: y :: a :: R.
Proof. rewrite <- length_flatten3. by rewrite insert_app_r. Qed.

End Point.

Lemma point_lookup2 ps1 R x y z : (flatten3 ps1 ++ x :: y :: z :: R) !!! (length ps1 * 3 + 2)%nat = z.
Proof. rewrite lookup_total_app_r; rewrite length_flatten3; [|lia]. by replace (_ + 2 - _)%nat with 2%nat by lia. Qed.

Lemma flatten3_lookup ps i x y z :
  ps !! i = Some (x, y, z) ->
  flatten3 ps !!! (i * 3)%nat = x /\ flatten3 ps !!! (i * 3 + 1)%nat = y /\ flatten3 ps !!! (i * 3 + 2)%nat = z.
Proof.
  intros Hi. rewrite <- (take_drop_middle ps i _ Hi), flatten3_app, flatten3_cons.
  assert (length (take i ps) = i) as Hl by (apply length_take_le; apply lookup_lt_Some in Hi; lia).
  set (L := take i ps) in *.
  replace (i * 3 + 1)%nat with (length L * 3 + 1)%nat by lia.
  replace (i * 3 + 2)%nat with (length L * 3 + 2)%nat by lia.
  replace (i * 3)%nat with (length L * 3)%nat by lia.
  by rewrite point_lookup0, point_lookup1, point_lookup2.
Qed.

Lemma replicate_flatten3 n : replicate (n * 3)%nat 0 = flatten3 (replicate n (0, 0, 0)).
Proof. induction n as [|n IH]; [done|]. by rewrite Nat.mul_succ_l, Nat.add_comm, replicate_add, IH. Qed.

Lemma flatten3_snoc ps1 x y z R : flatten3 ps1 ++ x :: y :: z :: R = flatten3 (ps1 ++ [(x, y, z)]) ++ R.
Proof. rewrite flatten3_app. simpl. by rewrite <- app_assoc. Qed.

Create Rewrite HintDb points.
#[local] Hint Rewrite point_lookup0 point_lookup1 point_insert0 point_insert1 point_insert2 : points.

Section Equiv.
Variable rand : nat -> Q.
Variable sin : Q -> Q.

Lemma shower_loop_ref t ps2 ps1 r :
  shower_loop rand sin t (length ps2) (length ps1) (flatten3 (ps1 ++ ps2)) r =
    let '(ps2', r') := shower_ref rand sin t (length ps1) ps2 r in (flatten3 (ps1 ++ ps2'), r').
Proof.
  revert ps1 r. induction ps2 as [|[[x y] z] ps2 IH]; intros ps1 r; [done|].
  cbn [length shower_loop shower_ref particle_step].
  rewrite flatten3_app, flatten3_cons. autorewrite with points.
  destruct (Qlt_le_dec (y - (1#10)) (-10)); autorewrite with points;
    rewrite flatten3_snoc, <- flatten3_app;
    match goal with |- context [flatten3 ((ps1 ++ [?p]) ++ ps2)] =>
      replace (S (length ps1)) with (length (ps1 ++ [p])) by (rewrite length_app; simpl; lia) end;
    rewrite IH; cbn zeta;
    match goal with |- context [shower_ref ?a ?b ?c ?d ?e ?f] => destruct (shower_ref a b c d e f) end;
    by rewrite <- app_assoc.
Qed.

Lemma init_loop_ref ps2 ps1 r :
  init_loop rand (length ps2) (length ps1) (flatten3 (ps1 ++ ps2)) r =
    (flatten3 (ps1 ++ init_ref rand (length ps2) r), (r + length ps2 * 3)%nat).
Proof.
  revert ps1 r. induction ps2 as [|[[x y] z] ps2 IH]; intros ps1 r; [by rewrite Nat.add_0_r|].
  cbn [length init_loop init_ref].
  rewrite flatten3_app, flatten3_cons. autorewrite with points.
  rewrite flatten3_snoc, <- flatten3_app.
  match goal with |- context [flatten3 ((ps1 ++ [?p]) ++ ps2)] =>
    replace (S (length ps1)) with (length (ps1 ++ [p])) by (rewrite length_app; simpl; lia) end.
  rewrite IH, <- app_assoc. f_equal. lia.
Qed.

Lemma shower_ref_length t i ps r : length (shower_ref rand sin t i ps r).1 = length ps.
Proof.
  revert i r. induction ps as [|p ps IH]; intros i r; [done|]. cbn [shower_ref].
  destruct (particle_step rand sin t i p r) as [p' r'].
  specialize (IH (S i) r'). destruct (shower_ref rand sin t (S i) ps r'). simpl in *. by rewrite IH.
Qed.

Context (Hrand : rand_ok rand) (Hsin : sin_ok sin).

Lemma particle_step_ok t i p r : particle_ok p -> particle_ok (particle_step rand sin t i p r).1.
Proof.
  destruct p as [[x y] z]. intros (Hy & Hx & Hz). cbn [particle_step].
  destruct (Qlt_le_dec (y - (1#10)) (-10)) as [Hlt|Hle]; cbn [fst particle_ok].
  - pose proof (Hrand r). pose proof (Hrand (S r)). repeat split; lra.
  - pose proof (Hsin (t + Qnat i)). repeat split; lra.
Qed.

Lemma shower_ref_ok t i ps r : Forall particle_ok ps -> Forall particle_ok (shower_ref rand sin t i ps r).1.
Proof.
  revert i r. induction ps as [|p ps IH]; intros i r Hps; [done|]. inversion Hps as [|? ? Hp Hps']; subst.
  cbn [shower_ref]. pose proof (particle_step_ok t i p r Hp).
  destruct (particle_step rand sin t i p r) as [p' r'].
  specialize (IH (S i) r' Hps'). destruct (shower_ref rand sin t (S i) ps r'). simpl in *. by constructor.
Qed.

Lemma init_ref_ok n r : Forall particle_ok (init_ref rand n r).
Proof.
  revert r. induction n as [|n IH]; intros r; constructor; [|apply IH].
  pose proof (Hrand r). pose proof (Hrand (S r)). pose proof (Hrand (S (S r))).
  cbn [particle_ok]. repeat split; lra.
Qed.

Lemma shower_loop_count t ps r :
  length ps = count ->
  shower_loop rand sin t count 0 (flatten3 ps) r =
    (flatten3 (shower_ref rand sin t 0 ps r).1, (shower_ref rand sin t 0 ps r).2).
Proof.
  intros Hl. pose proof (shower_loop_ref t ps [] r) as H. rewrite Hl in H. cbn [length app] in H.
  rewrite H. by destruct (shower_ref rand sin t 0 ps r).
Qed.

Lemma particles_frame_ok s t p : particles_ok p -> particles_ok (particles_frame rand sin s t p).
Proof.
  intros (ps & Hpos & Hl & Hf). unfold particles_frame.
  destruct (decide (s = CELEBRATION)).
  - rewrite Hpos, shower_loop_count by done.
    set (res := shower_ref rand sin t 0 ps (p_rand p)).
    assert (particles_ok (mk_pstate (flatten3 res.1) (p_rot_x p) (p_rot_y p + (1#100)) (p_size p)
              (p_opacity p) true res.2)) as Hq.
    { exists res.1. split_and!; [done| |by apply shower_ref_ok]. unfold res. by rewrite shower_ref_length. }
    cbv beta iota zeta. case_decide; [|done]. destruct Hq as (ps' & ? & ? & ?). by exists ps'.
  - cbv beta iota zeta. case_decide; by exists ps.
Qed.

Lemma particles_init_ok : particles_ok (particles_init rand).
Proof.
  unfold particles_init, init_positions.
  pose proof (init_loop_ref (replicate count (0, 0, 0)) [] 0) as H.
  rewrite length_replicate in H. cbn [length app] in H. rewrite <- replicate_flatten3 in H.
  rewrite H. exists (init_ref rand count 0). split_and!; [done| |apply init_ref_ok].
  clear. generalize 0%nat. induction count as [|n IH]; intros r; [done|]. simpl. by rewrite IH.
Qed.

(** One shower frame moves the height of each point as [fall_y]. *)
Lemma particle_step_y t i x y z r : (particle_step rand sin t i (x, y, z) r).1.1.2 = fall_y y.
Proof. unfold particle_step, fall_y. by destruct (Qlt_le_dec (y - (1#10)) (-10)). Qed.

Lemma shower_ref_y t i ps r j x y z :
  ps !! j = Some (x, y, z) ->
  exists x' z', (shower_ref rand sin t i ps r).1 !! j = Some (x', fall_y y, z').
Proof.
  revert i r j. induction ps as [|p ps IH]; intros i r j Hj; [done|]. cbn [shower_ref].
  destruct j as [|j]; cbn in Hj.
  - injection Hj as ->. pose proof (particle_step_y t i x y z r) as Hy.
    destruct (particle_step rand sin t i (x, y, z) r) as [[[x1 y1] z1] r1].
    destruct (shower_ref rand sin t (S i) ps r1). cbn in *. subst y1. by exists x1, z1.
  - destruct (particle_step rand sin t i p r) as [p1 r1].
    destruct (IH (S i) r1 j Hj) as (x' & z' & H).
    destruct (shower_ref rand sin t (S i) ps r1). cbn in *. by exists x', z'.
Qed.

(** A CELEBRATION frame on the flat array moves the height of point [i]
    as [fall_y] (through the equivalence with the reference). *)
Lemma celebration_frame_y t p ps i x y z :
  p_pos p = flatten3 ps -> length ps = count -> ps !! i = Some (x, y, z) ->
  exists ps' x' z', p_pos (particles_frame rand sin CELEBRATION t p) = flatten3 ps' /\
    length ps' = count /\ ps' !! i = Some (x', fall_y y, z').
Proof.
  intros Hpos Hl Hi. unfold particles_frame. destruct (decide (CELEBRATION = CELEBRATION)); [|done].
  rewrite Hpos, shower_loop_count by done. cbv beta iota zeta. case_decide; [|tauto].
  destruct (shower_ref_y t 0 ps (p_rand p) i x y z Hi) as (x' & z' & Hy').
  exists (shower_ref rand sin t 0 ps (p_rand p)).1, x', z'. split_and!; [done| |done].
  by rewrite shower_ref_length.
Qed.

Lemma celebration_frames_y ts p ps i x y z k :
  p_pos p = flatten3 ps -> length ps = count -> ps !! i = Some (x, y, z) -> (k <= length ts)%nat ->
  exists ps' x' z', p_pos (particles_frames rand sin (take k (shower_frames ts)) p) = flatten3 ps' /\
    ps' !! i = Some (x', fall_iter k y, z').
Proof.
  revert p ps x y z k. induction ts as [|t ts IH]; intros p ps x y z k Hpos Hl Hi Hk.
  - assert (k = 0%nat) as -> by (simpl in Hk; lia). by exists ps, x, z.
  - destruct k as [|k]; [by exists ps, x, z|].
    destruct (celebration_frame_y t p ps i x y z Hpos Hl Hi) as (ps1 & x1 & z1 & H1 & Hl1 & Hi1).
    apply (IH _ ps1 x1 (fall_y y) z1 k H1 Hl1 Hi1). simpl in Hk. lia.
Qed.

End Equiv.

Lemma particles_frames_ok rand sin fs p :
  rand_ok rand -> sin_ok sin -> particles_ok p -> particles_ok (particles_frames rand sin fs p).
Proof.
  intros Hr Hs. revert p. induction fs as [|[s t] fs IH]; intros p Hp; [done|].
  apply IH. by apply particles_frame_ok.
Qed.

Lemma particles_frame_material rand sin s t p :
  sin_ok sin -> material_ok p ->
  material_ok (particles_frame rand sin s t p) /\
  ((s = FINAL \/ s = CELEBRATION) -> 1#4 <= p_size (particles_frame rand sin s t p) /\
     p_opacity (particles_frame rand sin s t p) == 8#10).
Proof.
  intros Hs Hm. specialize (Hs (t * 3)). unfold particles_frame.
  destruct (decide (s = CELEBRATION)) as [->|Hc];
    [destruct (shower_loop rand sin t count 0 (p_pos p) (p_rand p))|];
    (destruct (decide (_ \/ _)) as [Hf|Hf];
     [cbn [p_size p_opacity]; unfold material_ok; cbn [p_size p_opacity]; split_and!; try lra; by right
     |split; [done|tauto]]).
Qed.

Lemma particles_frames_material rand sin fs p :
  sin_ok sin -> material_ok p -> material_ok (particles_frames rand sin fs p).
Proof.
  intros Hs. revert p. induction fs as [|[s t] fs IH]; intros p Hp; [done|].
  apply IH. by apply particles_frame_material.
Qed.

(** ** Properties *)

(** C15: the loop of the source, which walks the flat [Float32Array] by
    indices [i * 3], [i * 3 + 1], [i * 3 + 2], computes the same points
    and the same number of [Math.random] draws as the point-by-point
    reference [shower_ref], for an array of any number of points. *)
Theorem particles_shower_equiv rand sin t ps r :
  shower_loop rand sin t (length ps) 0 (flatten3 ps) r =
    (flatten3 (shower_ref rand sin t 0 ps r).1, (shower_ref rand sin t 0 ps r).2).
Proof.
  pose proof (shower_loop_ref rand sin t ps [] r) as H. cbn [length app] in H.
  rewrite H. by destruct (shower_ref rand sin t 0 ps r).
Qed.

(** C16: whatever the stages and times of the frames, every point of the
    cloud stays in the box |x| <= 17.5, -10 <= y <= 15, |z| <= 12.5, and
    the array keeps its 1500 coordinates, provided [Math.random] returns
    values in [0, 1) and [Math.sin] values in [-1, 1]. *)
Theorem particles_stay_in_box rand sin fs :
  rand_ok rand -> sin_ok sin ->
  let p := particles_frames rand sin fs (particles_init rand) in
  length (p_pos p) = (count * 3)%nat /\
  forall i, (i < count)%nat ->
    -10 <= p_pos p !!! (i * 3 + 1)%nat <= 15 /\
    -(35#2) <= p_pos p !!! (i * 3)%nat <= 35#2 /\
    -(25#2) <= p_pos p !!! (i * 3 + 2)%nat <= 25#2.
Proof.
  intros Hr Hs. cbn zeta.
  destruct (particles_frames_ok rand sin fs _ Hr Hs (particles_init_ok rand Hr)) as (ps & -> & Hl & Hf).
  split; [by rewrite length_flatten3, Hl|]. intros i Hi.
  destruct (lookup_lt_is_Some_2 ps i) as [[[x y] z] Hxyz]; [lia|].
  destruct (flatten3_lookup ps i x y z Hxyz) as (-> & -> & ->).
  eapply Forall_lookup_1 in Hf; [|exact Hxyz]. destruct Hf as (Hy & Hx & Hz).
  repeat split; lra.
Qed.

Lemma particles_stay_in_box_witness :
  let p := particles_frames (fun _ => 1#2) (fun _ => 0) [(WORLD, 1); (CELEBRATION, 2)]
             (particles_init (fun _ => 1#2)) in
  length (p_pos p) = (count * 3)%nat /\
  forall i, (i < count)%nat ->
    -10 <= p_pos p !!! (i * 3 + 1)%nat <= 15 /\
    -(35#2) <= p_pos p !!! (i * 3)%nat <= 35#2 /\
    -(25#2) <= p_pos p !!! (i * 3 + 2)%nat <= 25#2.
Proof.
  apply particles_stay_in_box.
  - intros n. split; apply Qle_bool_imp_le || (apply Qlt_alt; reflexivity); reflexivity.
  - intros x. split; apply Qle_bool_imp_le; reflexivity.
Defined.

(** A height in [-10, -10 + n / 10] is back at 15 after at most [n + 1]
    frames. *)
Lemma fall_iter_reset n y :
  -10 <= y -> y <= -10 + Qnat n * (1#10) -> exists k, (1 <= k <= S n)%nat /\ fall_iter k y = 15.
Proof.
  revert y. induction n as [|n IH]; intros y H0 H1.
  - exists 1%nat. split; [lia|]. cbn [fall_iter]. unfold fall_y.
    change (Qnat 0) with (0#1) in H1. destruct (Qlt_le_dec _ _); [done|lra].
  - destruct (Qlt_le_dec (y - (1#10)) (-10)) as [Hlt|Hge].
    + exists 1%nat. split; [lia|]. cbn [fall_iter]. unfold fall_y. by destruct (Qlt_le_dec _ _); [|lra].
    + assert (Qnat (S n) == Qnat n + 1) as HS
        by (unfold Qnat; rewrite Nat2Z.inj_succ, <- Z.add_1_r, inject_Z_plus; reflexivity).
      destruct (IH (y - (1#10))) as (k & Hk & Hr); [lra|rewrite HS in H1; lra|].
      exists (S k). split; [lia|]. cbn [fall_iter].
      assert (fall_y y = y - (1#10)) as -> by (unfold fall_y; by destruct (Qlt_le_dec _ _); [lra|]).
      done.
Qed.

(** C17: the shower never strands a point: from any state of the cloud
    in its box, within any 251 consecutive CELEBRATION frames the loop of
    Particles.tsx puts every point back at height 15 at least once (its
    height falls 0.1 per frame from at most 15 and is reset below -10). *)
Theorem particle_reset_within rand sin ts p i :
  particles_ok p -> length ts = 251%nat -> (i < count)%nat ->
  exists k, (1 <= k <= 251)%nat /\
    p_pos (particles_frames rand sin (take k (shower_frames ts)) p) !!! (i * 3 + 1)%nat = 15.
Proof.
  intros (ps & Hpos & Hl & Hf) Hts Hi.
  destruct (lookup_lt_is_Some_2 ps i) as [[[x y] z] Hxyz]; [lia|].
  eapply Forall_lookup_1 in Hf as Hp; [|exact Hxyz]. destruct Hp as ([Hy0 Hy1] & _).
  destruct (fall_iter_reset 250 y) as (k & Hk & Hr); [done|change (Qnat 250) with (250#1); lra|].
  destruct (celebration_frames_y rand sin ts p ps i x y z k Hpos Hl Hxyz) as (ps' & x' & z' & H & Hi');
    [lia|].
  exists k. split; [lia|]. rewrite H. destruct (flatten3_lookup ps' i x' _ z' Hi') as (_ & -> & _). done.
Qed.

Lemma particle_reset_within_witness :
  exists k, (1 <= k <= 251)%nat /\
    p_pos (particles_frames (fun _ => 1#2) (fun _ => 0) (take k (shower_frames (repeat 0 251)))
             (particles_init (fun _ => 1#2))) !!! (0 * 3 + 1)%nat = 15.
Proof.
  apply particle_reset_within; [|reflexivity|vm_compute; lia].
  apply particles_init_ok. intros n. split; [apply Qle_bool_imp_le|apply Qlt_alt]; reflexivity.
Defined.

(** C35: the points' material stays sane through any frames: the size is
    between 0.2 and 0.55 (never zero or negative) and the opacity is 0.6
    or 0.8; a frame in FINAL or CELEBRATION sets the opacity to 0.8 and
    the size to at least 0.25, given [Math.sin] in [-1, 1]. *)
Theorem particles_material_bounds rand sin fs s t :
  sin_ok sin ->
  let p := particles_frames rand sin fs (particles_init rand) in
  material_ok p /\
  ((s = FINAL \/ s = CELEBRATION) -> 1#4 <= p_size (particles_frame rand sin s t p) /\
     p_opacity (particles_frame rand sin s t p) == 8#10).
Proof.
  intros Hs p. assert (material_ok p) as Hp.
  { apply particles_frames_material; [done|]. unfold particles_init.
    destruct init_positions. split; [split; apply Qle_bool_imp_le; reflexivity|by left]. }
  split; [done|]. by apply particles_frame_material.
Qed.

Lemma particles_material_bounds_witness :
  let p := particles_frames (fun _ => 1#2) (fun _ => 1) [(FINAL, 1)] (particles_init (fun _ => 1#2)) in
  material_ok p /\
  ((CELEBRATION = FINAL \/ CELEBRATION = CELEBRATION) ->
     1#4 <= p_size (particles_frame (fun _ => 1#2) (fun _ => 1) CELEBRATION 2 p) /\
     p_opacity (particles_frame (fun _ => 1#2) (fun _ => 1) CELEBRATION 2 p) == 8#10).
Proof. apply particles_material_bounds. intros x. split; apply Qle_bool_imp_le; reflexivity. Defined.
