(* ===== verification/App.v ===== *)
(** * The page (src/App.tsx) composed with its components

    [World] is the whole page state: the shared timer queue, the React
    hooks of every mounted component ([Hooks]), what React remembers of the
    passive effects at the last commit ([Effects]: their dependency lists
    and the cleanup each returned), SoundController's field, the browser
    environment, and the uncaught exceptions reported to the console.

    One input of [step] is one task of the browser's event loop:

    - a click or pointer event, routed by [dispatch] to the handler the
      current render attaches at that target (nothing happens when no
      element with a handler receives the event);
    - [Tick]: the earliest timer fires and its callback runs;
    - [Wait d]: time passes, never beyond the next due timer.

    After the handler or callback, [commit] does what React does when it
    re-renders: unmounted gift-box instances lose their [hovered] hook, and
    each effect whose dependencies changed has its cleanup run and its body
    re-run (all cleanups first, the child [UIOverlay] before [App], then
    all bodies in the same order).  State updates are applied when the
    setter is called: no handler of the program reads the state after
    setting it (they read the props of the render they were created in),
    so this agrees with React's batched updates.

    An exception escaping a handler or callback is reported
    ([w_errors]); the updates made before it stay, as they do in React 18
    and in the HTML timer algorithm. *)

From S2P Require Import Prelude Stage Timers Dom Sound GiftBox Overlay Scene.
From Stdlib Require Import QArith.
Local Close Scope Q_scope.
Local Open Scope js_scope.
#[local] Set Warnings "-abstract-large-number".

(** ** State *)

(** The callbacks of App's own timers: [() => setStage(target)]. *)
Inductive AppTask := StageTimer (target : ExperienceStage).

(** Every callback the page hands to the timer queue. *)
Inductive Task :=
| AppT (t : AppTask)
| OverlayT (t : OverlayTask)
| SoundT (t : SoundTask).

Inductive AppHandler := StartClick.

#[export] Instance AppHandler_eq_dec : EqDecision AppHandler.
Proof. solve_decision. Defined.

(** The hooks: App's [stage] and [hasStarted], UIOverlay's [msgIndex],
    and the [hovered] hook of each gift-box slot of Scene. *)
Record Hooks := mk_hooks {
  stage : ExperienceStage;
  hasStarted : bool;
  msgIndex : nat;
  hovered : bool;
  hovered_open : bool
}.

(** React's memory of the two passive effects. *)
Record Effects := mk_effects {
  app_deps : ExperienceStage;
  app_cleanup : option nat;
  overlay_deps_at : ExperienceStage * nat;
  overlay_cleanup_id : option nat
}.

Record World := mk_world {
  w_sched : sched Task;
  w_hooks : Hooks;
  w_effects : Effects;
  w_sound : SoundSt;
  w_env : AudioEnv;
  w_errors : list Exn
}.

Definition set_sched (q : sched Task) (w : World) : World :=
  mk_world q (w_hooks w) (w_effects w) (w_sound w) (w_env w) (w_errors w).
Definition set_hooks (h : Hooks) (w : World) : World :=
  mk_world (w_sched w) h (w_effects w) (w_sound w) (w_env w) (w_errors w).
Definition set_effects (e : Effects) (w : World) : World :=
  mk_world (w_sched w) (w_hooks w) e (w_sound w) (w_env w) (w_errors w).
Definition set_sound_w (x : SoundSt) (w : World) : World :=
  mk_world (w_sched w) (w_hooks w) (w_effects w) x (w_env w) (w_errors w).
Definition add_error (e : Exn) (w : World) : World :=
  mk_world (w_sched w) (w_hooks w) (w_effects w) (w_sound w) (w_env w) (w_errors w ++ [e]).

(** The page as React mounts it: stage START, no timers.  The mount-time
    run of both effects arms nothing in START, so the effects' memory
    already holds START. *)
Definition world_init (env : AudioEnv) : World :=
  mk_world sched_init (mk_hooks START false 0 false false)
    (mk_effects START None (overlay_deps START) None) sound_init env [].

(** ** The interfaces the components use, for the page *)

#[export] Instance world_sound_host : SoundHost World := {|
  sound_of := w_sound;
  set_sound := set_sound_w;
  audio_env := w_env;
  host_now w := sc_now (w_sched w);
  host_set_timer d p t w := set_sched (sched_add d p (SoundT t) (w_sched w)).1 w
|}.

#[export] Instance world_sound_host_laws : SoundHostLaws World.
Proof. split; reflexivity. Qed.

Definition world_set_timer {T} (inj : T -> Task) (d : nat) (p : option nat) (t : T) : JS World nat :=
  fun w => let qi := sched_add d p (inj t) (w_sched w) in (set_sched qi.1 w, Ok qi.2).

Definition world_clear_timer (id : nat) : JS World unit :=
  js_modify (fun w => set_sched (sched_cancel id (w_sched w)) w).

#[export] Instance world_overlay_timers : TimerHost World OverlayTask := {|
  setTimeout d t := world_set_timer OverlayT d None t;
  setInterval d t := world_set_timer OverlayT d (Some d) t;
  clearTimer := world_clear_timer
|}.

#[export] Instance world_app_timers : TimerHost World AppTask := {|
  setTimeout d t := world_set_timer AppT d None t;
  setInterval d t := world_set_timer AppT d (Some d) t;
  clearTimer := world_clear_timer
|}.

(** ** The hooks' setters *)

Definition update_hooks (f : Hooks -> Hooks) : JS World unit :=
  js_modify (fun w => set_hooks (f (w_hooks w)) w).

Definition with_stage (s : ExperienceStage) (h : Hooks) : Hooks :=
  mk_hooks s (hasStarted h) (msgIndex h) (hovered h) (hovered_open h).

(** [setStage(value)] and [setStage(prev => ...)]. *)
Definition setStage (s : ExperienceStage) : JS World unit := update_hooks (with_stage s).
Definition updateStage (f : ExperienceStage -> ExperienceStage) : JS World unit :=
  update_hooks (fun h => with_stage (f (stage h)) h).

Definition setHasStarted (b : bool) : JS World unit :=
  update_hooks (fun h => mk_hooks (stage h) b (msgIndex h) (hovered h) (hovered_open h)).
Definition setMsgIndex (f : nat -> nat) : JS World unit :=
  update_hooks (fun h => mk_hooks (stage h) (hasStarted h) (f (msgIndex h)) (hovered h) (hovered_open h)).
Definition setHovered (b : bool) : JS World unit :=
  update_hooks (fun h => mk_hooks (stage h) (hasStarted h) (msgIndex h) b (hovered_open h)).
Definition setHoveredOpen (b : bool) : JS World unit :=
  update_hooks (fun h => mk_hooks (stage h) (hasStarted h) (msgIndex h) (hovered h) b).

(** ** App's code *)

Definition startExperience : JS World unit :=
  setHasStarted true ;;
  setStage GIFT_BOX ;;
  playBackground.

Definition nextStage : JS World unit := updateStage next_stage.

(** The body of [useEffect(..., [stage])]; the result is the id its
    cleanup clears ([None]: the body returned no cleanup). *)
Definition app_effect (s : ExperienceStage) : JS World (option nat) :=
  if decide (s = OPENING) then (id <- setTimeout 3500 (StageTimer WORLD) ;; js_ret (Some id))
  else if decide (s = WORLD) then (id <- setTimeout 6000 (StageTimer FINAL) ;; js_ret (Some id))
  else js_ret None.

Definition app_effect_cleanup (c : option nat) : JS World unit :=
  match c with Some id => clearTimer (T := AppTask) id | None => js_ret tt end.

Definition run_app_task (t : AppTask) : JS World unit :=
  match t with StageTimer s => setStage s end.

(** The start overlay, rendered while [!hasStarted]. *)
Definition app_dom (started : bool) : option (Node AppHandler) :=
  if started then None else Some (
  Elem ["absolute"; "inset-0"; "z-50"; "flex"; "flex-col"; "items-center"; "justify-center";
        "bg-white/90"; "backdrop-blur-sm"; "transition-opacity"; "duration-1000"] None [
    Elem ["text-center"; "p-8"; "space-y-6"] None [
      Elem ["text-4xl"; "md:text-6xl"; "font-love"; "text-rose-500"; "animate-pulse"] None
        [Text "A Special Surprise for My Love"];
      Elem ["text-rose-400"; "font-light"; "max-w-md"; "mx-auto"; "text-lg"] None
        [Text "Please turn on your sound for the full magical experience."];
      Elem ["px-10"; "py-4"; "bg-rose-500"; "text-white"; "rounded-full"; "text-xl"; "font-bold";
            "hover:bg-rose-600"; "transition-all"; "hover:scale-105"; "active:scale-95";
            "shadow-xl"; "shadow-rose-200"; "pointer-events-auto"] (Some StartClick)
        [Text "Open Your Surprise 💝"]]]).

Definition app_reachable (started : bool) : list AppHandler :=
  match app_dom started with Some n => reachable_handlers true n | None => [] end.

(** The [OrbitControls] props that depend on the stage. *)
Definition orbit_enableZoom (s : ExperienceStage) : bool :=
  bool_decide (s = WORLD \/ s = FINAL \/ s = CELEBRATION).
Definition orbit_autoRotate (s : ExperienceStage) : bool :=
  bool_decide (s = GIFT_BOX \/ s = FINAL \/ s = CELEBRATION).

(** ** React's commit *)

Definition set_app_effect (deps : ExperienceStage) (c : option nat) : JS World unit :=
  js_modify (fun w => let e := w_effects w in
    set_effects (mk_effects deps c (overlay_deps_at e) (overlay_cleanup_id e)) w).

Definition set_overlay_effect (deps : ExperienceStage * nat) (c : option nat) : JS World unit :=
  js_modify (fun w => let e := w_effects w in
    set_effects (mk_effects (app_deps e) (app_cleanup e) deps c) w).

(** A gift-box slot that the new render leaves empty is unmounted: its
    [hovered] hook is gone, and a later mount starts from [false]. *)
Definition unmount_boxes : JS World unit :=
  update_hooks (fun h =>
    mk_hooks (stage h) (hasStarted h) (msgIndex h)
      (if decide (stage h = GIFT_BOX) then hovered h else false)
      (if decide (stage h = OPENING) then hovered_open h else false)).

Definition commit : JS World unit :=
  unmount_boxes ;;
  w <- js_get ;;
  let s := stage (w_hooks w) in
  let e := w_effects w in
  let ov_changed := bool_decide (overlay_deps s <> overlay_deps_at e) in
  let app_changed := bool_decide (s <> app_deps e) in
  (if ov_changed then overlay_cleanup (overlay_cleanup_id e) else js_ret tt) ;;
  (if app_changed then app_effect_cleanup (app_cleanup e) else js_ret tt) ;;
  (if ov_changed then (c <- overlay_effect s ;; set_overlay_effect (overlay_deps s) c) else js_ret tt) ;;
  (if app_changed then (c <- app_effect s ;; set_app_effect s c) else js_ret tt).

(** ** Inputs and the step function *)

Inductive Input :=
| ClickStart       (* a click on the start button's place *)
| ClickBox         (* a click on the gift box's place *)
| ClickYes         (* a click on the "Yes" button's place *)
| PointerOverBox
| PointerOutBox
| Tick             (* the earliest timer fires *)
| Wait (d : nat).  (* d ms pass, stopping at the next due timer *)

Definition box_setter (slot : BoxSlot) : bool -> JS World unit :=
  match slot with FloatSlot => setHovered | OpenSlot => setHoveredOpen end.

Definition page_scene (h : Hooks) : list (SceneChild World) :=
  scene_children (stage h) nextStage.

(** The handler the current render attaches where the event lands. *)
Definition dispatch (i : Input) : JS World unit :=
  w <- js_get ;;
  let h := w_hooks w in
  match i with
  | ClickStart =>
      if bool_decide (StartClick ∈ app_reachable (hasStarted h)) then startExperience else js_ret tt
  | ClickBox =>
      match mounted_giftbox (page_scene h) with Some (_, p) => handleClick p | None => js_ret tt end
  | ClickYes =>
      if bool_decide (YesClick ∈ overlay_reachable (stage h) (msgIndex h))
      then handleYesClick setStage else js_ret tt
  | PointerOverBox =>
      match mounted_giftbox (page_scene h) with
      | Some (slot, p) => handlePointerOver (box_setter slot) p
      | None => js_ret tt
      end
  | PointerOutBox =>
      match mounted_giftbox (page_scene h) with
      | Some (slot, _) => handlePointerOut (box_setter slot)
      | None => js_ret tt
      end
  | Tick | Wait _ => js_ret tt
  end.

Definition run_task (t : Task) : JS World unit :=
  match t with
  | AppT a => run_app_task a
  | OverlayT o => run_overlay_task setMsgIndex o
  | SoundT s => run_sound_task s
  end.

Definition report (r : Res unit) (w : World) : World :=
  match r with Ok _ => w | Throw e => add_error e w end.

(** Run a handler or callback, report what escapes it, then commit. *)
Definition handle (m : JS World unit) (w : World) : World :=
  let '(w', r) := m w in js_exec commit (report r w').

Definition step (i : Input) (w : World) : World :=
  match i with
  | Tick =>
      match sched_pop (w_sched w) with
      | Some (t, q) => handle (run_task (tm_task t)) (set_sched q w)
      | None => w
      end
  | Wait d => set_sched (sched_wait d (w_sched w)) w
  | _ => handle (dispatch i) w
  end.

Definition run (l : list Input) (w : World) : World := fold_left (fun w i => step i w) l w.
