(* ===== verification/AppFacts.v ===== *)
(** * What each part of the page touches

    Frame lemmas for the page model of App.v: SoundController's operations
    change only the audio state and add sound timers ([sound_frame]); the
    hook setters change only the hooks ([rest_frame]); the timer interface
    adds or removes timers of the caller's kind only.  The invariant proofs
    of AppInv.v are assembled from these. *)

From S2P Require Import Prelude Stage Timers Dom Sound GiftBox Overlay Scene App.
From Stdlib Require Import QArith.
Local Close Scope Q_scope.
Local Open Scope js_scope.

(** ** Kinds of timers *)

Definition is_sound_task (t : Task) : Prop := match t with SoundT _ => True | _ => False end.
Definition is_app_task (t : Task) : Prop := match t with AppT _ => True | _ => False end.
Definition is_overlay_task (t : Task) : Prop := match t with OverlayT _ => True | _ => False end.

#[export] Instance is_sound_task_dec t : Decision (is_sound_task t).
Proof. destruct t; simpl; apply _. Defined.
#[export] Instance is_app_task_dec t : Decision (is_app_task t).
Proof. destruct t; simpl; apply _. Defined.
#[export] Instance is_overlay_task_dec t : Decision (is_overlay_task t).
Proof. destruct t; simpl; apply _. Defined.

Definition page_timers (q : sched Task) : list (timer Task) :=
  timers_with (fun t => ~ is_sound_task t) q.
Definition app_timers (q : sched Task) : list (timer Task) := timers_with is_app_task q.
Definition ov_timers (q : sched Task) : list (timer Task) := timers_with is_overlay_task q.

Lemma app_timers_page q : app_timers q = filter (fun t => is_app_task (tm_task t)) (page_timers q).
Proof.
  unfold app_timers, page_timers, timers_with. symmetry.
  apply filter_filter_sub. intros t. destruct (tm_task t); simpl; tauto.
Qed.

Lemma ov_timers_page q : ov_timers q = filter (fun t => is_overlay_task (tm_task t)) (page_timers q).
Proof.
  unfold ov_timers, page_timers, timers_with. symmetry.
  apply filter_filter_sub. intros t. destruct (tm_task t); simpl; tauto.
Qed.

(** ** Frames *)

(** Everything but the hooks, the audio state, the sound timers and the
    error log is unchanged, and the queue stays well formed. *)
Definition rest_frame (w w' : World) : Prop :=
  w_effects w' = w_effects w /\ w_env w' = w_env w /\
  sc_now (w_sched w') = sc_now (w_sched w) /\
  page_timers (w_sched w') = page_timers (w_sched w) /\
  (sched_wf (w_sched w) -> sched_wf (w_sched w')).

Definition sound_frame (w w' : World) : Prop := w_hooks w' = w_hooks w /\ rest_frame w w'.

#[export] Instance rest_frame_preorder : PreOrder rest_frame.
Proof.
  split.
  - intros w. unfold rest_frame. naive_solver.
  - intros w1 w2 w3 (?&?&?&?&?) (?&?&?&?&?). unfold rest_frame. split_and!; try congruence; tauto.
Qed.

#[export] Instance sound_frame_preorder : PreOrder sound_frame.
Proof.
  split.
  - intros w. split; [done|reflexivity].
  - intros w1 w2 w3 [? ?] [? ?]. split; [congruence|by etrans].
Qed.

Lemma sound_frame_rest w w' : sound_frame w w' -> rest_frame w w'.
Proof. by intros [_ ?]. Qed.

(** ** SoundController touches only its own state *)

Lemma update_sound_frame f : js_rel sound_frame (update_sound (St := World) f).
Proof. intros w. split; [done|]. unfold rest_frame. naive_solver. Qed.

Lemma set_timer_frame d p t : js_rel sound_frame (set_timer (St := World) d p t).
Proof.
  intros w. split; [done|]. split_and!; try done; simpl.
  - unfold page_timers. apply timers_with_add_other. simpl. tauto.
  - apply sched_add_wf.
Qed.

Lemma new_AudioContext_frame : js_rel sound_frame (new_AudioContext (St := World)).
Proof. intros w. unfold new_AudioContext. destruct (has_AudioContext _); reflexivity. Qed.

Lemma math_random_call_frame : js_rel sound_frame (math_random_call (St := World)).
Proof. intros w. split; [done|]. unfold rest_frame. naive_solver. Qed.

#[export] Hint Resolve update_sound_frame set_timer_frame new_AudioContext_frame
  math_random_call_frame : vd.

Lemma init_frame : js_rel sound_frame (init (St := World)).
Proof. unfold init. js_rel_tac. Qed.

#[export] Hint Resolve init_frame : vd.

Lemma playTone_frame f ty d v : js_rel sound_frame (playTone (St := World) f ty d v).
Proof. unfold playTone. js_rel_tac. Qed.

#[export] Hint Resolve playTone_frame : vd.

Lemma schedule_sparkles_frame i ts : js_rel sound_frame (schedule_sparkles (St := World) i ts).
Proof. revert i; induction ts; intros i; simpl; js_rel_tac. Qed.

#[export] Hint Resolve schedule_sparkles_frame : vd.

Lemma sound_ops_frame :
  js_rel sound_frame (playPop (St := World)) /\ js_rel sound_frame (playBoop (St := World)) /\
  js_rel sound_frame (playSparkle (St := World)) /\ js_rel sound_frame (playBackground (St := World)) /\
  (forall t, js_rel sound_frame (run_sound_task (St := World) t)).
Proof.
  split_and!; [unfold playPop|unfold playBoop|unfold playSparkle|unfold playBackground|
               intros []; unfold run_sound_task]; js_rel_tac.
Qed.

(** ** The hook setters touch only the hooks *)

Lemma update_hooks_run f w : update_hooks f w = (set_hooks (f (w_hooks w)) w, Ok tt).
Proof. reflexivity. Qed.

Lemma update_hooks_rest f : js_rel rest_frame (update_hooks f).
Proof. intros w. unfold rest_frame. naive_solver. Qed.

Lemma sound_rest {A} (m : JS World A) : js_rel sound_frame m -> js_rel rest_frame m.
Proof. apply js_rel_mono, sound_frame_rest. Qed.

#[export] Hint Resolve update_hooks_rest : vd.

Lemma sound_ops_rest :
  js_rel rest_frame (playPop (St := World)) /\ js_rel rest_frame (playBoop (St := World)) /\
  js_rel rest_frame (playSparkle (St := World)) /\ js_rel rest_frame (playBackground (St := World)) /\
  (forall t, js_rel rest_frame (run_sound_task (St := World) t)).
Proof.
  destruct sound_ops_frame as (?&?&?&?&?). split_and!; try by apply sound_rest.
  intros t. by apply sound_rest.
Qed.

Lemma playPop_rest : js_rel rest_frame (playPop (St := World)).
Proof. apply sound_ops_rest. Qed.
Lemma playBoop_rest : js_rel rest_frame (playBoop (St := World)).
Proof. apply sound_ops_rest. Qed.
Lemma playSparkle_rest : js_rel rest_frame (playSparkle (St := World)).
Proof. apply sound_ops_rest. Qed.
Lemma playBackground_rest : js_rel rest_frame (playBackground (St := World)).
Proof. apply sound_ops_rest. Qed.

#[export] Hint Resolve playPop_rest playBoop_rest playSparkle_rest playBackground_rest : vd.

(** Every handler the page attaches keeps the rest of the page. *)
Lemma dispatch_rest i : js_rel rest_frame (dispatch i).
Proof.
  unfold dispatch. apply js_rel_get. intros w. unfold page_scene. rewrite mounted_giftbox_stage.
  destruct i; simpl; js_rel_tac;
    unfold startExperience, nextStage, handleClick, handleYesClick, handlePointerOver,
      handlePointerOut, box_setter, setStage, updateStage, setHasStarted, setHovered, setHoveredOpen in *;
    js_rel_tac.
Qed.

(** ** The hooks after a SoundController call *)

Lemma sound_hooks {A} (m : JS World A) w w' r :
  js_rel sound_frame m -> m w = (w', r) -> w_hooks w' = w_hooks w.
Proof. intros Hm Heq. by destruct (js_rel_at _ _ _ _ _ Hm Heq). Qed.

(** ** The hooks after each handler *)

Lemma js_bind_fst {S A B} (m : JS S A) (k : A -> JS S B) s :
  fst (js_bind m k s) = match m s with (s', Ok a) => fst (k a s') | (s', Throw _) => s' end.
Proof. unfold js_bind. by destruct (m s) as [? []]. Qed.

Lemma startExperience_hooks w :
  w_hooks (fst (startExperience w)) =
    mk_hooks GIFT_BOX true (msgIndex (w_hooks w)) (hovered (w_hooks w)) (hovered_open (w_hooks w)).
Proof.
  unfold startExperience, setHasStarted, setStage.
  repeat (rewrite js_bind_fst || rewrite update_hooks_run; simpl).
  match goal with |- context [playBackground ?w'] => destruct (playBackground w') as [w1 r] eqn:E end.
  simpl.
  rewrite (sound_hooks _ _ _ _ (proj1 (proj2 (proj2 (proj2 sound_ops_frame)))) E). done.
Qed.

Lemma handleYesClick_hooks w :
  w_hooks (fst (handleYesClick setStage w)) = with_stage CELEBRATION (w_hooks w).
Proof.
  unfold handleYesClick, setStage. rewrite js_bind_fst, update_hooks_run. simpl.
  rewrite js_bind_fst.
  match goal with |- context [playSparkle ?w'] => destruct (playSparkle w') as [w1 [[]|e]] eqn:E end;
    pose proof (sound_hooks _ _ _ _ (proj1 (proj2 (proj2 sound_ops_frame))) E) as H1; simpl;
    [|by rewrite H1].
  destruct (playPop w1) as [w2 r] eqn:E2. simpl.
  rewrite (sound_hooks _ _ _ _ (proj1 sound_ops_frame) E2), H1. done.
Qed.

Lemma handleClick_box_hooks w :
  let h := w_hooks w in
  let h' := w_hooks (fst (handleClick (mk_giftbox_props (Some nextStage) false) w)) in
  h' = h \/ h' = with_stage (next_stage (stage h)) h.
Proof.
  simpl. unfold handleClick. simpl. rewrite js_bind_fst.
  destruct (playPop w) as [w1 [[]|e]] eqn:E;
    pose proof (sound_hooks _ _ _ _ (proj1 sound_ops_frame) E) as H1; [|by left].
  rewrite js_bind_fst.
  destruct (playSparkle w1) as [w2 [[]|e]] eqn:E2;
    pose proof (sound_hooks _ _ _ _ (proj1 (proj2 (proj2 sound_ops_frame))) E2) as H2;
    [|left; simpl; congruence].
  right. unfold nextStage, updateStage. rewrite update_hooks_run. simpl. by rewrite H2, H1.
Qed.

Lemma handlePointerOver_box_hooks w :
  w_hooks (fst (handlePointerOver setHovered (mk_giftbox_props (Some nextStage) false) w)) =
    mk_hooks (stage (w_hooks w)) (hasStarted (w_hooks w)) (msgIndex (w_hooks w)) true
      (hovered_open (w_hooks w)).
Proof.
  unfold handlePointerOver, setHovered. simpl. rewrite js_bind_fst, update_hooks_run.
  match goal with |- context [playBoop ?w'] => destruct (playBoop w') as [w1 r] eqn:E end.
  simpl.
  by rewrite (sound_hooks _ _ _ _ (proj1 (proj2 sound_ops_frame)) E).
Qed.

(** ** React's commit keeps the hooks the sequencer reads *)

Definition commit_rel (w w' : World) : Prop :=
  stage (w_hooks w') = stage (w_hooks w) /\ hasStarted (w_hooks w') = hasStarted (w_hooks w) /\
  msgIndex (w_hooks w') = msgIndex (w_hooks w) /\
  w_sound w' = w_sound w /\ w_env w' = w_env w /\ w_errors w' = w_errors w /\
  sc_now (w_sched w') = sc_now (w_sched w).

#[export] Instance commit_rel_preorder : PreOrder commit_rel.
Proof.
  split; [intros w; unfold commit_rel; naive_solver|].
  intros w1 w2 w3 (?&?&?&?&?&?&?) (?&?&?&?&?&?&?). unfold commit_rel. split_and!; congruence.
Qed.

Lemma world_set_timer_commit_rel {T} (inj : T -> Task) d p t : js_rel commit_rel (world_set_timer inj d p t).
Proof. intros w. unfold commit_rel. naive_solver. Qed.

#[export] Hint Resolve world_set_timer_commit_rel : vd.

Lemma commit_keeps : js_rel commit_rel commit.
Proof.
  unfold commit, unmount_boxes, update_hooks, overlay_cleanup, app_effect_cleanup, overlay_effect,
    app_effect, set_overlay_effect, set_app_effect, clearTimer, setInterval, setTimeout,
    world_clear_timer.
  js_rel_tac; unfold commit_rel; simpl; repeat split.
Qed.

Lemma report_hooks r w : w_hooks (report r w) = w_hooks w.
Proof. by destruct r. Qed.

Lemma handle_hooks m w :
  let h := w_hooks (fst (m w)) in let h' := w_hooks (handle m w) in
  stage h' = stage h /\ hasStarted h' = hasStarted h /\ msgIndex h' = msgIndex h.
Proof.
  unfold handle. destruct (m w) as [w1 r]. simpl.
  destruct (commit_keeps (report r w1)) as (? & ? & ? & _). rewrite report_hooks in *. done.
Qed.

Lemma handle_stage m w : stage (w_hooks (handle m w)) = stage (w_hooks (fst (m w))).
Proof. apply handle_hooks. Qed.
