(* ===== verification/AppInv.v ===== *)
(** * The page invariant: stage, hooks, effects and timers agree

    [page_inv] is what holds after every commit of every reachable page:

    - the timer queue is well formed;
    - [hasStarted] is false exactly in START; only the clickable gift box
      can be hovered, and the opened one never is;
    - React's memory of both effects is the current stage;
    - [stage_timers_ok]: the App timers and the overlay interval pending
      are exactly those the effects armed for the current stage (one
      3500 ms timeout to WORLD in OPENING; one 6000 ms timeout to FINAL and
      the 3500 ms message interval in WORLD; none otherwise), each with the
      id its cleanup clears, and [msgIndex] is 0 before WORLD, at most 1
      after it, and in WORLD tied to the two due times: either the
      interval has not fired yet (and is due 2500 ms before the stage
      timeout) or it has fired once (and is next due 1000 ms after it).

    [commit_spec] is the heart of the proof: from the state a handler or a
    callback leaves, React's commit restores the invariant, either because
    the stage did not change, or because the cleanups remove every timer
    of the old stage and the bodies arm those of the new one. *)

From S2P Require Import Prelude Stage Timers Dom Sound GiftBox Overlay Scene App AppFacts.
From Stdlib Require Import QArith.
Local Close Scope Q_scope.
Local Open Scope js_scope.
#[local] Set Warnings "-abstract-large-number".

(** ** The invariant *)

Definition stage_timers_ok (s : ExperienceStage) (e : Effects) (msg : nat) (q : sched Task) : Prop :=
  match s with
  | START | GIFT_BOX =>
      app_timers q = [] /\ app_cleanup e = None /\
      ov_timers q = [] /\ overlay_cleanup_id e = None /\ msg = 0
  | OPENING =>
      (exists id d, app_timers q = [mk_timer id d None (AppT (StageTimer WORLD))] /\ app_cleanup e = Some id) /\
      ov_timers q = [] /\ overlay_cleanup_id e = None /\ msg = 0
  | WORLD =>
      exists ida da ido dov,
      app_timers q = [mk_timer ida da None (AppT (StageTimer FINAL))] /\ app_cleanup e = Some ida /\
      ov_timers q = [mk_timer ido dov (Some 3500) (OverlayT MsgTick)] /\ overlay_cleanup_id e = Some ido /\
      ((msg = 0 /\ dov + 2500 = da) \/ (msg = 1 /\ dov = da + 1000))
  | FINAL | CELEBRATION =>
      app_timers q = [] /\ app_cleanup e = None /\
      ov_timers q = [] /\ overlay_cleanup_id e = None /\ msg <= 1
  end.

Definition hooks_ok (h : Hooks) : Prop :=
  (hasStarted h = false <-> stage h = START) /\
  (hovered h = true -> stage h = GIFT_BOX) /\
  hovered_open h = false.

Record page_inv (w : World) : Prop := {
  inv_wf : sched_wf (w_sched w);
  inv_hooks : hooks_ok (w_hooks w);
  inv_app_deps : app_deps (w_effects w) = stage (w_hooks w);
  inv_ov_deps : overlay_deps_at (w_effects w) = overlay_deps (stage (w_hooks w));
  inv_timers : stage_timers_ok (stage (w_hooks w)) (w_effects w) (msgIndex (w_hooks w)) (w_sched w)
}.

(** What a stage needs of [msgIndex] when it is entered. *)
Definition msg_entry_ok (s : ExperienceStage) (msg : nat) : Prop :=
  match s with
  | FINAL | CELEBRATION => msg <= 1
  | _ => msg = 0
  end.

(** Every pending App timer and overlay interval is one the recorded
    cleanups clear. *)
Definition cleanup_covers (e : Effects) (q : sched Task) : Prop :=
  Forall (fun t => app_cleanup e = Some (tm_id t)) (app_timers q) /\
  Forall (fun t => overlay_cleanup_id e = Some (tm_id t)) (ov_timers q).

(** The state a handler or callback leaves before React commits. *)
Definition pre_commit (w : World) : Prop :=
  let h := w_hooks w in let e := w_effects w in let q := w_sched w in
  sched_wf q /\
  (hasStarted h = false <-> stage h = START) /\ hovered_open h = false /\
  overlay_deps_at e = overlay_deps (app_deps e) /\
  ((stage h = app_deps e /\ stage_timers_ok (stage h) e (msgIndex h) q) \/
   (stage h <> app_deps e /\ cleanup_covers e q /\ msg_entry_ok (stage h) (msgIndex h))).

(** ** Timers of each kind under the queue operations *)

Lemma app_timers_add_app d p a q :
  app_timers (sched_add d p (AppT a) q).1 = app_timers q ++ [mk_timer (sc_next q) (sc_now q + d) p (AppT a)].
Proof. apply timers_with_add_same. exact I. Qed.

Lemma app_timers_add_ov d p a q : app_timers (sched_add d p (OverlayT a) q).1 = app_timers q.
Proof. apply timers_with_add_other. simpl. tauto. Qed.

Lemma ov_timers_add_ov d p a q :
  ov_timers (sched_add d p (OverlayT a) q).1 = ov_timers q ++ [mk_timer (sc_next q) (sc_now q + d) p (OverlayT a)].
Proof. apply timers_with_add_same. exact I. Qed.

Lemma ov_timers_add_app d p a q : ov_timers (sched_add d p (AppT a) q).1 = ov_timers q.
Proof. apply timers_with_add_other. simpl. tauto. Qed.

Lemma app_timers_cancel id q : app_timers (sched_cancel id q) = filter (fun t => tm_id t <> id) (app_timers q).
Proof. apply timers_with_cancel. Qed.

Lemma ov_timers_cancel id q : ov_timers (sched_cancel id q) = filter (fun t => tm_id t <> id) (ov_timers q).
Proof. apply timers_with_cancel. Qed.

(** Cancelling the id every timer of a list has empties it. *)
Lemma filter_covered (l : list (timer Task)) (c : option nat) id :
  Forall (fun t => c = Some (tm_id t)) l -> c = Some id -> filter (fun t => tm_id t <> id) l = [].
Proof.
  induction 1 as [|t l Ht _ IH]; intros Hc; [done|].
  rewrite filter_cons_False by congruence. by apply IH.
Qed.

Lemma filter_covered_none (l : list (timer Task)) (c : option nat) :
  Forall (fun t => c = Some (tm_id t)) l -> c = None -> l = [].
Proof. destruct 1; congruence. Qed.

Lemma stage_timers_covers s e msg q : stage_timers_ok s e msg q -> cleanup_covers e q.
Proof.
  unfold cleanup_covers.
  destruct s; simpl; intros H; break_hyps;
  repeat match goal with H : ?l = _ |- context [?l] => rewrite H end;
  split; repeat constructor; congruence.
Qed.

Create Rewrite HintDb timers.
#[export] Hint Rewrite app_timers_add_app app_timers_add_ov ov_timers_add_ov ov_timers_add_app
  app_timers_cancel ov_timers_cancel : timers.

(** ** React's commit restores the invariant *)

Definition unmount_hooks (h : Hooks) : Hooks :=
  mk_hooks (stage h) (hasStarted h) (msgIndex h)
    (if decide (stage h = GIFT_BOX) then hovered h else false)
    (if decide (stage h = OPENING) then hovered_open h else false).

Lemma overlay_deps_inj s t : overlay_deps s = overlay_deps t <-> s = t.
Proof. unfold overlay_deps. split; [by intros [= ->]|by intros ->]. Qed.

Lemma commit_same w :
  stage (w_hooks w) = app_deps (w_effects w) ->
  overlay_deps_at (w_effects w) = overlay_deps (app_deps (w_effects w)) ->
  js_exec commit w = set_hooks (unmount_hooks (w_hooks w)) w.
Proof.
  intros Hs Hov. unfold commit, js_exec. cbn.
  rewrite Hov, <- Hs, !bool_decide_false by tauto. reflexivity.
Qed.

Lemma hooks_ok_unmount h :
  (hasStarted h = false <-> stage h = START) -> hovered_open h = false -> hooks_ok (unmount_hooks h).
Proof.
  intros Hst Ho. unfold hooks_ok, unmount_hooks; simpl. split_and!; [done| |].
  - by case_decide.
  - by case_decide.
Qed.

Lemma sched_add_fst_now {A} d p (a : A) q : sc_now (sched_add d p a q).1 = sc_now q.
Proof. done. Qed.
Lemma sched_add_snd {A} d p (a : A) q : (sched_add d p a q).2 = sc_next q.
Proof. done. Qed.
Lemma sched_cancel_now {A} id (q : sched A) : sc_now (sched_cancel id q) = sc_now q.
Proof. done. Qed.
Lemma sched_cancel_next {A} id (q : sched A) : sc_next (sched_cancel id q) = sc_next q.
Proof. done. Qed.

Lemma sched_add_fst_next {A} d p (a : A) q : sc_next (sched_add d p a q).1 = S (sc_next q).
Proof. done. Qed.

#[export] Hint Rewrite @sched_add_fst_now @sched_add_snd @sched_cancel_now @sched_cancel_next
  @sched_add_fst_next : timers.

Lemma filter2_nil_inner {A} (P Q : A -> Prop) `{!forall x, Decision (P x)} `{!forall x, Decision (Q x)} l :
  filter P l = [] -> filter Q (filter P l) = [].
Proof. intros ->. apply filter_nil. Qed.

Lemma filter2_nil_outer {A} (P Q : A -> Prop) `{!forall x, Decision (P x)} `{!forall x, Decision (Q x)} l :
  filter Q l = [] -> filter Q (filter P l) = [].
Proof. intros Hq. rewrite filter_comm, Hq. apply filter_nil. Qed.

(** Rewrite the lists of timers of each kind down to what the hypotheses
    say of them. *)
Ltac timers_simpl :=
  autorewrite with timers;
  repeat match goal with
  | H : ?l = [] |- context [?l] => rewrite H
  | H : filter ?P ?l = [] |- context [filter _ (filter ?P ?l)] => rewrite (filter2_nil_inner _ _ _ H)
  | H : filter ?P ?l = [] |- context [filter ?P (filter _ ?l)] => rewrite (filter2_nil_outer _ _ _ H)
  | H : filter ?P ?l = [] |- context [filter ?P ?l] => rewrite H
  end; rewrite ?filter_nil; simpl.

Ltac unfold_commit :=
  unfold overlay_effect, app_effect, overlay_cleanup, app_effect_cleanup, set_overlay_effect,
    set_app_effect, js_bind, js_ret, js_get, js_modify, setInterval, setTimeout, clearTimer,
    world_set_timer, world_clear_timer; decide_stages; cbn -[sched_add sched_cancel].

Lemma commit_changed_result w :
  stage (w_hooks w) <> app_deps (w_effects w) ->
  overlay_deps_at (w_effects w) = overlay_deps (app_deps (w_effects w)) ->
  cleanup_covers (w_effects w) (w_sched w) -> sched_wf (w_sched w) ->
  msg_entry_ok (stage (w_hooks w)) (msgIndex (w_hooks w)) ->
  let w' := js_exec commit w in
  w_hooks w' = unmount_hooks (w_hooks w) /\
  app_deps (w_effects w') = stage (w_hooks w) /\
  overlay_deps_at (w_effects w') = overlay_deps (stage (w_hooks w)) /\
  sched_wf (w_sched w') /\
  stage_timers_ok (stage (w_hooks w)) (w_effects w') (msgIndex (w_hooks w)) (w_sched w').
Proof.
  intros Hs Hov [Happ Hovt] Hwf Hmsg. unfold commit, js_exec. cbn.
  assert (overlay_deps (stage (w_hooks w)) <> overlay_deps (app_deps (w_effects w))) as Hov'
    by (rewrite overlay_deps_inj; done).
  rewrite Hov, !(bool_decide_true _ Hov'), !(bool_decide_true _ Hs).
  assert (app_timers (w_sched w) = [] \/ exists ia, app_cleanup (w_effects w) = Some ia /\
            filter (fun t => tm_id t <> ia) (app_timers (w_sched w)) = []) as Ha.
  { destruct (app_cleanup (w_effects w)) as [ia|] eqn:E; [right; exists ia; split; [done|]|left].
    - by apply (filter_covered _ (Some ia)).
    - by apply (filter_covered_none _ None). }
  assert (ov_timers (w_sched w) = [] \/ exists io, overlay_cleanup_id (w_effects w) = Some io /\
            filter (fun t => tm_id t <> io) (ov_timers (w_sched w)) = []) as Ho.
  { destruct (overlay_cleanup_id (w_effects w)) as [io|] eqn:E; [right; exists io; split; [done|]|left].
    - by apply (filter_covered _ (Some io)).
    - by apply (filter_covered_none _ None). }
  destruct (overlay_cleanup_id (w_effects w)) as [ido|] eqn:Hido;
  destruct (app_cleanup (w_effects w)) as [ida|] eqn:Hida;
  destruct (stage (w_hooks w)) eqn:Hst; unfold_commit;
  destruct Ha as [Ha|[ia [[= <-] Ha]]]; destruct Ho as [Ho|[io [[= <-] Ho]]];
  try discriminate;
  (refine (conj _ (conj _ (conj _ (conj _ _))));
   [unfold unmount_hooks; rewrite Hst; decide_stages; reflexivity|done|done|
    repeat first [apply sched_add_wf | apply sched_cancel_wf]; assumption|]);
  timers_simpl;
  simpl in Hmsg; repeat first [reflexivity | eexists | split]; try (left; split); lia.
Qed.

(** React's commit turns the state any handler or callback leaves into
    one satisfying the page invariant. *)
Lemma commit_spec w : pre_commit w -> page_inv (js_exec commit w).
Proof.
  intros (Hwf & Hst & Hho & Hov & [[Hs Htm] | (Hs & Hcov & Hmsg)]).
  - rewrite commit_same by congruence. split; simpl; [done|by apply hooks_ok_unmount|congruence|congruence|done].
  - destruct (commit_changed_result w Hs Hov Hcov Hwf Hmsg) as (Hh & Had & Hod & Hwf' & Htm).
    split; rewrite ?Hh; simpl; [done|by apply hooks_ok_unmount|done|done|done].
Qed.

Lemma stage_timers_ok_transport s e m q q' :
  page_timers q' = page_timers q -> stage_timers_ok s e m q -> stage_timers_ok s e m q'.
Proof.
  intros Hp. assert (app_timers q' = app_timers q /\ ov_timers q' = ov_timers q) as [Ha Ho].
  { by rewrite !app_timers_page, !ov_timers_page, Hp. }
  destruct s; simpl; rewrite Ha, Ho; done.
Qed.

Lemma cleanup_covers_transport e q q' :
  page_timers q' = page_timers q -> cleanup_covers e q -> cleanup_covers e q'.
Proof.
  intros Hp. unfold cleanup_covers. by rewrite !app_timers_page, !ov_timers_page, Hp.
Qed.

(** A handler that keeps React's effect memory and the page's timers, and
    changes the hooks in a way the invariant allows, leaves a state ready
    for the commit. *)
Lemma pre_commit_intro w w1 :
  page_inv w ->
  w_effects w1 = w_effects w -> page_timers (w_sched w1) = page_timers (w_sched w) ->
  sched_wf (w_sched w1) ->
  msgIndex (w_hooks w1) = msgIndex (w_hooks w) -> hovered_open (w_hooks w1) = false ->
  (hasStarted (w_hooks w1) = false <-> stage (w_hooks w1) = START) ->
  stage (w_hooks w1) = stage (w_hooks w) \/ msg_entry_ok (stage (w_hooks w1)) (msgIndex (w_hooks w)) ->
  pre_commit w1.
Proof.
  intros [Hwf Hh Had Hod Htm] He Hp Hwf1 Hm Ho Hst Hs.
  split_and!; [done|done|done|rewrite He, Had; congruence|].
  destruct (decide (stage (w_hooks w1) = stage (w_hooks w))) as [Heq|Hne].
  - left. rewrite He, Had. split; [done|]. rewrite Heq, Hm.
    by eapply stage_timers_ok_transport.
  - right. rewrite He, Had. split; [done|]. split.
    + eapply cleanup_covers_transport; [done|]. by eapply stage_timers_covers.
    + destruct Hs as [?|Hs]; [done|]. by rewrite Hm.
Qed.

(** Reporting an exception does not touch what the commit reads. *)
Lemma pre_commit_report r w : pre_commit w -> pre_commit (report r w).
Proof. destruct r; done. Qed.

Lemma page_inv_report r w : page_inv w -> page_inv (report r w).
Proof. destruct r; [done|]. intros []; by split. Qed.

(** ** User events *)

Lemma app_reachable_eq started : app_reachable started = if started then [] else [StartClick].
Proof. by destruct started. Qed.

Lemma stage_timers_msg s e m q : stage_timers_ok s e m q -> m <= 1.
Proof. destruct s; simpl; intros; break_hyps; lia. Qed.

Lemma elem_of_singleton_self {A} (x : A) : x ∈ [x].
Proof. by apply list_elem_of_singleton. Qed.

(** Close the goals of [dispatch_hooks] once the new hooks are known. *)
Ltac hooks_close :=
  simpl; refine (conj _ (conj _ (conj _ _))); try reflexivity; try assumption;
  try (left; reflexivity); try tauto;
  try (split; intros Hc; discriminate Hc);
  try (match goal with H : _ = false <-> _ |- _ => rewrite H end; split; intros Hc; discriminate Hc);
  try (match goal with H : stage_timers_ok _ _ _ _ |- _ => simpl in H end; right; simpl; lia);
  try (split; intros Hc; [|discriminate Hc];
       match goal with H : _ = false <-> _ |- _ => apply H in Hc end; congruence).

(** The hooks a user event leaves: the message index and the opened
    box's hook are kept, [hasStarted] still tells START apart, and the
    stage either stays or moves to one [msgIndex] allows. *)
Lemma dispatch_hooks w i :
  page_inv w ->
  let h := w_hooks w in let h' := w_hooks (fst (dispatch i w)) in
  msgIndex h' = msgIndex h /\ hovered_open h' = false /\
  (hasStarted h' = false <-> stage h' = START) /\
  (stage h' = stage h \/ msg_entry_ok (stage h') (msgIndex h)).
Proof.
  intros [Hwf Hhk Had Hod Htm]. pose proof (stage_timers_msg _ _ _ _ Htm) as Hm.
  cbn zeta. unfold dispatch. rewrite js_bind_fst. cbn [js_get]. unfold page_scene.
  rewrite mounted_giftbox_stage, app_reachable_eq, overlay_reachable_eq.
  pose proof (startExperience_hooks w) as Hs1. pose proof (handleYesClick_hooks w) as Hs2.
  pose proof (handleClick_box_hooks w) as Hs3. pose proof (handlePointerOver_box_hooks w) as Hs4.
  destruct (w_hooks w) as [s st m hv ho] eqn:Hh; unfold hooks_ok in Hhk; simpl in *.
  destruct Hhk as (Hst & Hhv & ->).
  destruct i; cbn [fst js_ret].
  - destruct st.
    + try rewrite bool_decide_false by apply not_elem_of_nil. cbn [fst js_ret]. rewrite Hh. hooks_close.
    + rewrite bool_decide_true by apply elem_of_singleton_self. rewrite Hs1.
      assert (s = START) as -> by tauto. simpl in Htm. hooks_close.
  - destruct s; simpl; try (rewrite Hh; hooks_close).
    destruct Hs3 as [-> | ->]; hooks_close.
  - destruct (decide (s = START)) as [->|Hne]; simpl.
    + try rewrite bool_decide_false by apply not_elem_of_nil. cbn [fst js_ret]. rewrite Hh. hooks_close.
    + try rewrite bool_decide_true by apply elem_of_singleton_self. rewrite Hs2. hooks_close.

  - destruct s; simpl; try (rewrite Hh; hooks_close). rewrite Hs4. hooks_close.
  - destruct s; simpl; try (rewrite Hh; hooks_close).
  - rewrite Hh. hooks_close.
  - rewrite Hh. hooks_close.
Qed.

Lemma dispatch_pre_commit w i : page_inv w -> pre_commit (fst (dispatch i w)).
Proof.
  intros Hinv. destruct (dispatch_hooks w i Hinv) as (Hm & Ho & Hs & Hst).
  destruct (js_rel_at _ _ _ _ (snd (dispatch i w)) (dispatch_rest i) (surjective_pairing _))
    as (He & _ & _ & Hp & Hwf).
  eapply pre_commit_intro; eauto. apply Hwf, Hinv.
Qed.

Lemma handle_inv m w : pre_commit (fst (m w)) -> page_inv (handle m w).
Proof. unfold handle. destruct (m w) as [w' r]. simpl. intros H. apply commit_spec, pre_commit_report, H. Qed.

(** ** Timers firing *)

Lemma pop_other_kinds w t q :
  sched_wf (w_sched w) -> sched_pop (w_sched w) = Some (t, q) ->
  (~ is_app_task (tm_task t) -> app_timers q = app_timers (w_sched w)) /\
  (~ is_overlay_task (tm_task t) -> ov_timers q = ov_timers (w_sched w)) /\
  (is_sound_task (tm_task t) -> page_timers q = page_timers (w_sched w)).
Proof.
  intros Hwf Hpop. split_and!; intros Ht; eapply timers_with_pop_other; eauto.
Qed.

(** A stage timeout fires: the stage it sets is the one after the current
    stage, and its cleanup has nothing left to clear. *)
Lemma fire_app_pre_commit w t q target :
  page_inv w -> sched_pop (w_sched w) = Some (t, q) -> tm_task t = AppT (StageTimer target) ->
  pre_commit (fst (run_task (tm_task t) (set_sched q w))) /\
  (stage (w_hooks w) = OPENING /\ target = WORLD \/ stage (w_hooks w) = WORLD /\ target = FINAL).
Proof.
  intros [Hwf (Hst & Hhov & Hho) Had Hod Htm] Hpop Ht.
  destruct (pop_other_kinds w t q Hwf Hpop) as (_ & Hov & _).
  rewrite Ht in Hov. specialize (Hov ltac:(simpl; tauto)).
  pose proof (sched_pop_spec _ _ _ Hpop) as (Hin & _ & _ & _ & _).
  assert (t ∈ app_timers (w_sched w)) as Hint.
  { apply timers_with_elem; [done|]. by rewrite Ht. }
  pose proof (timers_with_pop_same is_app_task _ _ _ Hpop ltac:(by rewrite Ht)) as Hq.
  fold (app_timers q) (app_timers (w_sched w)) in Hq.
  (* only OPENING and WORLD have a stage timeout pending *)
  assert (exists id d, (stage (w_hooks w) = OPENING /\ target = WORLD \/
                        stage (w_hooks w) = WORLD /\ target = FINAL) /\
          t = mk_timer id d None (AppT (StageTimer target)) /\
          app_timers (w_sched w) = [t] /\ app_cleanup (w_effects w) = Some id /\
          msg_entry_ok target (msgIndex (w_hooks w))) as (id & d & Hst' & -> & Happ & Hcl & Hmsg).
  { destruct (stage (w_hooks w)); simpl in Htm; break_hyps;
      match goal with H : app_timers _ = _ |- _ => rewrite H in Hint end;
      try (by apply not_elem_of_nil in Hint);
      apply list_elem_of_singleton in Hint; subst t; simpl in Ht; injection Ht as <-;
      do 2 eexists; (split; [tauto|]); split_and!; try done; simpl; lia. }
  rewrite Happ in Hq. simpl in Hq. rewrite filter_cons_False in Hq by tauto.
  simpl in Hq. simpl. unfold pre_commit. simpl.
  assert (cleanup_covers (w_effects w) q) as Hcov.
  { destruct (stage_timers_covers _ _ _ _ Htm) as [_ Hc]. split; [by rewrite Hq|by rewrite Hov]. }
  split_and!; [eapply sched_pop_wf; eauto| |done|by rewrite Hod, Had| |
               exact Hst'].
  - rewrite Hst. destruct Hst' as [[-> ->]|[-> ->]]; split; intros Hc; discriminate Hc.
  - right. rewrite Had. split_and!; [by destruct Hst' as [[-> ->]|[-> ->]]|done|done].
Qed.

Lemma timers_with_pending P `{!forall a, Decision (P a)} (q : sched Task) t :
  t ∈ timers_with P q -> t ∈ sc_pending q.
Proof. by intros [_ ?]%list_elem_of_filter. Qed.

(** The message interval fires: only in WORLD, and only while [msgIndex]
    is 0, because the interval's second run would be due 1000 ms after the
    stage timeout that leaves WORLD. *)
Lemma fire_overlay_pre_commit w t q :
  page_inv w -> sched_pop (w_sched w) = Some (t, q) -> tm_task t = OverlayT MsgTick ->
  pre_commit (fst (run_task (tm_task t) (set_sched q w))) /\
  stage (w_hooks w) = WORLD /\ msgIndex (w_hooks w) = 0.
Proof.
  intros [Hwf (Hst & Hhov & Hho) Had Hod Htm] Hpop Ht.
  destruct (pop_other_kinds w t q Hwf Hpop) as (Happ & _ & _).
  rewrite Ht in Happ. specialize (Happ ltac:(simpl; tauto)).
  pose proof (sched_pop_spec _ _ _ Hpop) as (Hin & Hmin & _ & _ & _).
  assert (t ∈ ov_timers (w_sched w)) as Hint.
  { apply timers_with_elem; [done|]. by rewrite Ht. }
  pose proof (timers_with_pop_same is_overlay_task _ _ _ Hpop ltac:(by rewrite Ht)) as Hq.
  fold (ov_timers q) (ov_timers (w_sched w)) in Hq.
  destruct (stage (w_hooks w)) eqn:Hs; simpl in Htm; break_hyps;
    match goal with H : ov_timers _ = _ |- _ => rewrite H in Hint end;
    try (by apply not_elem_of_nil in Hint).
  apply list_elem_of_singleton in Hint. subst t.
  rename x into ida, x0 into da, x1 into ido, x2 into dov.
  (* the stage timeout is pending, so the interval is due no later *)
  assert (dov <= da).
  { assert (mk_timer ida da None (AppT (StageTimer FINAL)) ∈ sc_pending (w_sched w)) as Ha.
    { eapply (timers_with_pending is_app_task). fold (app_timers (w_sched w)).
      match goal with H : app_timers _ = _ |- _ => rewrite H end. by apply elem_of_singleton_self. }
    eapply Forall_forall in Hmin; [|exact Ha]. simpl in Hmin. lia. }
  match goal with H : ov_timers (w_sched w) = _ |- _ => rewrite H in Hq end.
  rewrite filter_cons_False in Hq by tauto. simpl in Hq.
  assert (msgIndex (w_hooks w) = 0 /\ dov + 2500 = da) as [Hm0 Hd] by lia.
  split_and!; [|done|done].
  simpl. unfold pre_commit. simpl. split_and!; [eapply sched_pop_wf; eauto|by rewrite Hs|done|by rewrite Hod, Had|].
  left. rewrite Had, Hs. split; [done|]. simpl.
  exists ida, da, ido, (dov + 3500). split_and!; try done; [congruence|].
  right. unfold msg_next. rewrite Hm0. simpl. lia.
Qed.

(** A SoundController callback fires: nothing the page's invariant talks
    about changes. *)
Lemma fire_sound_pre_commit w t q st :
  page_inv w -> sched_pop (w_sched w) = Some (t, q) -> tm_task t = SoundT st ->
  pre_commit (fst (run_task (tm_task t) (set_sched q w))).
Proof.
  intros Hinv Hpop Ht. pose proof Hinv as [Hwf (Hst & Hhov & Hho) Had Hod Htm].
  destruct (pop_other_kinds w t q Hwf Hpop) as (_ & _ & Hp).
  rewrite Ht in Hp |- *. specialize (Hp I). simpl.
  destruct (run_sound_task st (set_sched q w)) as [w1 r] eqn:E. simpl.
  destruct (js_rel_at _ _ _ _ _ (proj2 (proj2 (proj2 (proj2 sound_ops_frame))) st) E)
    as (Hh & He & _ & _ & Hp1 & Hwf1).
  eapply pre_commit_intro; [exact Hinv|done|simpl in Hp1; congruence| | | | |].
  - apply Hwf1. eapply sched_pop_wf; eauto.
  - by rewrite Hh.
  - by rewrite Hh.
  - by rewrite Hh.
  - left. by rewrite Hh.
Qed.

(** ** Every step preserves the invariant *)

Lemma step_inv w i : page_inv w -> page_inv (step i w).
Proof.
  intros Hinv. destruct i; simpl; try (apply handle_inv, dispatch_pre_commit, Hinv).
  - destruct (sched_pop (w_sched w)) as [[t q]|] eqn:Hpop; [|done]. apply handle_inv.
    destruct (tm_task t) as [[target]|[]|st] eqn:Ht.
    + rewrite <- Ht. eapply fire_app_pre_commit; eauto.
    + rewrite <- Ht. eapply fire_overlay_pre_commit; eauto.
    + rewrite <- Ht. eapply fire_sound_pre_commit; eauto.
  - destruct Hinv as [Hwf Hh Had Hod Htm].
    split; simpl; try done. by apply sched_wait_wf.
Qed.

Lemma world_init_inv env : page_inv (world_init env).
Proof. split; simpl; try done; apply sched_init_wf. Qed.
