(* ===== verification/Audio.v ===== *)
(** * The stage sequence and the browser's audio support

    SoundController creates its [AudioContext] on the first sound
    ([init]); a browser without the constructor makes [init] throw a
    TypeError, and every [playTone] with it.  [GiftBox.handleClick] plays
    its two sounds before calling [onClick], so on such a browser the click
    on the gift box throws before [nextStage] runs.  This file shows both
    sides: with the constructor, the click opens the box; without it, the
    page can never leave GIFT_BOX except through the "Yes" button, against
    spec section 7 (audio failure does not affect the stage sequence). *)

From S2P Require Import Prelude Stage Timers Dom Sound GiftBox Overlay Scene App AppFacts AppInv.
From Stdlib Require Import QArith.
Local Close Scope Q_scope.
Local Open Scope js_scope.

(** ** The audio state along a run *)

Lemma update_hooks_ctx f : js_preserves ctx_ok (update_hooks f).
Proof. intros w Hw. exact Hw. Qed.

#[local] Hint Resolve update_hooks_ctx : vd.

Lemma sound_ops_ctx_world :
  js_preserves ctx_ok (playPop (St := World)) /\ js_preserves ctx_ok (playBoop (St := World)) /\
  js_preserves ctx_ok (playSparkle (St := World)) /\ js_preserves ctx_ok (playBackground (St := World)) /\
  (forall t, js_preserves ctx_ok (run_sound_task (St := World) t)).
Proof. apply sound_ops_ctx. Qed.

Lemma playPop_ctx : js_preserves ctx_ok (playPop (St := World)).
Proof. apply sound_ops_ctx_world. Qed.
Lemma playBoop_ctx : js_preserves ctx_ok (playBoop (St := World)).
Proof. apply sound_ops_ctx_world. Qed.
Lemma playSparkle_ctx : js_preserves ctx_ok (playSparkle (St := World)).
Proof. apply sound_ops_ctx_world. Qed.
Lemma playBackground_ctx : js_preserves ctx_ok (playBackground (St := World)).
Proof. apply sound_ops_ctx_world. Qed.

#[local] Hint Resolve playPop_ctx playBoop_ctx playSparkle_ctx playBackground_ctx : vd.

Lemma dispatch_ctx i : js_preserves ctx_ok (dispatch i).
Proof.
  unfold dispatch. apply js_preserves_bind; [apply js_preserves_get|intros w].
  unfold page_scene. rewrite mounted_giftbox_stage.
  destruct i; simpl; js_preserve;
    unfold startExperience, nextStage, handleClick, handleYesClick, handlePointerOver,
      handlePointerOut, box_setter, setStage, updateStage, setHasStarted, setHovered, setHoveredOpen in *;
    js_preserve.
Qed.

Lemma run_task_ctx t : js_preserves ctx_ok (run_task t).
Proof. destruct t as [[]|[]|st]; simpl; [apply update_hooks_ctx..|apply sound_ops_ctx_world]. Qed.

Lemma run_task_rest t : js_rel rest_frame (run_task t).
Proof. destruct t as [[]|[]|st]; simpl; [apply update_hooks_rest..|apply sound_ops_rest]. Qed.

Lemma ctx_ok_transport w w' : w_sound w' = w_sound w -> w_env w' = w_env w -> ctx_ok w -> ctx_ok w'.
Proof. unfold ctx_ok. simpl. by intros -> ->. Qed.

Lemma handle_audio m w :
  js_preserves ctx_ok m -> ctx_ok w ->
  ctx_ok (handle m w) /\ w_env (handle m w) = w_env (fst (m w)).
Proof.
  intros Hm Hw. pose proof (Hm w Hw) as H1. unfold handle. destruct (m w) as [w1 r]. simpl in *.
  destruct (commit_keeps (report r w1)) as (_ & _ & _ & Hs & He & _).
  assert (w_sound (report r w1) = w_sound w1 /\ w_env (report r w1) = w_env w1) as [Hs1 He1]
    by (destruct r; done).
  unfold js_exec. split; [|congruence]. eapply ctx_ok_transport; [| |exact H1]; congruence.
Qed.

Lemma step_audio w i : ctx_ok w -> ctx_ok (step i w) /\ w_env (step i w) = w_env w.
Proof.
  intros Hw. destruct i; cbn [step];
    try lazymatch goal with
    | |- context [handle (dispatch ?i) w] =>
        destruct (handle_audio (dispatch i) w (dispatch_ctx i) Hw) as [? ->];
        split; [done|];
        by destruct (js_rel_at _ _ _ _ (snd (dispatch i w)) (dispatch_rest i) (surjective_pairing _))
          as (_ & ? & _)
    end.
  - destruct (sched_pop (w_sched w)) as [[t q]|]; [|by split].
    destruct (handle_audio (run_task (tm_task t)) (set_sched q w) (run_task_ctx _) Hw) as [? ->].
    split; [done|].
    by destruct (js_rel_at _ _ _ _ (snd (run_task (tm_task t) (set_sched q w))) (run_task_rest _)
                  (surjective_pairing _)) as (_ & ? & _).
  - split; [exact Hw|reflexivity].
Qed.

(** ** The gift box click *)

Lemma handleClick_audio w :
  init_can_run w ->
  exists w', handleClick (mk_giftbox_props (Some nextStage) false) w = (w', Ok tt) /\
             w_hooks w' = with_stage (next_stage (stage (w_hooks w))) (w_hooks w).
Proof.
  intros Hrun. unfold handleClick. cbn [onClick isOpen negb].
  destruct (playPop_can_run w Hrun) as (w1 & E1 & _).
  pose proof (sound_hooks _ _ _ _ (proj1 sound_ops_frame) E1) as H1.
  rewrite (js_bind_ok _ _ _ _ _ E1).
  destruct (playSparkle w1) as [w2 r] eqn:E2.
  pose proof (schedule_sparkles_ok 0 sparkle_tones w1) as Hr. unfold playSparkle in E2.
  rewrite E2 in Hr. simpl in Hr. subst r.
  pose proof (sound_hooks _ _ _ _ (proj1 (proj2 (proj2 sound_ops_frame))) E2) as H2.
  rewrite (js_bind_ok _ _ _ _ _ E2). unfold nextStage, updateStage. rewrite update_hooks_run.
  eexists. split; [done|]. simpl. by rewrite H2, H1.
Qed.

Lemma dispatch_ClickBox w :
  stage (w_hooks w) = GIFT_BOX ->
  dispatch ClickBox w = handleClick (mk_giftbox_props (Some nextStage) false) w.
Proof.
  intros Hs. unfold dispatch, js_bind, js_get. cbn -[handleClick mounted_giftbox page_scene].
  unfold page_scene. by rewrite mounted_giftbox_stage, Hs.
Qed.

Lemma handle_throw m w w' e :
  m w = (w', Throw e) ->
  stage (w_hooks (handle m w)) = stage (w_hooks w') /\ w_errors (handle m w) = w_errors w' ++ [e].
Proof.
  intros Hm. unfold handle. rewrite Hm. unfold js_exec.
  destruct (commit_keeps (report (Throw e) w')) as (Hs & _ & _ & _ & _ & He & _). by rewrite Hs, He.
Qed.

Lemma no_ctx w : ctx_ok w -> has_AudioContext (w_env w) = false -> audioContext (w_sound w) = None.
Proof. unfold ctx_ok. simpl. destruct (audioContext (w_sound w)); [intros []; congruence|done]. Qed.

Lemma box_click_no_audio w :
  ctx_ok w -> has_AudioContext (w_env w) = false -> stage (w_hooks w) = GIFT_BOX ->
  stage (w_hooks (step ClickBox w)) = GIFT_BOX /\
  w_errors (step ClickBox w) = w_errors w ++ [TypeError "window.AudioContext is not a constructor"].
Proof.
  intros Hc Ha Hs. cbn [step].
  assert (dispatch ClickBox w = (w, Throw (TypeError "window.AudioContext is not a constructor"))) as E.
  { rewrite dispatch_ClickBox by done. unfold handleClick. cbn [onClick isOpen negb].
    apply js_bind_throw. apply playPop_no_constructor; [by apply no_ctx|exact Ha]. }
  destruct (handle_throw _ _ _ _ E) as [-> ->]. done.
Qed.
