(* ===== verification/Sequencer.v ===== *)
(** * The stage sequencer: what one step does to the stage

    [step_stage] classifies every step of a reachable page by what it does
    to [stage]: nothing, the start button (START to GIFT_BOX), the gift box
    (GIFT_BOX to OPENING), the "Yes" button (any stage but START to
    CELEBRATION), or a stage timeout (OPENING to WORLD, WORLD to FINAL).
    The spec's table (spec section 4.1) is the abstract machine
    [spec_step]; [step_refines_spec] shows the page implements it, up to
    the one extra edge the "Yes" button adds. *)

From S2P Require Import Prelude Stage Timers Dom Sound GiftBox Overlay Scene App AppFacts AppInv Audio.
From Stdlib Require Import QArith.
Local Close Scope Q_scope.
Local Open Scope js_scope.

(** ** The spec's machine (spec section 4.1) *)

(** The events of the spec's table. *)
Inductive SpecEvent := EvStart | EvBox | EvTimer | EvYes.

(** The table: an event with no row for the current stage is a no-op. *)
Definition spec_step (s : ExperienceStage) (e : SpecEvent) : ExperienceStage :=
  match s, e with
  | START, EvStart => GIFT_BOX
  | GIFT_BOX, EvBox => OPENING
  | OPENING, EvTimer => WORLD
  | WORLD, EvTimer => FINAL
  | FINAL, EvYes => CELEBRATION
  | s, _ => s
  end.

(** The spec event an input of the page stands for. *)
Definition event_of (i : Input) : option SpecEvent :=
  match i with
  | ClickStart => Some EvStart
  | ClickBox => Some EvBox
  | ClickYes => Some EvYes
  | Tick => Some EvTimer
  | _ => None
  end.

(** The stage changes one step of the page can make: the start button,
    the gift box, a stage timeout, and the "Yes" button from any stage in
    which the overlay is rendered. *)
Inductive stage_move : Input -> ExperienceStage -> ExperienceStage -> Prop :=
| mv_start : stage_move ClickStart START GIFT_BOX
| mv_box : stage_move ClickBox GIFT_BOX OPENING
| mv_timer s : s = OPENING \/ s = WORLD -> stage_move Tick s (next_stage s)
| mv_yes s : s <> START -> stage_move ClickYes s CELEBRATION.

(** The timers the page's effects keep armed in each stage, as (period,
    callback) pairs: App's stage timeout and UIOverlay's message interval. *)
Definition stage_app_timers (s : ExperienceStage) : list (option nat * Task) :=
  match s with
  | OPENING => [(None, AppT (StageTimer WORLD))]
  | WORLD => [(None, AppT (StageTimer FINAL))]
  | _ => []
  end.

Definition stage_overlay_timers (s : ExperienceStage) : list (option nat * Task) :=
  if decide (s = WORLD) then [(Some 3500, OverlayT MsgTick)] else [].

(** ** Reachable pages *)

(** The pages a visitor can produce from the mounted page by any sequence
    of events and timer firings, on a browser [env]. *)
Inductive reachable (env : AudioEnv) : World -> Prop :=
| reach_init : reachable env (world_init env)
| reach_step w i : reachable env w -> reachable env (step i w).

(** ** Concrete pages *)

(** A browser with Web Audio whose [Math.random()] always returns 0, and
    one without an AudioContext constructor. *)
Definition env_audio : AudioEnv := mk_env true false (fun _ => 0%Q).
Definition env_silent : AudioEnv := mk_env false false (fun _ => 0%Q).

(** Start, open the box, then let [n] timers fire. *)
Definition demo_trace (n : nat) : list Input := [ClickStart; ClickBox] ++ repeat Tick n.

(** ** Reachable pages satisfy the invariants *)

Lemma reachable_inv env w : reachable env w -> page_inv w.
Proof. induction 1; [apply world_init_inv|by apply step_inv]. Qed.

Lemma reachable_audio env w : reachable env w -> w_env w = env /\ ctx_ok w.
Proof.
  induction 1 as [|w i _ [He Hc]]; [done|].
  destruct (step_audio w i Hc) as [? ->]. done.
Qed.

(** ** What a user event does to the stage *)

Lemma dispatch_stage w i :
  page_inv w ->
  let h := w_hooks w in let s' := stage (w_hooks (fst (dispatch i w))) in
  s' = stage h \/
  (i = ClickStart /\ stage h = START /\ s' = GIFT_BOX) \/
  (i = ClickBox /\ stage h = GIFT_BOX /\ s' = OPENING) \/
  (i = ClickYes /\ stage h <> START /\ s' = CELEBRATION).
Proof.
  intros [_ (Hst & _ & _) _ _ _]. cbn zeta.
  unfold dispatch. rewrite js_bind_fst. cbn [js_get]. unfold page_scene.
  rewrite mounted_giftbox_stage, app_reachable_eq, overlay_reachable_eq.
  destruct i; cbn [fst js_ret]; try by left.
  - destruct (hasStarted (w_hooks w)) eqn:Hs.
    + rewrite bool_decide_false by apply not_elem_of_nil. by left.
    + rewrite bool_decide_true by apply elem_of_singleton_self. rewrite startExperience_hooks.
      right; left. split_and!; [done|by apply Hst|done].
  - destruct (stage (w_hooks w)) eqn:Hs; try by left.
    destruct (handleClick_box_hooks w) as [-> | ->]; [left; by rewrite Hs|].
    right; right; left. by rewrite Hs.
  - destruct (decide (stage (w_hooks w) = START)) as [Hs|Hs].
    + rewrite bool_decide_false by apply not_elem_of_nil. by left.
    + rewrite bool_decide_true by apply elem_of_singleton_self. rewrite handleYesClick_hooks.
      by do 3 right.
  - destruct (stage (w_hooks w)) eqn:Hs; cbn [fst js_ret box_setter]; try (left; by rewrite ?Hs).
    rewrite handlePointerOver_box_hooks. left. simpl. by rewrite Hs.
  - destruct (stage (w_hooks w)) eqn:Hs; cbn [fst js_ret box_setter]; left; by rewrite ?Hs.
Qed.

(** ** What one step does to the stage *)

Lemma run_task_stage_other w t :
  (forall target, t <> AppT (StageTimer target)) -> stage (w_hooks (fst (run_task t w))) = stage (w_hooks w).
Proof.
  intros Ht. destruct t as [[target]|[]|st]; [by destruct (Ht target)|reflexivity|].
  simpl. destruct (run_sound_task st w) as [w1 r] eqn:E. simpl.
  by rewrite (sound_hooks _ _ _ _ (proj2 (proj2 (proj2 (proj2 sound_ops_frame))) st) E).
Qed.

Lemma step_stage w i :
  page_inv w ->
  stage (w_hooks (step i w)) = stage (w_hooks w) \/ stage_move i (stage (w_hooks w)) (stage (w_hooks (step i w))).
Proof.
  intros Hinv. destruct i; cbn [step]; try rewrite handle_stage;
    try (lazymatch goal with |- context [dispatch ?i w] => destruct (dispatch_stage w i Hinv)
           as [|[(Hi&H1&H2)|[(Hi&H1&H2)|(Hi&H1&H2)]]] end;
         [by left|right; first [discriminate Hi|rewrite ?H1, H2; by constructor]..]).
  - destruct (sched_pop (w_sched w)) as [[t q]|] eqn:Hpop; [|by left]. rewrite handle_stage.
    destruct (tm_task t) as [[target]|[]|st] eqn:Ht.
    + destruct (fire_app_pre_commit w t q target Hinv Hpop Ht) as [_ Hs]. right.
      cbn. destruct Hs as [[Hs ->]|[Hs ->]]; rewrite Hs; apply (mv_timer OPENING) || apply (mv_timer WORLD); tauto.
    + left. rewrite run_task_stage_other by (intros ??; discriminate). done.
    + left. rewrite run_task_stage_other by (intros ??; discriminate). done.
  - by left.
Qed.

Lemma stage_move_rank i s s' : stage_move i s s' -> stage_rank s <= stage_rank s'.
Proof. destruct 1 as [| |s [-> | ->]|s Hs]; simpl; try lia. destruct s; simpl; lia. Qed.

Lemma stage_move_spec i s s' :
  stage_move i s s' ->
  (exists e, event_of i = Some e /\ s' = spec_step s e) \/
  (i = ClickYes /\ s <> START /\ s <> FINAL /\ s' = CELEBRATION).
Proof.
  destruct 1 as [| |s [-> | ->]|s Hs]; try (left; eexists; split; reflexivity).
  destruct (decide (s = FINAL)) as [->|Hf]; [left; eexists; split; reflexivity|].
  right. done.
Qed.

Lemma reachable_run env w l : reachable env w -> reachable env (run l w).
Proof. revert w. induction l as [|i l IH]; intros w Hw; simpl; [done|]. apply IH. by constructor. Qed.

Lemma dispatch_ClickStart w : hasStarted (w_hooks w) = false -> dispatch ClickStart w = startExperience w.
Proof.
  intros Hs. unfold dispatch, js_bind, js_get. cbn -[startExperience app_reachable].
  rewrite app_reachable_eq, Hs, bool_decide_true by apply elem_of_singleton_self. done.
Qed.

Lemma dispatch_ClickYes w : stage (w_hooks w) <> START -> dispatch ClickYes w = handleYesClick setStage w.
Proof.
  intros Hs. unfold dispatch, js_bind, js_get. cbn -[handleYesClick overlay_reachable].
  rewrite overlay_reachable_eq, decide_False, bool_decide_true by (done || apply elem_of_singleton_self).
  done.
Qed.

Lemma start_step w :
  page_inv w -> stage (w_hooks w) = START ->
  stage (w_hooks (step ClickStart w)) = GIFT_BOX /\ hasStarted (w_hooks (step ClickStart w)) = true.
Proof.
  intros [_ (Hst & _ & _) _ _ _] Hs. cbn [step].
  destruct (handle_hooks (dispatch ClickStart) w) as (-> & -> & _).
  rewrite dispatch_ClickStart by (by apply Hst). by rewrite startExperience_hooks.
Qed.

Lemma yes_step w :
  stage (w_hooks w) <> START -> stage (w_hooks (step ClickYes w)) = CELEBRATION.
Proof.
  intros Hs. cbn [step]. rewrite handle_stage, dispatch_ClickYes by done.
  by rewrite handleYesClick_hooks.
Qed.

Lemma page_inv_timers w :
  page_inv w ->
  map (fun t => (tm_period t, tm_task t)) (app_timers (w_sched w)) = stage_app_timers (stage (w_hooks w)) /\
  map (fun t => (tm_period t, tm_task t)) (ov_timers (w_sched w)) = stage_overlay_timers (stage (w_hooks w)).
Proof.
  intros [_ _ _ _ Htm]. destruct (stage (w_hooks w)); simpl in Htm; break_hyps;
    repeat match goal with H : _ _ = [_] |- _ => rewrite H | H : _ _ = [] |- _ => rewrite H end; done.
Qed.

(** ** The sequencer's properties *)

(** C1: the page refines the spec's stage machine (spec section 4.1): on
    every reachable page, an input either leaves the stage alone, or moves
    it the way the spec's table moves it on the corresponding event, or is
    a click on the "Yes" button from a stage other than START and FINAL,
    which the table does not allow and the page sends to CELEBRATION. *)
Theorem page_refines_spec env w i :
  reachable env w ->
  let s := stage (w_hooks w) in let s' := stage (w_hooks (step i w)) in
  s' = s \/ (exists e, event_of i = Some e /\ s' = spec_step s e) \/
  (i = ClickYes /\ s <> START /\ s <> FINAL /\ s' = CELEBRATION).
Proof.
  intros Hr. cbn zeta. destruct (step_stage w i (reachable_inv _ _ Hr)) as [|Hm]; [by left|right].
  by apply stage_move_spec.
Qed.

Lemma page_refines_spec_witness :
  reachable env_audio (run [ClickStart] (world_init env_audio)) /\
  let s := stage (w_hooks (run [ClickStart] (world_init env_audio))) in
  let s' := stage (w_hooks (step ClickBox (run [ClickStart] (world_init env_audio)))) in
  s' = s \/ (exists e, event_of ClickBox = Some e /\ s' = spec_step s e) \/
  (ClickBox = ClickYes /\ s <> START /\ s <> FINAL /\ s' = CELEBRATION).
Proof.
  split; [apply reachable_run; constructor|].
  apply (page_refines_spec env_audio). apply reachable_run; constructor.
Defined.

(** C13: in every stage but START, a click on the "Yes" button's place sets
    the stage to CELEBRATION (UIOverlay.tsx [handleYesClick] runs
    [setStage(CELEBRATION)] before any sound can throw), and the commit
    cancels whatever stage timeout or message interval was pending. *)
Theorem yes_click_celebrates env w :
  reachable env w -> stage (w_hooks w) <> START ->
  let w' := step ClickYes w in
  stage (w_hooks w') = CELEBRATION /\ app_timers (w_sched w') = [] /\ ov_timers (w_sched w') = [].
Proof.
  intros Hr Hs. cbn zeta. pose proof (yes_step w Hs) as Hc. split; [done|].
  destruct (page_inv_timers _ (step_inv _ ClickYes (reachable_inv _ _ Hr))) as [Ha Ho].
  rewrite Hc in Ha, Ho. simpl in Ha, Ho. by apply fmap_nil_inv in Ha, Ho.
Qed.

Lemma yes_click_celebrates_witness :
  let w' := step ClickYes (run (demo_trace 8) (world_init env_audio)) in
  stage (w_hooks w') = CELEBRATION /\ app_timers (w_sched w') = [] /\ ov_timers (w_sched w') = [].
Proof.
  apply (yes_click_celebrates env_audio); [apply reachable_run; constructor|vm_compute; discriminate].
Defined.

(** C7: a stage timeout never fires stale: the App timer that fires is
    the one armed on entering the current stage, OPENING's (to WORLD) or
    WORLD's (to FINAL), and it sets the stage it names. *)
Theorem stage_timer_not_stale env w t q target :
  reachable env w -> sched_pop (w_sched w) = Some (t, q) -> tm_task t = AppT (StageTimer target) ->
  (stage (w_hooks w) = OPENING /\ target = WORLD \/ stage (w_hooks w) = WORLD /\ target = FINAL) /\
  stage (w_hooks (step Tick w)) = target.
Proof.
  intros Hr Hpop Ht. destruct (fire_app_pre_commit w t q target (reachable_inv _ _ Hr) Hpop Ht) as [_ Hs].
  split; [done|]. cbn [step]. by rewrite Hpop, handle_stage, Ht.
Qed.

Lemma stage_timer_not_stale_witness :
  exists t q, sched_pop (w_sched (run (demo_trace 7) (world_init env_audio))) = Some (t, q) /\
  (stage (w_hooks (run (demo_trace 7) (world_init env_audio))) = OPENING /\ WORLD = WORLD \/
   stage (w_hooks (run (demo_trace 7) (world_init env_audio))) = WORLD /\ WORLD = FINAL) /\
  stage (w_hooks (step Tick (run (demo_trace 7) (world_init env_audio)))) = WORLD.
Proof.
  destruct (sched_pop (w_sched (run (demo_trace 7) (world_init env_audio)))) as [[t q]|] eqn:E;
    [|vm_compute in E; discriminate E].
  exists t, q. split; [reflexivity|].
  assert (tm_task t = AppT (StageTimer WORLD)) as Ht by (vm_compute in E; injection E as <- _; reflexivity).
  apply (stage_timer_not_stale env_audio _ t q WORLD); [apply reachable_run; constructor|exact E|exact Ht].
Defined.

(** C8: each stage has exactly the timers the spec schedules on entering
    it and none of an earlier stage: one 3500 ms timeout to WORLD in
    OPENING, one 6000 ms timeout to FINAL and the 3500 ms message interval
    in WORLD, and no App or overlay timer in START, GIFT_BOX, FINAL and
    CELEBRATION. *)
Theorem stage_timers_exact env w :
  reachable env w ->
  map (fun t => (tm_period t, tm_task t)) (app_timers (w_sched w)) = stage_app_timers (stage (w_hooks w)) /\
  map (fun t => (tm_period t, tm_task t)) (ov_timers (w_sched w)) = stage_overlay_timers (stage (w_hooks w)).
Proof. intros Hr. apply page_inv_timers, (reachable_inv env), Hr. Qed.

Lemma stage_timers_exact_witness :
  let w := run (demo_trace 8) (world_init env_audio) in
  map (fun t => (tm_period t, tm_task t)) (app_timers (w_sched w)) = stage_app_timers (stage (w_hooks w)) /\
  map (fun t => (tm_period t, tm_task t)) (ov_timers (w_sched w)) = stage_overlay_timers (stage (w_hooks w)).
Proof. apply (stage_timers_exact env_audio). apply reachable_run; constructor. Defined.

(** C9: the stage never goes back: along the path START, GIFT_BOX,
    OPENING, WORLD, FINAL, CELEBRATION, every step keeps or advances it. *)
Theorem stage_monotone env w i :
  reachable env w -> stage_rank (stage (w_hooks w)) <= stage_rank (stage (w_hooks (step i w))).
Proof.
  intros Hr. destruct (step_stage w i (reachable_inv _ _ Hr)) as [-> |Hm]; [done|].
  by apply stage_move_rank in Hm.
Qed.

Lemma stage_monotone_witness :
  stage_rank (stage (w_hooks (run (demo_trace 7) (world_init env_audio)))) <=
  stage_rank (stage (w_hooks (step Tick (run (demo_trace 7) (world_init env_audio))))).
Proof. apply (stage_monotone env_audio). apply reachable_run; constructor. Defined.

(** C10: CELEBRATION is terminal: no input or timer leaves it. *)
Theorem celebration_terminal env w i :
  reachable env w -> stage (w_hooks w) = CELEBRATION -> stage (w_hooks (step i w)) = CELEBRATION.
Proof.
  intros Hr Hs. destruct (step_stage w i (reachable_inv _ _ Hr)) as [-> |Hm]; [done|].
  rewrite Hs in Hm. by inversion Hm.
Qed.

Lemma celebration_terminal_witness :
  stage (w_hooks (run [ClickStart; ClickYes] (world_init env_audio))) = CELEBRATION /\
  stage (w_hooks (step Tick (run [ClickStart; ClickYes] (world_init env_audio)))) = CELEBRATION.
Proof.
  assert (stage (w_hooks (run [ClickStart; ClickYes] (world_init env_audio))) = CELEBRATION) as H
    by (vm_compute; reflexivity).
  split; [exact H|]. apply (celebration_terminal env_audio); [apply reachable_run; constructor|exact H].
Defined.

(** C11: in FINAL only the "Yes" button changes the stage; in particular no
    timer fires a transition there. *)
Theorem final_waits_for_yes env w i :
  reachable env w -> stage (w_hooks w) = FINAL -> i <> ClickYes -> stage (w_hooks (step i w)) = FINAL.
Proof.
  intros Hr Hs Hi. destruct (step_stage w i (reachable_inv _ _ Hr)) as [-> |Hm]; [done|].
  rewrite Hs in Hm. inversion Hm; subst; naive_solver.
Qed.

Lemma final_waits_for_yes_witness :
  stage (w_hooks (run (demo_trace 17) (world_init env_audio))) = FINAL /\
  stage (w_hooks (step Tick (run (demo_trace 17) (world_init env_audio)))) = FINAL.
Proof.
  assert (stage (w_hooks (run (demo_trace 17) (world_init env_audio))) = FINAL) as H
    by (vm_compute; reflexivity).
  split; [exact H|]. apply (final_waits_for_yes env_audio); [apply reachable_run; constructor|exact H|discriminate].
Defined.

(** C12: the first action, the start button in START, always yields
    GIFT_BOX and sets [hasStarted], whether or not the audio works. *)
Theorem start_click_gift_box env w :
  reachable env w -> stage (w_hooks w) = START ->
  stage (w_hooks (step ClickStart w)) = GIFT_BOX /\ hasStarted (w_hooks (step ClickStart w)) = true.
Proof. intros Hr Hs. apply start_step; [apply (reachable_inv env), Hr|exact Hs]. Qed.

Lemma start_click_gift_box_witness :
  stage (w_hooks (step ClickStart (world_init env_silent))) = GIFT_BOX /\
  hasStarted (w_hooks (step ClickStart (world_init env_silent))) = true.
Proof. apply (start_click_gift_box env_silent); [constructor|reflexivity]. Defined.

(** C14: [msgIndex] never exceeds 1, so the overlay only ever shows the
    first two of its four messages: the interval's second run would be due
    at 7000 ms after entering WORLD, after the 6000 ms timeout that leaves
    it, whose cleanup clears the interval. *)
Theorem msg_index_bound env w :
  reachable env w ->
  msgIndex (w_hooks w) <= 1 /\ message_text (msgIndex (w_hooks w)) ∈ take 2 messages.
Proof.
  intros Hr. destruct (reachable_inv _ _ Hr) as [_ _ _ _ Htm].
  apply stage_timers_msg in Htm. split; [done|].
  destruct (msgIndex (w_hooks w)) as [|[|]]; [set_solver..|lia].
Qed.

Lemma msg_index_bound_witness :
  msgIndex (w_hooks (run (demo_trace 21) (world_init env_audio))) <= 1 /\
  message_text (msgIndex (w_hooks (run (demo_trace 21) (world_init env_audio)))) ∈ take 2 messages.
Proof. apply (msg_index_bound env_audio). apply reachable_run; constructor. Defined.

(** C26: the gift box's hover state follows the mounted instance: the
    floating box in GIFT_BOX shows its label; the opened box of OPENING
    never grows to 1.1 (its [handlePointerOver] is guarded by [!isOpen])
    and shows no label; and when no box is mounted no hover is left over,
    because leaving GIFT_BOX unmounts the instance that owned it. *)
Theorem giftbox_hover_render env w :
  reachable env w ->
  let h := w_hooks w in
  match mounted_giftbox (page_scene h) with
  | Some (FloatSlot, p) => giftbox_label_shown p = true
  | Some (OpenSlot, p) => giftbox_scale (hovered_open h) = 1%Q /\ giftbox_label_shown p = false
  | None => hovered h = false
  end.
Proof.
  intros Hr. destruct (reachable_inv _ _ Hr) as [_ (_ & Hhov & Hho) _ _ _]. cbn zeta.
  unfold page_scene. rewrite mounted_giftbox_stage, Hho.
  destruct (stage (w_hooks w)) eqn:Hs; try done;
    destruct (hovered (w_hooks w)); try done; by specialize (Hhov eq_refl).
Qed.

Lemma giftbox_hover_render_witness :
  let h := w_hooks (run [ClickStart; ClickBox] (world_init env_audio)) in
  match mounted_giftbox (page_scene h) with
  | Some (FloatSlot, p) => giftbox_label_shown p = true
  | Some (OpenSlot, p) => giftbox_scale (hovered_open h) = 1%Q /\ giftbox_label_shown p = false
  | None => hovered h = false
  end.
Proof. apply (giftbox_hover_render env_audio). apply reachable_run; constructor. Defined.

(** ** Audio support and the stage sequence *)

(** C6: on a browser with Web Audio, a click on the gift box in GIFT_BOX
    opens it: the handler plays its sounds without throwing and the stage
    becomes OPENING. *)
Theorem box_click_opens env w :
  reachable env w -> has_AudioContext env = true -> stage (w_hooks w) = GIFT_BOX ->
  snd (dispatch ClickBox w) = Ok tt /\ stage (w_hooks (step ClickBox w)) = OPENING.
Proof.
  intros Hr Ha Hs. destruct (reachable_audio env w Hr) as [He Hc]. subst env.
  destruct (handleClick_audio w (ctx_ok_init_can_run w Hc Ha)) as (w' & E & Hh).
  rewrite <- dispatch_ClickBox in E by done.
  cbn [step]. rewrite handle_stage, E. simpl. by rewrite Hh, Hs.
Qed.

Lemma box_click_opens_witness :
  snd (dispatch ClickBox (run [ClickStart] (world_init env_audio))) = Ok tt /\
  stage (w_hooks (step ClickBox (run [ClickStart] (world_init env_audio)))) = OPENING.
Proof.
  apply (box_click_opens env_audio); [apply reachable_run; constructor|reflexivity|vm_compute; reflexivity].
Defined.

(** C5: on a browser without an AudioContext constructor, a click on the
    gift box throws a TypeError from [playPop] before [onClick] runs: the
    stage stays GIFT_BOX and the exception is reported.  Spec section 7
    says audio failure does not affect the stage sequence. *)
Theorem box_click_no_audio_throws env w :
  reachable env w -> has_AudioContext env = false -> stage (w_hooks w) = GIFT_BOX ->
  stage (w_hooks (step ClickBox w)) = GIFT_BOX /\
  w_errors (step ClickBox w) = w_errors w ++ [TypeError "window.AudioContext is not a constructor"].
Proof.
  intros Hr Ha Hs. destruct (reachable_audio env w Hr) as [He Hc]. subst env.
  by apply box_click_no_audio.
Qed.

Lemma box_click_no_audio_throws_witness :
  stage (w_hooks (step ClickBox (run [ClickStart] (world_init env_silent)))) = GIFT_BOX /\
  w_errors (step ClickBox (run [ClickStart] (world_init env_silent))) =
    w_errors (run [ClickStart] (world_init env_silent)) ++ [TypeError "window.AudioContext is not a constructor"].
Proof.
  apply (box_click_no_audio_throws env_silent);
    [apply reachable_run; constructor|reflexivity|vm_compute; reflexivity].
Defined.

(** C4: without an AudioContext constructor the page never reaches
    OPENING, WORLD or FINAL: the only stages it can be in are START,
    GIFT_BOX and, through the "Yes" button, CELEBRATION. *)
Theorem no_audio_never_opens env w :
  reachable env w -> has_AudioContext env = false ->
  stage (w_hooks w) = START \/ stage (w_hooks w) = GIFT_BOX \/ stage (w_hooks w) = CELEBRATION.
Proof.
  intros Hr Ha. induction Hr as [|w i Hr IH]; [by left|].
  destruct (reachable_audio env w Hr) as [He Hc]. subst env.
  destruct (step_stage w i (reachable_inv _ _ Hr)) as [-> |Hm]; [by apply IH|].
  remember (stage (w_hooks w)) as s0 eqn:Hs0. remember (stage (w_hooks (step i w))) as s1 eqn:Hs1.
  destruct Hm as [| |s Hs|s Hs]; try tauto.
  - destruct (box_click_no_audio w Hc Ha (eq_sym Hs0)) as [Hb _]. congruence.
  - destruct Hs as [-> | ->]; destruct IH as [?|[?|?]]; discriminate.
Qed.

Lemma no_audio_never_opens_witness :
  let w := run [ClickStart; ClickBox; Tick; Tick] (world_init env_silent) in
  stage (w_hooks w) = START \/ stage (w_hooks w) = GIFT_BOX \/ stage (w_hooks w) = CELEBRATION.
Proof. apply (no_audio_never_opens env_silent); [apply reachable_run; constructor|reflexivity]. Defined.

Lemma piano_note_plays_witness :
  snd (run_sound_task PianoNote (world_init env_audio)) = Ok tt /\
  exists f, f ∈ pianoNotes /\
    tones (sound_of (fst (run_sound_task PianoNote (world_init env_audio)))) =
      tones (sound_of (world_init env_audio)) ++ [mk_tone f sine 3 (2#100) (host_now (world_init env_audio))].
Proof. apply piano_note_plays; [reflexivity|cbn; split; [apply Qle_refl|reflexivity]]. Defined.

Lemma sound_envelopes_preserved_witness :
  js_preserves sound_inv (playPop (St := World)) /\ js_preserves sound_inv (playBoop (St := World)) /\
  js_preserves sound_inv (playSparkle (St := World)) /\ js_preserves sound_inv (playBackground (St := World)) /\
  (forall t, js_preserves sound_inv (run_sound_task (St := World) t)).
Proof. apply (sound_envelopes_preserved (St := World)). Defined.
