(* ===== verification/Liveness.v ===== *)
(** * The stage timeouts fire: OPENING and WORLD end on their own

    The spec's table has two timed rows: OPENING becomes WORLD after
    3500 ms and WORLD becomes FINAL after 6000 ms, with no user action.
    This file shows the page does this: from every reachable page in
    OPENING or WORLD, firing timers one after the other ([Tick]) reaches
    the next stage ([stage_timeout_eventually]).

    The timers that fire first (the sparkles, the background piano and
    heartbeat, the message interval) cannot delay the stage timeout for
    ever.  Each firing either moves the clock towards the timeout's due
    time, or keeps the clock and removes a timer due now: the callbacks
    fired at that point only arm timers due later (the heartbeat's echo,
    150 ms on), and every interval re-arms at least 1 ms later
    ([periods_ok]: SoundController's and UIOverlay's intervals have
    positive periods).  The pair (time to the timeout, timers due now)
    decreases lexicographically. *)

From S2P Require Import Prelude Stage Timers Dom Sound GiftBox Overlay Scene App AppFacts AppInv Audio Sequencer.
From Stdlib Require Import QArith.
Local Close Scope Q_scope.
Local Open Scope js_scope.

(** ** Definitions *)

Definition period_ok (p : option nat) : Prop := match p with Some d => 0 < d | None => True end.

(** Every pending interval re-arms strictly later than it fired. *)
Definition periods_ok (w : World) : Prop := Forall (fun t => period_ok (tm_period t)) (sc_pending (w_sched w)).

(** A callback keeps the clock and arms only timers due later than now. *)
Definition arms_later (w w' : World) : Prop :=
  sc_now (w_sched w') = sc_now (w_sched w) /\
  forall u, u ∈ sc_pending (w_sched w') -> u ∈ sc_pending (w_sched w) \/ sc_now (w_sched w) < tm_due u.

(** Pending timers due at the current time. *)
Definition due_now (q : sched Task) : list (timer Task) := filter (fun u => tm_due u <= sc_now q) (sc_pending q).

(** [P] holds after some number of timer firings. *)
Inductive eventually (P : World -> Prop) : World -> Prop :=
| ev_now w : P w -> eventually P w
| ev_tick w : eventually P (step Tick w) -> eventually P w.

(** ** Intervals keep positive periods *)

Lemma sched_unchanged_periods (f : World -> World) :
  (forall w, sc_pending (w_sched (f w)) = sc_pending (w_sched w)) -> js_preserves periods_ok (js_modify f).
Proof. intros Hf w Hw. unfold periods_ok. simpl. by rewrite Hf. Qed.

Lemma set_timer_periods d p t : period_ok p -> js_preserves periods_ok (set_timer (St := World) d p t).
Proof. intros Hp w Hw. apply Forall_app. split; [done|]. by constructor. Qed.

Lemma world_set_timer_periods {T} (inj : T -> Task) d p t :
  period_ok p -> js_preserves periods_ok (world_set_timer inj d p t).
Proof. intros Hp w Hw. apply Forall_app. split; [done|]. by constructor. Qed.

Lemma world_clear_timer_periods id : js_preserves periods_ok (world_clear_timer id).
Proof. intros w Hw. by apply Forall_filter. Qed.

Lemma update_sound_periods f : js_preserves periods_ok (update_sound (St := World) f).
Proof. by apply sched_unchanged_periods. Qed.

Lemma update_hooks_periods f : js_preserves periods_ok (update_hooks f).
Proof. by apply sched_unchanged_periods. Qed.

Lemma new_AudioContext_periods : js_preserves periods_ok (new_AudioContext (St := World)).
Proof. intros w Hw. unfold new_AudioContext. by destruct (has_AudioContext _). Qed.

Lemma math_random_call_periods : js_preserves periods_ok (math_random_call (St := World)).
Proof. intros w Hw. done. Qed.

#[local] Hint Resolve set_timer_periods world_set_timer_periods world_clear_timer_periods
  update_sound_periods update_hooks_periods new_AudioContext_periods math_random_call_periods : vd.
#[local] Hint Extern 1 (period_ok _) => (unfold period_ok; lia) : vd.

Lemma init_periods : js_preserves periods_ok (init (St := World)).
Proof. unfold init. js_preserve. Qed.

#[local] Hint Resolve init_periods : vd.

Lemma playTone_periods f ty d v : js_preserves periods_ok (playTone (St := World) f ty d v).
Proof. unfold playTone. js_preserve. Qed.

#[local] Hint Resolve playTone_periods : vd.

Lemma schedule_sparkles_periods i ts : js_preserves periods_ok (schedule_sparkles (St := World) i ts).
Proof. revert i. induction ts; intros i; simpl; js_preserve. Qed.

#[local] Hint Resolve schedule_sparkles_periods : vd.

Lemma sound_ops_periods :
  js_preserves periods_ok (playPop (St := World)) /\ js_preserves periods_ok (playBoop (St := World)) /\
  js_preserves periods_ok (playSparkle (St := World)) /\ js_preserves periods_ok (playBackground (St := World)) /\
  (forall t, js_preserves periods_ok (run_sound_task (St := World) t)).
Proof.
  split_and!; [unfold playPop|unfold playBoop|unfold playSparkle|unfold playBackground|
               intros []; unfold run_sound_task]; js_preserve.
Qed.

Lemma playPop_periods : js_preserves periods_ok (playPop (St := World)).
Proof. apply sound_ops_periods. Qed.
Lemma playBoop_periods : js_preserves periods_ok (playBoop (St := World)).
Proof. apply sound_ops_periods. Qed.
Lemma playSparkle_periods : js_preserves periods_ok (playSparkle (St := World)).
Proof. apply sound_ops_periods. Qed.
Lemma playBackground_periods : js_preserves periods_ok (playBackground (St := World)).
Proof. apply sound_ops_periods. Qed.

#[local] Hint Resolve playPop_periods playBoop_periods playSparkle_periods playBackground_periods : vd.

Lemma dispatch_periods i : js_preserves periods_ok (dispatch i).
Proof.
  unfold dispatch. apply js_preserves_bind; [apply js_preserves_get|intros w].
  unfold page_scene. rewrite mounted_giftbox_stage.
  destruct i; simpl; js_preserve;
    unfold startExperience, nextStage, handleClick, handleYesClick, handlePointerOver,
      handlePointerOut, box_setter, setStage, updateStage, setHasStarted, setHovered, setHoveredOpen in *;
    js_preserve.
Qed.

Lemma run_task_periods t : js_preserves periods_ok (run_task t).
Proof. destruct t as [[]|[]|st]; simpl; [apply update_hooks_periods..|apply sound_ops_periods]. Qed.

Lemma commit_periods : js_preserves periods_ok commit.
Proof.
  unfold commit, unmount_boxes, overlay_cleanup, app_effect_cleanup, overlay_effect, app_effect,
    set_overlay_effect, set_app_effect, clearTimer, setInterval, setTimeout.
  js_preserve; apply sched_unchanged_periods; done.
Qed.

Lemma handle_periods m w : js_preserves periods_ok m -> periods_ok w -> periods_ok (handle m w).
Proof.
  intros Hm Hw. pose proof (Hm w Hw) as H1. unfold handle. destruct (m w) as [w1 r]. simpl in H1.
  apply commit_periods. by destruct r.
Qed.

Lemma step_periods w i : periods_ok w -> periods_ok (step i w).
Proof.
  intros Hw. destruct i; cbn [step];
    try (apply handle_periods; [apply dispatch_periods|done]).
  - destruct (sched_pop (w_sched w)) as [[t q]|] eqn:Hpop; [|done].
    apply handle_periods; [apply run_task_periods|].
    destruct (sched_pop_spec _ _ _ Hpop) as (Hin & _ & _ & _ & Hq).
    unfold periods_ok. simpl. rewrite Hq. apply Forall_app. split; [by apply Forall_filter|].
    eapply Forall_forall in Hw; [|exact Hin].
    unfold rearm. destruct (tm_period t); by repeat constructor.
  - done.
Qed.

Lemma reachable_periods env w : reachable env w -> periods_ok w.
Proof.
  induction 1 as [|w i Hr IH]; [by constructor|].
  by apply step_periods.
Qed.

(** ** A firing callback arms only later timers *)

#[export] Instance arms_later_preorder : PreOrder arms_later.
Proof.
  split.
  - intros w. split; [done|]. by left.
  - intros w1 w2 w3 [Hn1 H1] [Hn2 H2]. split; [congruence|]. intros u Hu.
    destruct (H2 u Hu) as [Hu2|Hlt]; [|right; lia]. destruct (H1 u Hu2); [by left|by right].
Qed.

Lemma sched_same_arms (f : World -> World) :
  (forall w, w_sched (f w) = w_sched w) -> js_rel arms_later (js_modify f).
Proof.
  intros Hf. apply js_rel_modify. intros w. split; [by rewrite Hf|]. intros u Hu. rewrite Hf in Hu. by left.
Qed.

Lemma set_timer_arms d p t : 0 < d -> js_rel arms_later (set_timer (St := World) d p t).
Proof.
  intros Hd w. split; [done|]. intros u Hu. simpl in Hu.
  apply elem_of_app in Hu as [Hu|Hu]; [by left|right]. apply list_elem_of_singleton in Hu. subst u. simpl. lia.
Qed.

Lemma update_sound_arms f : js_rel arms_later (update_sound (St := World) f).
Proof. by apply sched_same_arms. Qed.

Lemma update_hooks_arms f : js_rel arms_later (update_hooks f).
Proof. by apply sched_same_arms. Qed.

Lemma new_AudioContext_arms : js_rel arms_later (new_AudioContext (St := World)).
Proof. intros w. unfold new_AudioContext. destruct (has_AudioContext _); reflexivity. Qed.

Lemma math_random_call_arms : js_rel arms_later (math_random_call (St := World)).
Proof. intros w. split; [done|]. intros u Hu. by left. Qed.

#[local] Hint Resolve set_timer_arms update_sound_arms update_hooks_arms new_AudioContext_arms
  math_random_call_arms : vd.
#[local] Hint Extern 1 (_ < _) => lia : vd.

Lemma init_arms : js_rel arms_later (init (St := World)).
Proof. unfold init. js_rel_tac. Qed.

#[local] Hint Resolve init_arms : vd.

Lemma playTone_arms f ty d v : js_rel arms_later (playTone (St := World) f ty d v).
Proof. unfold playTone. js_rel_tac. Qed.

#[local] Hint Resolve playTone_arms : vd.

(** The callbacks of SoundController's and UIOverlay's timers. *)
Lemma run_task_arms t : (forall target, t <> AppT (StageTimer target)) -> js_rel arms_later (run_task t).
Proof.
  intros Ht. destruct t as [[tg]|[]|st]; [by destruct (Ht tg)|apply update_hooks_arms|].
  destruct st; simpl; js_rel_tac.
Qed.

(** ** One firing of a timer other than the stage timeout *)

Lemma report_sched_effects r w : w_sched (report r w) = w_sched w /\ w_effects (report r w) = w_effects w.
Proof. by destruct r. Qed.

Section FilterAnd.
Context {A} (P Q : A -> Prop) `{!forall x, Decision (P x)} `{!forall x, Decision (Q x)}.

Lemma filter_and_le (l : list A) : length (filter (fun y => P y /\ Q y) l) <= length (filter P l).
Proof. induction l as [|y l IH]; [done|]. rewrite !filter_cons. repeat case_decide; simpl; tauto || lia. Qed.

(** Fewer elements pass a stronger filter when one of them fails only the
    stronger one. *)
Lemma filter_length_lt (l : list A) x :
  x ∈ l -> P x -> ~ Q x -> length (filter (fun y => P y /\ Q y) l) < length (filter P l).
Proof.
  induction l as [|y l IH]; intros Hx HP HQ; [by apply not_elem_of_nil in Hx|].
  pose proof (filter_and_le l). rewrite !filter_cons. apply elem_of_cons in Hx as [->|Hx].
  - repeat case_decide; simpl; tauto || lia.
  - specialize (IH Hx HP HQ). repeat case_decide; simpl; tauto || lia.
Qed.

End FilterAnd.

Lemma tick_other w t q :
  page_inv w -> periods_ok w -> sched_pop (w_sched w) = Some (t, q) ->
  (forall target, tm_task t <> AppT (StageTimer target)) ->
  let w' := step Tick w in
  stage (w_hooks w') = stage (w_hooks w) /\ app_timers (w_sched w') = app_timers (w_sched w) /\
  sc_now (w_sched w') = tm_due t /\
  (tm_due t = sc_now (w_sched w) -> length (due_now (w_sched w')) < length (due_now (w_sched w))).
Proof.
  intros Hinv Hper Hpop Ht. pose proof Hinv as [Hwf Hh Had Hod Htm]. cbn zeta.
  pose proof (step_inv w Tick Hinv) as [Hwf' _ _ _ _].
  destruct (run_task (tm_task t) (set_sched q w)) as [w1 r] eqn:E.
  destruct (js_rel_at _ _ _ _ _ (run_task_rest _) E) as (He & _ & Hn & Hp & _).
  destruct (js_rel_at _ _ _ _ _ (run_task_arms _ Ht) E) as [_ Harms].
  pose proof (run_task_stage_other (set_sched q w) _ Ht) as Hs1. rewrite E in Hs1. cbn in Hs1.
  destruct (report_sched_effects r w1) as [Hrs Hre].
  assert (step Tick w = set_hooks (unmount_hooks (w_hooks (report r w1))) (report r w1)) as Hstep.
  { cbn [step]. rewrite Hpop. unfold handle. rewrite E.
    apply commit_same; rewrite ?report_hooks, Hre, He; simpl; congruence. }
  rewrite Hstep in Hwf' |- *. cbn [set_hooks w_hooks w_sched unmount_hooks stage] in *.
  rewrite report_hooks, Hrs in *. cbn in He, Hn, Hp.
  destruct (sched_pop_spec _ _ _ Hpop) as (Hin & Hmin & Hnow & _ & Hq).
  destruct (pop_other_kinds w t q Hwf Hpop) as (Happ & _ & _).
  split_and!; [done| |congruence|].
  - rewrite app_timers_page, Hp, <- app_timers_page. apply Happ. unfold is_app_task.
    destruct (tm_task t) as [[tg]|[]|st] eqn:Htk; [by destruct (Ht tg)|tauto..].
  - intros Hdue. unfold due_now. rewrite Hn, Hnow, Hdue.
    apply Nat.le_lt_trans with
      (length (filter (fun u => tm_due u <= sc_now (w_sched w) /\ tm_id u <> tm_id t) (sc_pending (w_sched w)))).
    + apply submseteq_length, NoDup_submseteq.
      * apply NoDup_filter. destruct Hwf' as [Hnd _]. by eapply NoDup_fmap_1.
      * intros u Hu. apply list_elem_of_filter in Hu as [Hle Hu].
        destruct (Harms u Hu) as [Hu'|Hlt]; [|cbn in Hlt; lia].
        cbn in Hu'. rewrite Hq in Hu'. apply elem_of_app in Hu' as [Hu'|Hu'].
        -- apply list_elem_of_filter in Hu' as [Hid Hu']. apply list_elem_of_filter. split; [split|]; done.
        -- exfalso. unfold rearm in Hu'. eapply Forall_forall in Hper; [|exact Hin].
           destruct (tm_period t) as [p|]; [|by apply not_elem_of_nil in Hu'].
           apply list_elem_of_singleton in Hu'. subst u. cbn in Hle, Hper. lia.
    + apply filter_length_lt with t; [done|lia|tauto].
Qed.

(** The stage timeout fires: it sets the stage after the current one. *)
Lemma tick_fires w t q target :
  page_inv w -> sched_pop (w_sched w) = Some (t, q) -> tm_task t = AppT (StageTimer target) ->
  stage (w_hooks (step Tick w)) = target /\ target = next_stage (stage (w_hooks w)).
Proof.
  intros Hinv Hpop Ht. destruct (fire_app_pre_commit w t q target Hinv Hpop Ht) as [_ Hs].
  split; [cbn [step]; by rewrite Hpop, handle_stage, Ht|].
  by destruct Hs as [[-> ->]|[-> ->]].
Qed.

(** The stage timeout pending in OPENING and WORLD. *)
Lemma stage_timeout_pending w :
  page_inv w -> stage (w_hooks w) = OPENING \/ stage (w_hooks w) = WORLD ->
  exists A, app_timers (w_sched w) = [A] /\ tm_task A = AppT (StageTimer (next_stage (stage (w_hooks w)))).
Proof.
  intros [_ _ _ _ Htm] [Hs|Hs]; rewrite Hs in Htm |- *; simpl in Htm; break_hyps; eexists; split; eauto.
Qed.

(** The induction: the time left to the timeout, then the timers due
    now, decrease with every firing of another timer. *)
Lemma timeout_eventually_measure env s A :
  forall m1 m2 w, reachable env w -> stage (w_hooks w) = s -> app_timers (w_sched w) = [A] ->
  tm_task A = AppT (StageTimer (next_stage s)) ->
  tm_due A - sc_now (w_sched w) = m1 -> length (due_now (w_sched w)) = m2 ->
  eventually (fun w' => stage (w_hooks w') = next_stage s) w.
Proof.
  intros m1. induction m1 as [m1 IH1] using lt_wf_ind.
  intros m2. induction m2 as [m2 IH2] using lt_wf_ind.
  intros w Hr Hs HA HtA Hm1 Hm2.
  pose proof (reachable_inv _ _ Hr) as Hinv. pose proof (reachable_periods _ _ Hr) as Hper.
  assert (A ∈ sc_pending (w_sched w)) as HAin.
  { apply (timers_with_pending is_app_task). fold (app_timers (w_sched w)). rewrite HA. by left. }
  destruct (sched_pop (w_sched w)) as [[t q]|] eqn:Hpop.
  2:{ exfalso. unfold sched_pop in Hpop. destruct (earliest _) eqn:He; [done|].
      apply earliest_None in He. rewrite He in HAin. by apply not_elem_of_nil in HAin. }
  apply ev_tick.
  assert ((exists tg, tm_task t = AppT (StageTimer tg)) \/ (forall tg, tm_task t <> AppT (StageTimer tg)))
    as [[tg Htg]|Ht] by (destruct (tm_task t) as [[tg]|?|?]; [left; eauto|right; intros ? ?; discriminate..]).
  { destruct (tick_fires w t q tg Hinv Hpop Htg) as [H1 H2]. apply ev_now. by rewrite H1, H2, Hs. }
  destruct (tick_other w t q Hinv Hper Hpop Ht) as (Hs' & HA' & Hn' & Hdue).
  destruct (sched_pop_spec _ _ _ Hpop) as (Hin & Hmin & _ & _ & _).
  assert (tm_due t <= tm_due A) by (eapply Forall_forall in Hmin; [exact Hmin|exact HAin]).
  assert (sc_now (w_sched w) <= tm_due t).
  { destruct (inv_wf _ Hinv) as [_ Hf]. eapply Forall_forall in Hf; [exact (proj2 Hf)|exact Hin]. }
  destruct (decide (tm_due t = sc_now (w_sched w))) as [Heq|Hne].
  - apply (IH2 (length (due_now (w_sched (step Tick w))))).
    + rewrite <- Hm2. by apply Hdue.
    + by constructor.
    + congruence.
    + congruence.
    + done.
    + lia.
    + reflexivity.
  - apply (IH1 (tm_due A - sc_now (w_sched (step Tick w)))) with (length (due_now (w_sched (step Tick w)))).
    + lia.
    + by constructor.
    + congruence.
    + congruence.
    + done.
    + reflexivity.
    + reflexivity.
Qed.

(** ** The property *)

(** C2: without any user input, a page in OPENING reaches WORLD and a page
    in WORLD reaches FINAL: after finitely many timer firings the stage is
    the next one, whatever other timers (sounds, the message interval) are
    pending and whether or not the audio works. *)
Theorem stage_timeout_eventually env w :
  reachable env w -> stage (w_hooks w) = OPENING \/ stage (w_hooks w) = WORLD ->
  eventually (fun w' => stage (w_hooks w') = next_stage (stage (w_hooks w))) w.
Proof.
  intros Hr Hs. destruct (stage_timeout_pending w (reachable_inv _ _ Hr) Hs) as (A & HA & HtA).
  eapply timeout_eventually_measure; eauto.
Qed.

Lemma stage_timeout_eventually_witness :
  let w := run (demo_trace 0) (world_init env_audio) in
  eventually (fun w' => stage (w_hooks w') = next_stage (stage (w_hooks w))) w.
Proof.
  apply (stage_timeout_eventually env_audio); [apply reachable_run; constructor|].
  left. vm_compute. reflexivity.
Defined.
