(* ===== verification/Background.v ===== *)
(** * SoundController's background intervals are never cleared

    [SoundController.playBackground] (src/services/SoundController.ts,
    lines 51-65) arms two intervals, the 2000 ms piano note and the
    3000 ms heartbeat, and keeps neither id: nothing in the program can
    clear them.  The only [clearTimeout]/[clearInterval] calls of the page
    are the cleanups of App's and UIOverlay's effects, and those clear the
    ids their own bodies armed.

    This file shows that, on the page model of [App]: every step keeps
    every pending SoundController interval (same id, callback and period),
    so once the start click has run [playBackground] with an AudioContext,
    both intervals stay pending on every later page, CELEBRATION included.

    The argument is a frame relation, [kept_except J]: the intervals whose
    ids are not in [J] survive, and ids no sound timer has stay so.  Every
    handler and callback satisfies it for any [J]; React's commit
    satisfies it for [J] the ids its cleanups clear, and on a page of the
    invariant [page_inv] those are ids of App or overlay timers, which no
    sound timer shares. *)

From S2P Require Import Prelude Stage Timers Dom Sound GiftBox Overlay Scene App AppFacts AppInv Audio Sequencer.
From Stdlib Require Import QArith.
Local Close Scope Q_scope.
Local Open Scope js_scope.

(** ** Definitions *)

Definition pending (w : World) : list (timer Task) := sc_pending (w_sched w).

(** A SoundController interval: a sound callback armed with a period. *)
Definition sound_interval (t : timer Task) : Prop := is_sound_task (tm_task t) /\ is_Some (tm_period t).

(** [j] is below the next id and no pending sound timer has it. *)
Definition sound_free (j : nat) (w : World) : Prop :=
  j < sc_next (w_sched w) /\ forall t, t ∈ pending w -> is_sound_task (tm_task t) -> tm_id t <> j.

(** The intervals of [w] whose ids are not in [J] are pending in [w'] with
    the same id, callback and period; ids free of sound timers stay so. *)
Definition kept_except (J : list nat) (w w' : World) : Prop :=
  (forall t, t ∈ pending w -> sound_interval t -> tm_id t ∉ J ->
     exists t', t' ∈ pending w' /\ tm_id t' = tm_id t /\ tm_task t' = tm_task t /\ tm_period t' = tm_period t) /\
  (forall j, sound_free j w -> sound_free j w').

(** The ids the effects' cleanups clear at the next commit. *)
Definition cleanup_ids (e : Effects) : list nat :=
  option_list (app_cleanup e) ++ option_list (overlay_cleanup_id e).

(** ** The frame relation *)

#[export] Instance kept_except_preorder J : PreOrder (kept_except J).
Proof.
  split.
  - intros w. split; [|done]. intros t Ht _ _. by exists t.
  - intros w1 w2 w3 [K1 F1] [K2 F2]. split; [|auto].
    intros t Ht Hi HJ. destruct (K1 t Ht Hi HJ) as (t2 & Ht2 & Hid & Htk & Hp).
    destruct (K2 t2 Ht2) as (t3 & Ht3 & Hid3 & Htk3 & Hp3).
    { unfold sound_interval in *. by rewrite Htk, Hp. }
    { by rewrite Hid. }
    exists t3. split_and!; congruence.
Qed.

Lemma kept_except_queue J w w' :
  sc_pending (w_sched w') = sc_pending (w_sched w) -> sc_next (w_sched w') = sc_next (w_sched w) ->
  kept_except J w w'.
Proof.
  intros Hq Hn. unfold kept_except, sound_free, pending. rewrite Hq, Hn. split; [|done].
  intros t Ht _ _. by exists t.
Qed.

Lemma kept_except_same J w w' : w_sched w' = w_sched w -> kept_except J w w'.
Proof. intros Hq. apply kept_except_queue; by rewrite Hq. Qed.

Lemma sched_same_kept J (f : World -> World) :
  (forall w, w_sched (f w) = w_sched w) -> js_rel (kept_except J) (js_modify f).
Proof. intros Hf. apply js_rel_modify. intros w. by apply kept_except_same. Qed.

(** Arming a timer gives it the next id, which no pending timer has. *)
Lemma sched_add_kept J w d p a :
  kept_except J w (set_sched (sched_add d p a (w_sched w)).1 w).
Proof.
  split.
  - intros t Ht _ _. exists t. split_and!; try done. unfold pending. simpl. apply elem_of_app. by left.
  - intros j [Hj Hf]. unfold sound_free, pending. simpl. split; [lia|].
    intros t Ht Hs. apply elem_of_app in Ht as [Ht|Ht]; [by apply Hf|].
    apply list_elem_of_singleton in Ht as ->. simpl. lia.
Qed.

Lemma set_timer_kept J d p t : js_rel (kept_except J) (set_timer (St := World) d p t).
Proof. apply js_rel_modify. intros w. apply sched_add_kept. Qed.

Lemma world_set_timer_kept {T} J (inj : T -> Task) d p t : js_rel (kept_except J) (world_set_timer inj d p t).
Proof. intros w. apply sched_add_kept. Qed.

(** Clearing an id of [J]. *)
Lemma clear_kept J j : j ∈ J -> js_rel (kept_except J) (world_clear_timer j).
Proof.
  intros Hj. apply js_rel_modify. intros w. split.
  - intros t Ht _ HJ. exists t. split_and!; try done. unfold pending. simpl.
    apply list_elem_of_filter. split; [|done]. intros Heq. apply HJ. by rewrite Heq.
  - intros j' [Hj' Hf]. unfold sound_free, pending. simpl. split; [done|].
    intros t Ht Hs. apply list_elem_of_filter in Ht as [_ Ht]. by apply Hf.
Qed.

Lemma update_sound_kept J f : js_rel (kept_except J) (update_sound (St := World) f).
Proof. by apply sched_same_kept. Qed.

Lemma update_hooks_kept J f : js_rel (kept_except J) (update_hooks f).
Proof. by apply sched_same_kept. Qed.

Lemma new_AudioContext_kept J : js_rel (kept_except J) (new_AudioContext (St := World)).
Proof. intros w. unfold new_AudioContext. destruct (has_AudioContext _); reflexivity. Qed.

Lemma math_random_call_kept J : js_rel (kept_except J) (math_random_call (St := World)).
Proof. intros w. by apply kept_except_same. Qed.

#[local] Hint Resolve set_timer_kept world_set_timer_kept update_sound_kept update_hooks_kept
  new_AudioContext_kept math_random_call_kept : vd.

Lemma init_kept J : js_rel (kept_except J) (init (St := World)).
Proof. unfold init. js_rel_tac. Qed.

#[local] Hint Resolve init_kept : vd.

Lemma playTone_kept J f ty d v : js_rel (kept_except J) (playTone (St := World) f ty d v).
Proof. unfold playTone. js_rel_tac. Qed.

#[local] Hint Resolve playTone_kept : vd.

Lemma schedule_sparkles_kept J i ts : js_rel (kept_except J) (schedule_sparkles (St := World) i ts).
Proof. revert i; induction ts; intros i; simpl; js_rel_tac. Qed.

#[local] Hint Resolve schedule_sparkles_kept : vd.

Lemma sound_ops_kept J :
  js_rel (kept_except J) (playPop (St := World)) /\ js_rel (kept_except J) (playBoop (St := World)) /\
  js_rel (kept_except J) (playSparkle (St := World)) /\ js_rel (kept_except J) (playBackground (St := World)) /\
  (forall t, js_rel (kept_except J) (run_sound_task (St := World) t)).
Proof.
  split_and!; [unfold playPop|unfold playBoop|unfold playSparkle|unfold playBackground|
               intros []; unfold run_sound_task]; js_rel_tac.
Qed.

Lemma playPop_kept J : js_rel (kept_except J) (playPop (St := World)).
Proof. apply sound_ops_kept. Qed.
Lemma playBoop_kept J : js_rel (kept_except J) (playBoop (St := World)).
Proof. apply sound_ops_kept. Qed.
Lemma playSparkle_kept J : js_rel (kept_except J) (playSparkle (St := World)).
Proof. apply sound_ops_kept. Qed.
Lemma playBackground_kept J : js_rel (kept_except J) (playBackground (St := World)).
Proof. apply sound_ops_kept. Qed.

#[local] Hint Resolve playPop_kept playBoop_kept playSparkle_kept playBackground_kept : vd.

(** No handler of the page clears a timer. *)
Lemma dispatch_kept J i : js_rel (kept_except J) (dispatch i).
Proof.
  unfold dispatch. apply js_rel_get. intros w. unfold page_scene. rewrite mounted_giftbox_stage.
  destruct i; simpl; js_rel_tac;
    unfold startExperience, nextStage, handleClick, handleYesClick, handlePointerOver,
      handlePointerOut, box_setter, setStage, updateStage, setHasStarted, setHovered, setHoveredOpen in *;
    js_rel_tac.
Qed.

Lemma run_task_kept J t : js_rel (kept_except J) (run_task t).
Proof. destruct t as [[]|[]|st]; simpl; [apply update_hooks_kept..|apply sound_ops_kept]. Qed.

(** ** React's commit clears only the ids of its cleanups *)

Lemma js_rel_after {S A} (R : S -> S -> Prop) `{!PreOrder R} (m : JS S A) s s0 :
  R s s0 -> js_rel R m -> R s (fst (m s0)).
Proof. intros H0 Hm. etrans; [exact H0|apply Hm]. Qed.

Lemma overlay_cleanup_kept e : js_rel (kept_except (cleanup_ids e)) (overlay_cleanup (St := World) (overlay_cleanup_id e)).
Proof.
  unfold overlay_cleanup. destruct (overlay_cleanup_id e) as [j|] eqn:He; [|js_rel_tac].
  apply clear_kept. unfold cleanup_ids. rewrite He. set_solver.
Qed.

Lemma app_effect_cleanup_kept e : js_rel (kept_except (cleanup_ids e)) (app_effect_cleanup (app_cleanup e)).
Proof.
  unfold app_effect_cleanup. destruct (app_cleanup e) as [j|] eqn:He; [|js_rel_tac].
  apply clear_kept. unfold cleanup_ids. rewrite He. set_solver.
Qed.

Lemma effect_bodies_kept J s :
  js_rel (kept_except J) (overlay_effect (St := World) s) /\ js_rel (kept_except J) (app_effect s).
Proof. unfold overlay_effect, app_effect, setInterval, setTimeout. split; js_rel_tac. Qed.

Lemma set_effects_kept J d d' c :
  js_rel (kept_except J) (set_overlay_effect d c) /\ js_rel (kept_except J) (set_app_effect d' c).
Proof. split; by apply sched_same_kept. Qed.

#[local] Hint Resolve overlay_cleanup_kept app_effect_cleanup_kept : vd.
#[local] Hint Extern 1 (js_rel _ (overlay_effect _)) => apply effect_bodies_kept : vd.
#[local] Hint Extern 1 (js_rel _ (app_effect _)) => apply effect_bodies_kept : vd.
#[local] Hint Extern 1 (js_rel _ (set_overlay_effect _ _)) => apply set_effects_kept : vd.
#[local] Hint Extern 1 (js_rel _ (set_app_effect _ _)) => apply set_effects_kept : vd.

Lemma commit_kept w : kept_except (cleanup_ids (w_effects w)) w (js_exec commit w).
Proof.
  unfold js_exec, commit, unmount_boxes.
  cbn [js_bind update_hooks js_modify js_get fst snd w_effects w_hooks set_hooks].
  eapply (js_rel_after (kept_except (cleanup_ids (w_effects w)))); [by apply kept_except_same|]. js_rel_tac.
Qed.

(** ** On a page of the invariant the cleanups clear no sound timer *)

Lemma kept_except_drop J w w' :
  (forall j, j ∈ J -> sound_free j w) -> kept_except J w w' -> kept_except [] w w'.
Proof.
  intros HJ [K F]. split; [|done]. intros t Ht Hi _. apply K; [done..|].
  intros Hin. destruct (HJ _ Hin) as [_ Hf]. destruct Hi as [Hs _]. by apply (Hf t).
Qed.

(** A pending timer that is not a sound timer has an id no sound timer has. *)
Lemma timers_with_free (P : Task -> Prop) `{!forall a, Decision (P a)} w t :
  (forall a, P a -> ~ is_sound_task a) -> sched_wf (w_sched w) ->
  t ∈ timers_with P (w_sched w) -> sound_free (tm_id t) w.
Proof.
  intros HP [Hnd Hall] Ht. unfold timers_with in Ht. apply list_elem_of_filter in Ht as [Hpt Ht].
  split; [by eapply Forall_forall in Hall as [? _]|].
  intros u Hu Hs Heq. assert (u = t) as -> by (eapply NoDup_fmap_eq; eauto). by apply (HP (tm_task t)).
Qed.

Lemma inv_cleanups_free w : page_inv w -> forall j, j ∈ cleanup_ids (w_effects w) -> sound_free j w.
Proof.
  intros [Hwf _ _ _ Ht] j. unfold cleanup_ids.
  assert (forall t, t ∈ app_timers (w_sched w) -> sound_free (tm_id t) w) as Ha.
  { intros t. apply timers_with_free; [|done]. intros []; simpl; tauto. }
  assert (forall t, t ∈ ov_timers (w_sched w) -> sound_free (tm_id t) w) as Ho.
  { intros t. apply timers_with_free; [|done]. intros []; simpl; tauto. }
  destruct (stage (w_hooks w)); simpl in Ht; break_hyps;
    repeat match goal with H : ?x = _ |- context [?x] => rewrite H end; simpl;
    intros Hj; set_unfold in Hj; destruct_or?; subst; try done;
    first [refine (Ha (mk_timer _ _ _ _) _); by match goal with H : app_timers _ = _ |- _ => rewrite H; left end
          |refine (Ho (mk_timer _ _ _ _) _); by match goal with H : ov_timers _ = _ |- _ => rewrite H; left end].
Qed.

(** ** Firing a timer re-arms an interval with its id, callback and period *)

Lemma pop_kept J w t q :
  sched_wf (w_sched w) -> sched_pop (w_sched w) = Some (t, q) -> kept_except J w (set_sched q w).
Proof.
  intros [Hnd _] Hpop. destruct (sched_pop_spec _ _ _ Hpop) as (Ht & _ & _ & Hnext & Hq).
  split.
  - intros u Hu [Hs [p Hp]] _. unfold pending; simpl. rewrite Hq.
    destruct (decide (tm_id u = tm_id t)) as [Heq|Hne].
    + assert (u = t) as -> by (eapply NoDup_fmap_eq; eauto).
      exists (mk_timer (tm_id t) (tm_due t + p) (Some p) (tm_task t)). split_and!; try done.
      apply elem_of_app; right. unfold rearm. rewrite Hp. by left.
    + exists u. split_and!; try done. apply elem_of_app; left. by apply list_elem_of_filter.
  - intros j [Hj Hf]. unfold sound_free, pending; simpl. rewrite Hnext, Hq. split; [done|].
    intros u Hu Hs. apply elem_of_app in Hu as [Hu|Hu].
    + apply list_elem_of_filter in Hu as [_ Hu]. by apply Hf.
    + unfold rearm in Hu. destruct (tm_period t); [|by apply not_elem_of_nil in Hu].
      apply list_elem_of_singleton in Hu. subst u. simpl in *. by apply (Hf t).
Qed.

(** ** Every step keeps every SoundController interval *)

Lemma handle_kept m w :
  js_rel (kept_except []) m -> js_rel rest_frame m ->
  (forall j, j ∈ cleanup_ids (w_effects w) -> sound_free j w) -> kept_except [] w (handle m w).
Proof.
  intros Hk Hr Hf. unfold handle. destruct (m w) as [w1 r] eqn:Hm.
  pose proof (js_rel_at _ _ _ _ _ Hk Hm) as K1. pose proof (js_rel_at _ _ _ _ _ Hr Hm) as [He _].
  assert (kept_except [] w (report r w1)) as K2.
  { etrans; [exact K1|]. apply kept_except_same. by destruct r. }
  etrans; [exact K2|]. eapply kept_except_drop; [|apply commit_kept].
  intros j Hj. apply (proj2 K2), Hf. assert (w_effects (report r w1) = w_effects w1) as Hre by (by destruct r).
  by rewrite Hre, He in Hj.
Qed.

Lemma step_kept w i : page_inv w -> kept_except [] w (step i w).
Proof.
  intros Hinv. pose proof (inv_cleanups_free w Hinv) as Hf.
  destruct i; cbn [step]; try (apply handle_kept; [apply dispatch_kept|apply dispatch_rest|done]).
  - destruct (sched_pop (w_sched w)) as [[t q]|] eqn:Hpop; [|reflexivity].
    assert (kept_except [] w (set_sched q w)) as K by (eapply pop_kept; [apply Hinv|done]).
    etrans; [exact K|]. apply handle_kept; [apply run_task_kept|apply run_task_rest|].
    intros j Hj. apply (proj2 K), Hf. done.
  - by apply kept_except_queue.
Qed.

Lemma run_kept env w l : reachable env w -> kept_except [] w (run l w).
Proof.
  revert w. induction l as [|i l IH]; intros w Hw; simpl; [reflexivity|].
  etrans; [apply step_kept, (reachable_inv env), Hw|]. apply IH. by constructor.
Qed.

(** The start click runs [playBackground]: with an AudioContext it arms
    the piano interval (id 1) and the heartbeat interval (id 2). *)
Lemma start_arms_background env :
  has_AudioContext env = true ->
  mk_timer 1 2000 (Some 2000) (SoundT PianoNote) ∈ pending (step ClickStart (world_init env)) /\
  mk_timer 2 3000 (Some 3000) (SoundT Heartbeat) ∈ pending (step ClickStart (world_init env)).
Proof.
  destruct env as [[] [] rnd]; intros H; try discriminate; vm_compute; split; by repeat constructor.
Qed.

(** ** The background intervals stay pending for ever *)

(** C30: once the start click has run [playBackground] with an
    AudioContext, the 2000 ms piano interval and the 3000 ms heartbeat
    interval are pending on every later page, whatever the user and the
    timers do next: nothing in the program clears them, not even in
    CELEBRATION. *)
Theorem background_intervals_forever env l :
  has_AudioContext env = true ->
  let w := run l (step ClickStart (world_init env)) in
  (exists t, t ∈ pending w /\ tm_id t = 1 /\ tm_task t = SoundT PianoNote /\ tm_period t = Some 2000) /\
  (exists t, t ∈ pending w /\ tm_id t = 2 /\ tm_task t = SoundT Heartbeat /\ tm_period t = Some 3000).
Proof.
  intros Henv w. destruct (start_arms_background env Henv) as [H1 H2].
  assert (reachable env (step ClickStart (world_init env))) as Hr by (constructor; constructor).
  destruct (run_kept env _ l Hr) as [K _].
  split; [destruct (K _ H1) as (t & ? & ? & ? & ?)|destruct (K _ H2) as (t & ? & ? & ? & ?)];
    try (split; [exact I|by eexists]); try set_solver; by exists t.
Qed.

Lemma background_intervals_forever_witness :
  has_AudioContext env_audio = true /\
  let w := run (demo_trace 5) (step ClickStart (world_init env_audio)) in
  (exists t, t ∈ pending w /\ tm_id t = 1 /\ tm_task t = SoundT PianoNote /\ tm_period t = Some 2000) /\
  (exists t, t ∈ pending w /\ tm_id t = 2 /\ tm_task t = SoundT Heartbeat /\ tm_period t = Some 3000).
Proof. split; [reflexivity|]. apply background_intervals_forever. reflexivity. Defined.
